(** * DOCX inspector: the [compare] command of scripts/inspect-docx.py

    A shallow embedding of the comparison pipeline ([extract_paras],
    [find_commands], the comparison helpers and [cmd_compare]) together
    with the properties the design document states about it.

    Conventions.
    - Text is a [string] whose characters are the code points U+0000 to
      U+00FF (one [ascii] per code point).  The Python string methods the
      script calls ([strip], [startswith], [in], slicing, [join], [repr],
      [int]) are written out for that range.
    - An lxml element is a rose tree [Element]; tags and attribute names
      are in Clark notation, as the script builds them with [W_NS].
    - [issues] is a list of formatted messages in the script.  Here every
      message template is one constructor of [Issue] carrying the values
      the f-string interpolates, in the order the script appends them.
    - A Python exception ([ValueError] from [int] or from formatting an
      integer of too many digits, [IndexError] from a subscript,
      [TypeError] from [in]) is [None] in the option monad: the run ends
      there.  What a run has printed before it raises is not modelled; a
      [Report] holds what a run that raises nothing prints. *)

From Stdlib Require Import ZArith Ascii String List Lia.
From stdpp Require Import base tactics option list sorting strings.

Local Set Warnings "-register-all".

Local Open Scope string_scope.
Local Open Scope list_scope.
Local Open Scope nat_scope.

(** ** Python string operations *)

Module PyStr.

Definition code (c : ascii) : N := N_of_ascii c.

Definition between (lo hi : N) (c : ascii) : bool :=
  ((lo <=? code c)%N && (code c <=? hi)%N)%bool.

(** [str] whitespace as [str.strip] sees it: U+0009..U+000D,
    U+001C..U+001F, U+0020, U+0085, U+00A0. *)
Definition isspace (c : ascii) : bool :=
  (between 9 13 c || between 28 32 c
   || (code c =? 133)%N || (code c =? 160)%N)%bool.

Fixpoint lstrip (s : string) : string :=
  match s with
  | String c s' => if isspace c then lstrip s' else s
  | EmptyString => EmptyString
  end.

Fixpoint rstrip (s : string) : string :=
  match s with
  | String c s' =>
      match rstrip s' with
      | EmptyString => if isspace c then EmptyString else String c EmptyString
      | r => String c r
      end
  | EmptyString => EmptyString
  end.

(** [s.strip()] *)
Definition strip (s : string) : string := rstrip (lstrip s).

(** [s.startswith(p)] *)
Definition startswith (s p : string) : bool := String.prefix p s.

(** [needle in s] *)
Fixpoint contains (needle s : string) : bool :=
  (String.prefix needle s
   || match s with
      | String _ s' => contains needle s'
      | EmptyString => false
      end)%bool.

(** [s[:n]] *)
Fixpoint slice_to (n : nat) (s : string) : string :=
  match n, s with
  | S n', String c s' => String c (slice_to n' s')
  | _, _ => EmptyString
  end.

(** [sep.join(l)] *)
Definition join (sep : string) (l : list string) : string :=
  String.concat sep l.

(** *** [repr] of a [str] and [str] of a tuple of [str] *)

Definition hexdigit (n : N) : ascii :=
  if (n <? 10)%N then ascii_of_N (48 + n) else ascii_of_N (87 + n).

(** Code points that [str.isprintable] rejects above U+007F: the C1
    controls, the no-break space and the soft hyphen. *)
Definition isprintable_high (c : ascii) : bool :=
  negb (between 128 160 c || (code c =? 173)%N).

Definition hex_escape (c : ascii) : string :=
  String "\" (String "x"
    (String (hexdigit (code c / 16)) (String (hexdigit (code c mod 16)) EmptyString))).

Definition repr_char (quote c : ascii) : string :=
  if (Ascii.eqb c quote || Ascii.eqb c "\")%bool then String "\" (String c EmptyString)
  else if Ascii.eqb c "009" then "\t"
  else if Ascii.eqb c "010" then "\n"
  else if Ascii.eqb c "013" then "\r"
  else if ((code c <? 32)%N || (code c =? 127)%N)%bool then hex_escape c
  else if (code c <? 127)%N then String c EmptyString
  else if isprintable_high c then String c EmptyString
  else hex_escape c.

Fixpoint repr_body (quote : ascii) (s : string) : string :=
  match s with
  | String c s' => repr_char quote c +:+ repr_body quote s'
  | EmptyString => EmptyString
  end.

Fixpoint has_char (q : ascii) (s : string) : bool :=
  match s with
  | String c s' => (Ascii.eqb c q || has_char q s')%bool
  | EmptyString => false
  end.

Definition dquote : ascii := "034"%char.

(** Single quotes unless the text has a single quote and no double one. *)
Definition repr_quote (s : string) : ascii :=
  if (has_char "'" s && negb (has_char dquote s))%bool then dquote
  else "'"%char.

Definition repr (s : string) : string :=
  let q := repr_quote s in
  String q (repr_body q s +:+ String q EmptyString).

(** [str(tuple(l))] for a list of [str]. *)
Definition str_tuple (l : list string) : string :=
  match l with
  | [] => "()"
  | [x] => "(" +:+ repr x +:+ ",)"
  | _ => "(" +:+ join ", " (repr <$> l) +:+ ")"
  end.

(** *** [int(s)] in base 10 *)

Definition isdigit (c : ascii) : bool := between 48 57 c.

(** The whitespace [int] skips around the number: the ASCII set of the
    C parser (U+001C..U+001F are not in it) and the non-ASCII spaces,
    which are first rewritten to a blank. *)
Definition int_isspace (c : ascii) : bool :=
  (between 9 13 c || (code c =? 32)%N
   || (code c =? 133)%N || (code c =? 160)%N)%bool.

Fixpoint int_skip (s : string) : string :=
  match s with
  | String c s' => if int_isspace c then int_skip s' else s
  | EmptyString => EmptyString
  end.

(** Digits with single underscores between them; returns the value, the
    number of digits read and the unread rest. *)
Fixpoint int_digits (s : string) (prev_us : bool) (acc : Z) (n : nat)
  : option (Z * nat * string) :=
  match s with
  | String c s' =>
      if isdigit c
      then int_digits s' false (10 * acc + Z.of_N (code c - 48))%Z (S n)
      else if Ascii.eqb c "_"
           then if prev_us then None else int_digits s' true acc n
           else if prev_us then None else Some (acc, n, s)
  | EmptyString => if prev_us then None else Some (acc, n, EmptyString)
  end.

(** Default of [sys.get_int_max_str_digits()]. *)
Definition int_max_str_digits : nat := 4300.

Definition int_unsigned (s : string) : option Z :=
  match s with
  | String "_" _ => None
  | _ =>
      match int_digits s false 0%Z 0 with
      | Some (v, n, rest) =>
          if (n =? 0) || (int_max_str_digits <? n) then None
          else match int_skip rest with
               | EmptyString => Some v
               | _ => None
               end
      | None => None
      end
  end.

(** [int(s)]; [None] is [ValueError]. *)
Definition int (s : string) : option Z :=
  match int_skip s with
  | String "-" s' => Z.opp <$> int_unsigned s'
  | String "+" s' => int_unsigned s'
  | s' => int_unsigned s'
  end.

(** [str(n)], and with it the formatting of [n] in an f-string, raises
    ValueError for an integer of more than [int_max_str_digits] decimal
    digits, the sign not counted. *)
Definition int_str_bound : Z :=
  Eval vm_compute in (10 ^ Z.of_nat int_max_str_digits)%Z.

Definition str_int_fits (n : Z) : bool := (Z.abs n <? int_str_bound)%Z.

(** [s.split()]: the maximal runs of characters that are not whitespace.
    [cur] is the run read so far. *)
Fixpoint split_from (cur : string) (s : string) : list string :=
  match s with
  | String c s' =>
      if isspace c
      then match cur with
           | EmptyString => split_from EmptyString s'
           | _ => cur :: split_from EmptyString s'
           end
      else split_from (cur +:+ String c EmptyString) s'
  | EmptyString =>
      match cur with
      | EmptyString => []
      | _ => [cur]
      end
  end.

Definition split (s : string) : list string := split_from EmptyString s.

(** [s.strip(chars)] *)
Fixpoint lstrip_chars (chars s : string) : string :=
  match s with
  | String c s' => if has_char c chars then lstrip_chars chars s' else s
  | EmptyString => EmptyString
  end.

Fixpoint rstrip_chars (chars s : string) : string :=
  match s with
  | String c s' =>
      match rstrip_chars chars s' with
      | EmptyString => if has_char c chars then EmptyString else String c EmptyString
      | r => String c r
      end
  | EmptyString => EmptyString
  end.

Definition strip_chars (chars s : string) : string :=
  rstrip_chars chars (lstrip_chars chars s).

End PyStr.

(** ** The element tree (lxml's [etree._Element]) *)

Inductive Element : Type :=
  Elem { tag : string;
         attrib : list (string * string);
         text : option string;
         children : list Element }.

Definition W_NS : string :=
  "http://schemas.openxmlformats.org/wordprocessingml/2006/main".

(** The Clark name [f"{{{W_NS}}}local"]. *)
Definition W (local : string) : string := "{" +:+ W_NS +:+ "}" +:+ local.

Module El.

Fixpoint assoc (k : string) (l : list (string * string)) : option string :=
  match l with
  | [] => None
  | (k', v) :: l' => if decide (k' = k) then Some v else assoc k l'
  end.

(** [e.get(k)] and [e.get(k, d)] *)
Definition get (e : Element) (k : string) : option string :=
  assoc k (attrib e).
Definition get_or (e : Element) (k d : string) : string :=
  default d (get e k).

Definition select (t : string) (l : list Element) : list Element :=
  filter (λ c, tag c = t) l.

(** [e.findall(t)] and [e.find(t)] for a one-step path: direct children. *)
Definition findall (e : Element) (t : string) : list Element :=
  select t (children e).
Definition find (e : Element) (t : string) : option Element :=
  head (findall e t).

(** Document order, the element itself first. *)
Fixpoint walk (e : Element) : list Element :=
  e :: (children e ≫= walk).

(** [e.iter(t)] *)
Definition iter (e : Element) (t : string) : list Element :=
  select t (walk e).

(** [e.findall(".//t")]: proper descendants only. *)
Definition findall_deep (e : Element) (t : string) : list Element :=
  select t (children e ≫= walk).

(** [walk] with what [getparent()] returns for each element. *)
Fixpoint walk_parent (parent : option Element) (e : Element)
  : list (option Element * Element) :=
  (parent, e) :: (children e ≫= walk_parent (Some e)).

End El.

(** A .docx archive as the script reads it: the part word/document.xml,
    and word/footnotes.xml when the archive lists it and it parses (the
    script swallows every exception of that block). *)
Record Docx := { document : Element; footnotes : option Element }.

Definition read_docx_xml (path : Docx) : Element := document path.

(** ** Paragraphs and commands *)

Record Para := {
  p_i : nat;
  p_style : option string;
  p_text : string;
  p_runs : list string;
  p_tbl : bool }.

Definition run_text (r : Element) : option string :=
  t ← El.find r (W "t");
  s ← text t;
  if decide (s = EmptyString) then None else Some s.

Definition para_style (para : Element) : option string :=
  style_el ← head (El.findall para (W "pPr")
                   ≫= λ ppr, El.findall ppr (W "pStyle"));
  El.get style_el (W "val").

Definition in_table (parent : option Element) : bool :=
  match parent with
  | Some pa => bool_decide (tag pa = W "tc")
  | None => false
  end.

Definition extract_paras (path : Docx) : list Para :=
  let root := read_docx_xml path in
  imap (λ i '(parent, para),
          let runs := omap run_text (El.iter para (W "r")) in
          {| p_i := i;
             p_style := para_style para;
             p_text := PyStr.join EmptyString runs;
             p_runs := runs;
             p_tbl := in_table parent |})
       (filter (λ pe, tag pe.2 = W "p") (El.walk_parent None root)).

Inductive Kind := FOR | END_FOR | IF | END_IF | INS | field.

Global Instance Kind_eq_dec : EqDecision Kind.
Proof. solve_decision. Defined.

Record Command := {
  c_para : nat;
  c_tbl : bool;
  c_raw : string;
  c_type : Kind }.

(** Group 1 of every match of [\{([^}]+)\}], left to right, as
    [pat.finditer] yields them.  [opened] is the text read since the
    brace at which the current attempt started, [None] outside an
    attempt.  An attempt that meets a closing brace at once, or never
    meets one, fails and no later position can start a match that
    overlaps it. *)
Fixpoint scan_commands (opened : option string) (s : string) : list string :=
  match s with
  | EmptyString => []
  | String c s' =>
      match opened with
      | None =>
          if Ascii.eqb c "{" then scan_commands (Some EmptyString) s'
          else scan_commands None s'
      | Some g =>
          if Ascii.eqb c "}"
          then match g with
               | EmptyString => scan_commands None s'
               | _ => g :: scan_commands None s'
               end
          else scan_commands (Some (g +:+ String c EmptyString)) s'
      end
  end.

Definition finditer (s : string) : list string := scan_commands None s.

Definition classify (raw : string) : Kind :=
  if PyStr.startswith raw "FOR " then FOR
  else if PyStr.startswith raw "END-FOR" then END_FOR
  else if PyStr.startswith raw "IF " then IF
  else if bool_decide (raw = "END-IF") then END_IF
  else if PyStr.startswith raw "INS " then INS
  else field.

Definition find_commands (path : Docx) : list Command :=
  p ← extract_paras path;
  (λ g, let raw := PyStr.strip g in
        {| c_para := p_i p; c_tbl := p_tbl p;
           c_raw := raw; c_type := classify raw |})
    <$> finditer (p_text p).

(** ** Comparison helpers *)

Definition _table_grid (tbl : Element) : list string :=
  match El.find tbl (W "tblGrid") with
  | None => []
  | Some grid => (λ c, El.get_or c (W "w") "?") <$> El.findall grid (W "gridCol")
  end.

Definition _table_width (tbl : Element) : string * string :=
  match El.find tbl (W "tblPr") ≫= (λ tbl_pr, El.find tbl_pr (W "tblW")) with
  | Some tw => (El.get_or tw (W "w") "?", El.get_or tw (W "type") "?")
  | None => ("?", "?")
  end.

Record CellInfo := { cw_w : string; cw_type : string; cw_span : Z }.

Definition cell_info (cell : Element) : option CellInfo :=
  match El.find cell (W "tcPr") with
  | None => Some {| cw_w := "?"; cw_type := "?"; cw_span := 1 |}
  | Some tc_pr =>
      let '(w, ty) :=
        match El.find tc_pr (W "tcW") with
        | Some tc_w => (El.get_or tc_w (W "w") "?", El.get_or tc_w (W "type") "?")
        | None => ("?", "?")
        end in
      span ← match El.find tc_pr (W "gridSpan") with
             | Some gs => PyStr.int (El.get_or gs (W "val") "1")
             | None => Some 1%Z
             end;
      Some {| cw_w := w; cw_type := ty; cw_span := span |}
  end.

(** [None] when a [gridSpan] value is not an integer literal. *)
Definition _row_cell_widths (row : Element) : option (list CellInfo) :=
  mapM cell_info (El.findall row (W "tc")).

Definition _cell_text (cell : Element) : string :=
  PyStr.strip
    (PyStr.join EmptyString
       ((λ t, default EmptyString (text t)) <$> El.findall_deep cell (W "t"))).

Definition _footnote_refs (root : Element) : list string :=
  (λ r, El.get_or r (W "id") "?") <$> El.findall_deep root (W "footnoteReference").

Definition _table_label (tbl : Element) : string :=
  match El.findall tbl (W "tr") with
  | [] => "(empty table)"
  | row0 :: _ =>
      let cells := El.findall row0 (W "tc") in
      let texts := (λ c, PyStr.slice_to 30 (_cell_text c)) <$> take 3 cells in
      let label := PyStr.join " | " (filter (λ t, t ≠ EmptyString) texts) in
      if 60 <? String.length label
      then PyStr.slice_to 60 label +:+ "..."
      else label
  end.

Definition _find_table_in_output
    (out_tables : list Element) (tpl_label : string) (tpl_grid : list string)
  : option nat :=
  fst <$> list_find (λ tbl, _table_label tbl = tpl_label) out_tables.

(** ** The compare command *)

(** One constructor per message the script appends to [issues]. *)
Inductive Issue :=
  | Residual (raw : string)
  | Unresolved (raw : string)
  | FootnoteDup (fid : string) (count : nat)
  | FootnoteUndef (fid : string)
  | GridMismatch (ti : nat) (label_short : string) (tpl_grid out_grid : list string)
  | TblWMismatch (ti : nat) (label_short : string) (tpl_tw out_tw : string * string)
  | CellCount (ti ri tpl_n out_n : nat)
  | CellWidth (ti ri ci : nat) (tpl_w tpl_type out_w out_type : string)
  | GridSpan (ti ri ci : nat) (tpl_span out_span : Z)
  | ForGridDiffers (idx : nat) (first_grid g : list string)
  | ForCellCount (idx ri cur_n ref_idx ref_n : nat)
  | SpanAnomaly (i ri : nat) (total_span : Z) (grid_cols ncells : nat)
                (cell_texts : list string).

(** [for i, x in enumerate(l, start): body], where the body appends
    issues or raises. *)
Fixpoint for_from {A B : Type} (body : nat → A → option (list B))
    (start : nat) (l : list A) : option (list B) :=
  match l with
  | [] => Some []
  | x :: l' =>
      r ← body start x;
      rs ← for_from body (S start) l';
      Some (r ++ rs)
  end.

(** *** 2. Residual commands *)

Definition control_types : list Kind := [FOR; END_FOR; IF; END_IF; INS].

Definition residual (out_cmds : list Command) : list Command :=
  filter (λ c, c_type c ∈ control_types) out_cmds.

Definition unresolved_fields (out_cmds : list Command) : list Command :=
  filter (λ c, c_type c = field ∧ PyStr.startswith (c_raw c) "$" = true) out_cmds.

Definition command_issues (out_cmds : list Command) : list Issue :=
  ((λ c, Residual (c_raw c)) <$> residual out_cmds)
  ++ ((λ c, Unresolved (c_raw c)) <$> unresolved_fields out_cmds).

(** *** 3. Footnote consistency *)

(** [fn_counts[fid] = fn_counts.get(fid, 0) + 1] on an insertion-ordered
    dict. *)
Fixpoint count_ref (fid : string) (fn_counts : list (string * nat))
  : list (string * nat) :=
  match fn_counts with
  | [] => [(fid, 1)]
  | (k, n) :: rest =>
      if decide (k = fid) then (k, n + 1) :: rest
      else (k, n) :: count_ref fid rest
  end.

Definition fn_counts (out_fn_refs : list string) : list (string * nat) :=
  foldl (λ acc fid, count_ref fid acc) [] out_fn_refs.

Definition duplicate_issues (out_fn_refs : list string) : list Issue :=
  fn_counts out_fn_refs
  ≫= λ '(fid, count), if decide (1 < count) then [FootnoteDup fid count] else [].

(** The order in which [set(out_fn_refs)] is walked is not fixed by the
    language; [remove_dups] picks one. *)
Definition undefined_issues (out : Docx) (out_fn_refs : list string) : list Issue :=
  match footnotes out with
  | Some fn_xml =>
      let fn_defs := (λ f, El.get f (W "id")) <$> El.findall fn_xml (W "footnote") in
      FootnoteUndef <$> filter (λ fid, Some fid ∉ fn_defs) (remove_dups out_fn_refs)
  | None => []
  end.

(** *** 4. Table grid and cell width comparison *)

Definition skip_label (tpl_label : string) : bool :=
  PyStr.contains "{FOR" tpl_label || PyStr.contains "{$" tpl_label.

Definition cell_issues (ti ri ci : nat) (tw ow : CellInfo) : list Issue :=
  (if decide (cw_w tw ≠ cw_w ow ∨ cw_type tw ≠ cw_type ow)
   then [CellWidth ti ri ci (cw_w tw) (cw_type tw) (cw_w ow) (cw_type ow)]
   else [])
  ++ (if decide (cw_span tw ≠ cw_span ow)
      then [GridSpan ti ri ci (cw_span tw) (cw_span ow)]
      else []).

Definition row_issues (ti ri : nat) (rows : Element * Element)
  : option (list Issue) :=
  tpl_cw ← _row_cell_widths rows.1;
  out_cw ← _row_cell_widths rows.2;
  Some (if decide (length tpl_cw ≠ length out_cw)
        then [CellCount ti ri (length tpl_cw) (length out_cw)]
        else concat (imap (λ ci c, cell_issues ti ri ci c.1 c.2)
                          (zip tpl_cw out_cw))).

(** The body of the loop over template tables.  [zip] of the two row
    lists is the range [min(len(tpl_rows), len(out_rows))]. *)
Definition table_issues (out_tables : list Element) (ti : nat) (tpl_tbl : Element)
  : option (list Issue) :=
  let tpl_grid := _table_grid tpl_tbl in
  let tpl_label := _table_label tpl_tbl in
  let tpl_tw := _table_width tpl_tbl in
  if skip_label tpl_label then Some []
  else
    match _find_table_in_output out_tables tpl_label tpl_grid with
    | None => Some []
    | Some oi =>
        out_tbl ← out_tables !! oi;
        let out_grid := _table_grid out_tbl in
        let out_tw := _table_width out_tbl in
        let label_short := PyStr.slice_to 40 tpl_label in
        let tpl_rows := El.findall tpl_tbl (W "tr") in
        let out_rows := El.findall out_tbl (W "tr") in
        rs ← for_from (row_issues ti) 0 (zip tpl_rows out_rows);
        Some ((if decide (tpl_grid ≠ out_grid)
               then [GridMismatch ti label_short tpl_grid out_grid] else [])
              ++ (if decide (tpl_tw ≠ out_tw)
                  then [TblWMismatch ti label_short tpl_tw out_tw] else [])
              ++ rs)
    end.

(** [matched] is incremented exactly by the tables that reach the diff. *)
Definition table_matched (out_tables : list Element) (tpl_tbl : Element) : bool :=
  let tpl_label := _table_label tpl_tbl in
  negb (skip_label tpl_label)
  && bool_decide (is_Some (_find_table_in_output out_tables tpl_label
                                                 (_table_grid tpl_tbl))).

(** *** 5. FOR loop expansion check *)

(** [grid_groups.setdefault(key, []).append(i)] *)
Fixpoint setdefault_append (key : string) (i : nat)
    (groups : list (string * list nat)) : list (string * list nat) :=
  match groups with
  | [] => [(key, [i])]
  | (k, l) :: rest =>
      if decide (k = key) then (k, l ++ [i]) :: rest
      else (k, l) :: setdefault_append key i rest
  end.

Definition grid_key (tbl : Element) : string :=
  PyStr.str_tuple (_table_grid tbl).

Fixpoint group_from (i : nat) (tables : list Element)
    (groups : list (string * list nat)) : list (string * list nat) :=
  match tables with
  | [] => groups
  | tbl :: rest => group_from (S i) rest (setdefault_append (grid_key tbl) i groups)
  end.

Definition grid_groups (out_tables : list Element) : list (string * list nat) :=
  group_from 0 out_tables [].

(** The groups that pass [if len(indices) <= 2: continue]. *)
Definition loop_families (out_tables : list Element) : list (string * list nat) :=
  filter (λ g, 2 < length g.2) (grid_groups out_tables).

Definition for_row_issues (idx ref_idx ri : nat) (rows : Element * Element)
  : option (list Issue) :=
  ref_cw ← _row_cell_widths rows.1;
  cur_cw ← _row_cell_widths rows.2;
  Some (if decide (length ref_cw ≠ length cur_cw)
        then [ForCellCount idx ri (length cur_cw) ref_idx (length ref_cw)]
        else []).

Definition member_issues (out_tables : list Element) (ref_idx : nat)
    (ref_rows : list Element) (idx : nat) : option (list Issue) :=
  tbl ← out_tables !! idx;
  let rows := El.findall tbl (W "tr") in
  if decide (length rows ≠ length ref_rows) then Some []
  else for_from (for_row_issues idx ref_idx) 0 (zip ref_rows rows).

Definition grid_differs (first_grid : list string) (m : nat * list string)
  : list Issue :=
  if decide (m.2 ≠ first_grid) then [ForGridDiffers m.1 first_grid m.2] else [].

Definition family_issues (out_tables : list Element) (indices : list nat)
  : option (list Issue) :=
  grids ← mapM (λ i, _table_grid <$> out_tables !! i) indices;
  first_grid ← head grids;
  ref_idx ← head indices;
  ref_tbl ← out_tables !! ref_idx;
  let ref_rows := El.findall ref_tbl (W "tr") in
  ms ← mapM (member_issues out_tables ref_idx ref_rows) (tail indices);
  Some ((zip indices grids ≫= grid_differs first_grid) ++ concat ms).

(** The line printed per family: size, [key[:60]], [ref_label[:40]]. *)
Definition family_line (out_tables : list Element) (g : string * list nat)
  : option (nat * string * string) :=
  ref_idx ← head g.2;
  ref_tbl ← out_tables !! ref_idx;
  Some (length g.2, PyStr.slice_to 60 g.1, PyStr.slice_to 40 (_table_label ref_tbl)).

(** *** 6. Row cell count anomalies *)

Definition total_span (cells : list CellInfo) : Z :=
  foldr Z.add 0%Z (cw_span <$> cells).

(** [None] when a [gridSpan] value is not an integer literal, and when
    the total that the issue is to name has too many digits to be
    formatted. *)
Definition span_row_issues (i grid_cols ri : nat) (row : Element)
  : option (list Issue) :=
  cells ← _row_cell_widths row;
  if decide (total_span cells ≠ Z.of_nat grid_cols)
  then
    let cell_texts :=
      (λ c, PyStr.slice_to 25 (_cell_text c)) <$> El.findall row (W "tc") in
    if PyStr.str_int_fits (total_span cells)
    then Some [SpanAnomaly i ri (total_span cells) grid_cols (length cells)
                 (take 4 cell_texts)]
    else None
  else Some [].

Definition span_table_issues (i : nat) (tbl : Element) : option (list Issue) :=
  let grid_cols := length (_table_grid tbl) in
  if decide (grid_cols = 0) then Some []
  else for_from (span_row_issues i grid_cols) 0 (El.findall tbl (W "tr")).

(** *** The report *)

Record Report := {
  r_tables : nat * nat;
  r_paragraphs : nat * nat;
  r_commands : nat * nat;
  r_matched : nat;
  r_families : list (nat * string * string);
  r_row_issues_count : nat;
  r_issues : list Issue }.

Definition cmd_compare (tpl_path out_path : Docx) : option Report :=
  let tpl_root := read_docx_xml tpl_path in
  let out_root := read_docx_xml out_path in
  let tpl_tables := El.iter tpl_root (W "tbl") in
  let out_tables := El.iter out_root (W "tbl") in
  let tpl_paras := extract_paras tpl_path in
  let out_paras := extract_paras out_path in
  let tpl_cmds := find_commands tpl_path in
  let out_cmds := find_commands out_path in
  let issues2 := command_issues out_cmds in
  let out_fn_refs := _footnote_refs out_root in
  let issues3 := duplicate_issues out_fn_refs ++ undefined_issues out_path out_fn_refs in
  issues4 ← for_from (table_issues out_tables) 0 tpl_tables;
  let matched := length (filter (λ t, table_matched out_tables t = true) tpl_tables) in
  per_family ← mapM (λ g, family_issues out_tables g.2) (loop_families out_tables);
  let issues5 := concat per_family in
  families ← mapM (family_line out_tables) (loop_families out_tables);
  issues6 ← for_from span_table_issues 0 out_tables;
  Some {| r_tables := (length tpl_tables, length out_tables);
          r_paragraphs := (length tpl_paras, length out_paras);
          r_commands := (length tpl_cmds, length out_cmds);
          r_matched := matched;
          r_families := families;
          r_row_issues_count := length issues6;
          r_issues := issues2 ++ issues3 ++ issues4 ++ issues5 ++ issues6 |}.

(** ** Vocabulary for the statements *)

(** The check of [cmd_compare] an issue comes from. *)
Inductive Check := CommandCheck | FootnoteCheck | TableDiff | LoopExpansion | RowSpan.

Global Instance Check_eq_dec : EqDecision Check.
Proof. solve_decision. Defined.

Definition check_of (i : Issue) : Check :=
  match i with
  | Residual _ | Unresolved _ => CommandCheck
  | FootnoteDup _ _ | FootnoteUndef _ => FootnoteCheck
  | GridMismatch _ _ _ _ | TblWMismatch _ _ _ _ | CellCount _ _ _ _
  | CellWidth _ _ _ _ _ _ _ | GridSpan _ _ _ _ _ => TableDiff
  | ForGridDiffers _ _ _ | ForCellCount _ _ _ _ _ => LoopExpansion
  | SpanAnomaly _ _ _ _ _ _ => RowSpan
  end.

Definition from_check (c : Check) (i : Issue) : bool :=
  bool_decide (check_of i = c).

(** Issues of the per-table diff that name template table [ti]. *)
Definition diff_at_table (ti : nat) (i : Issue) : bool :=
  match i with
  | GridMismatch t _ _ _ | TblWMismatch t _ _ _ | CellCount t _ _ _
  | CellWidth t _ _ _ _ _ _ | GridSpan t _ _ _ _ => bool_decide (t = ti)
  | _ => false
  end.

(** Row-level and per-cell issues of the per-table diff at row [ri] of
    template table [ti]. *)
Definition diff_at_row (ti ri : nat) (i : Issue) : bool :=
  match i with
  | CellCount t r _ _ | CellWidth t r _ _ _ _ _ | GridSpan t r _ _ _ =>
      bool_decide (t = ti ∧ r = ri)
  | _ => false
  end.

Definition is_residual (i : Issue) : bool :=
  match i with Residual _ => true | _ => false end.

Definition is_unresolved (i : Issue) : bool :=
  match i with Unresolved _ => true | _ => false end.

Definition is_duplicate (i : Issue) : bool :=
  match i with FootnoteDup _ _ => true | _ => false end.

Definition is_duplicate_of (fid : string) (i : Issue) : bool :=
  match i with FootnoteDup f _ => bool_decide (f = fid) | _ => false end.

Definition is_grid_differs (i : Issue) : bool :=
  match i with ForGridDiffers _ _ _ => true | _ => false end.

Definition is_for_cell_count (i : Issue) : bool :=
  match i with ForCellCount _ _ _ _ _ => true | _ => false end.

Definition for_cell_count_in (idx : nat) (i : Issue) : bool :=
  match i with ForCellCount t _ _ _ _ => bool_decide (t = idx) | _ => false end.

Definition for_cell_count_at (idx ri : nat) (i : Issue) : bool :=
  match i with
  | ForCellCount t r _ _ _ => bool_decide (t = idx ∧ r = ri)
  | _ => false
  end.

Definition is_span_anomaly (i : Issue) : bool :=
  match i with SpanAnomaly _ _ _ _ _ _ => true | _ => false end.

Definition span_anomaly_in (ti : nat) (i : Issue) : bool :=
  match i with SpanAnomaly t _ _ _ _ _ => bool_decide (t = ti) | _ => false end.

Definition span_anomaly_at (ti ri : nat) (i : Issue) : bool :=
  match i with
  | SpanAnomaly t r _ _ _ _ => bool_decide (t = ti ∧ r = ri)
  | _ => false
  end.

(** [list(root.iter(tbl))] of a document. *)
Definition tables_of (path : Docx) : list Element :=
  El.iter (read_docx_xml path) (W "tbl").

(** Every [gridSpan] value of a table row of the document is an integer
    literal: [_row_cell_widths] raises on no row. *)
Definition spans_parse (path : Docx) : Prop :=
  ∀ tbl row, tbl ∈ tables_of path → row ∈ El.findall tbl (W "tr") →
             is_Some (_row_cell_widths row).

(** The span total of every table row of the document has few enough
    digits to be formatted: the row-span check raises on no row when it
    names the total. *)
Definition spans_print (path : Docx) : Prop :=
  ∀ tbl row cells, tbl ∈ tables_of path → row ∈ El.findall tbl (W "tr") →
                   _row_cell_widths row = Some cells →
                   PyStr.str_int_fits (total_span cells) = true.

(** How often [fid] occurs among the references. *)
Definition occurrences (fid : string) (refs : list string) : nat :=
  length (filter (λ r, r = fid) refs).

(** How many tables share the grid of [tbl]. *)
Definition same_grid_count (tables : list Element) (tbl : Element) : nat :=
  length (filter (λ t, _table_grid t = _table_grid tbl) tables).

(** ** Trimming as the design document understands it *)



(** ** The classification rule as the design document states it *)

(** [s] starts with [p]. *)
Definition begins_with (p s : string) : Prop := ∃ rest, s = p +:+ rest.


(** ** Auxiliary notions for the proofs *)

(** The counts an insertion-ordered dict holds under key [fid]. *)
Definition stored (fid : string) (counts : list (string * nat)) : list nat :=
  omap (λ kv, if decide (kv.1 = fid) then Some kv.2 else None) counts.

(** The list an absent or present count is stored as. *)
Definition count_list (n : nat) : list nat := if decide (n = 0) then [] else [n].

(** The positions, counted from [i], of the tables with grouping key
    [key]. *)
Fixpoint indices_from (i : nat) (key : string) (tables : list Element) : list nat :=
  match tables with
  | [] => []
  | tbl :: rest =>
      (if decide (grid_key tbl = key) then [i] else [])
      ++ indices_from (S i) key rest
  end.

(** [grid_groups[key]], or the empty list when the key is absent. *)
Fixpoint members (key : string) (groups : list (string * list nat)) : list nat :=
  match groups with
  | [] => []
  | (k, l) :: rest => if decide (k = key) then l else members key rest
  end.

(** A reader for the text [repr] writes, used to show that the grouping
    key [str(tuple(grid))] determines the grid. *)

Module Unrepr.

Definition unhex (h : ascii) : option N :=
  if PyStr.between 48 57 h then Some (PyStr.code h - 48)%N
  else if PyStr.between 97 102 h then Some (PyStr.code h - 87)%N
  else None.

Definition unescape (e : ascii) : ascii :=
  if Ascii.eqb e "t" then "009"%char
  else if Ascii.eqb e "n" then "010"%char
  else if Ascii.eqb e "r" then "013"%char
  else e.

(** Reads escaped text up to the closing [quote]; returns the text and
    what follows the quote. *)
Fixpoint body (quote : ascii) (s : string) : option (string * string) :=
  match s with
  | EmptyString => None
  | String c s1 =>
      if Ascii.eqb c quote then Some (EmptyString, s1)
      else if Ascii.eqb c "\" then
        match s1 with
        | String e s2 =>
            if Ascii.eqb e "x" then
              match s2 with
              | String h1 (String h2 s4) =>
                  hi ← unhex h1;
                  lo ← unhex h2;
                  r ← body quote s4;
                  Some (String (ascii_of_N (16 * hi + lo)) r.1, r.2)
              | _ => None
              end
            else
              r ← body quote s2;
              Some (String (unescape e) r.1, r.2)
        | EmptyString => None
        end
      else
        r ← body quote s1;
        Some (String c r.1, r.2)
  end.

Definition literal (s : string) : option (string * string) :=
  match s with
  | String q s' =>
      if (Ascii.eqb q "'" || Ascii.eqb q PyStr.dquote)%bool then body q s' else None
  | EmptyString => None
  end.

End Unrepr.

(** The text of a non-empty tuple after its opening parenthesis, when
    it has at least two items. *)
Definition tuple_items (l : list string) : string :=
  PyStr.join ", " (PyStr.repr <$> l) +:+ ")".

(** ** Example documents *)

Module Fixture.

Definition el (t : string) (cs : list Element) : Element :=
  Elem (W t) [] None cs.
Definition attr_el (t k v : string) : Element :=
  Elem (W t) [(W k, v)] None [].
Definition para (s : string) : Element :=
  el "p" [el "r" [Elem (W "t") [] (Some s) []]].
Definition tc (s : string) : Element := el "tc" [para s].
Definition tc_span (n s : string) : Element :=
  el "tc" [el "tcPr" [attr_el "gridSpan" "val" n]; para s].
Definition tr (cells : list Element) : Element := el "tr" cells.
Definition tbl (grid : list string) (rows : list Element) : Element :=
  el "tbl" (el "tblGrid" (attr_el "gridCol" "w" <$> grid) :: rows).
Definition fnref (id : string) : Element :=
  el "p" [el "r" [attr_el "footnoteReference" "id" id]].
Definition docx (content : list Element) : Docx :=
  {| document := el "document" [el "body" content]; footnotes := None |}.

End Fixture.

Definition one_paragraph (s : string) : Docx := Fixture.docx [Fixture.para s].

Definition three_refs : Docx :=
  Fixture.docx [Fixture.fnref "3"; Fixture.para "text"; Fixture.fnref "3";
                Fixture.fnref "4"].

(** One table of two grid columns: two rows that fill the grid and one
    that does not. *)
Definition span_table : Element :=
  Fixture.tbl ["100"; "200"]
    [Fixture.tr [Fixture.tc "A"; Fixture.tc "B"];
     Fixture.tr [Fixture.tc_span "2" "D"];
     Fixture.tr [Fixture.tc "B"]].

Definition span_doc : Docx := Fixture.docx [span_table].

(** Two tables with the same first row and different grids. *)
Definition module_table (w : string) : Element :=
  Fixture.tbl [w] [Fixture.tr [Fixture.tc "Module"]].

Definition two_same_labels : Docx :=
  Fixture.docx [module_table "100"; module_table "200"].

Definition other_label : Docx :=
  Fixture.docx [Fixture.tbl ["100"] [Fixture.tr [Fixture.tc "Stage"]]].

(** A template table of three rows and an output table with the same
    label that has two, the second with fewer cells. *)
Definition three_rows : Element :=
  Fixture.tbl ["100"; "200"]
    [Fixture.tr [Fixture.tc_span "2" "Module"];
     Fixture.tr [Fixture.tc "x"; Fixture.tc "y"];
     Fixture.tr [Fixture.tc "z"; Fixture.tc "w"]].

Definition two_rows : Element :=
  Fixture.tbl ["100"; "200"]
    [Fixture.tr [Fixture.tc_span "2" "Module"];
     Fixture.tr [Fixture.tc_span "2" "x"]].

Definition one_row : Element :=
  Fixture.tbl ["100"; "200"] [Fixture.tr [Fixture.tc_span "2" "Module"]].

(** A document with a resolved-looking field and two tables of distinct
    labels. *)
Definition distinct_labels : Docx :=
  Fixture.docx [Fixture.para "Report for {name}"; module_table "100";
                Fixture.tbl ["100"; "200"]
                  [Fixture.tr [Fixture.tc "Stage"; Fixture.tc "Credits"]]].

(** Three tables with one grid and two with another. *)
Definition grid_table (grid : list string) (label : string) : Element :=
  Fixture.tbl grid [Fixture.tr ((λ _, Fixture.tc label) <$> grid)].

Definition three_and_two : Docx :=
  Fixture.docx [grid_table ["100"; "200"] "A"; grid_table ["50"] "B";
                grid_table ["100"; "200"] "C"; grid_table ["50"] "D";
                grid_table ["100"; "200"] "E"].

(** A family of three tables whose second member has one row more than
    the reference and fewer cells in its first row, and one whose second
    member has the same number of rows. *)
Definition ragged_family : Docx :=
  Fixture.docx
    [Fixture.tbl ["100"; "200"] [Fixture.tr [Fixture.tc "A"; Fixture.tc "B"]];
     Fixture.tbl ["100"; "200"]
       [Fixture.tr [Fixture.tc_span "2" "C"]; Fixture.tr [Fixture.tc "D"; Fixture.tc "E"]];
     Fixture.tbl ["100"; "200"] [Fixture.tr [Fixture.tc "F"; Fixture.tc "G"]]].

Definition level_family : Docx :=
  Fixture.docx
    [Fixture.tbl ["100"; "200"] [Fixture.tr [Fixture.tc "A"; Fixture.tc "B"]];
     Fixture.tbl ["100"; "200"] [Fixture.tr [Fixture.tc_span "2" "C"]];
     Fixture.tbl ["100"; "200"] [Fixture.tr [Fixture.tc "F"; Fixture.tc "G"]]].

(** ** Vocabulary for the further properties *)

Definition is_undefined (i : Issue) : bool :=
  match i with FootnoteUndef _ => true | _ => false end.

Definition is_undefined_of (fid : string) (i : Issue) : bool :=
  match i with FootnoteUndef f => bool_decide (f = fid) | _ => false end.

(** The identifiers [fn_defs] holds when the footnotes part is read. *)
Definition footnote_defs (fn_xml : Element) : list (option string) :=
  (λ f, El.get f (W "id")) <$> El.findall fn_xml (W "footnote").

(** The table-level issues of the per-table diff for template table [ti]. *)
Definition table_level_at (ti : nat) (i : Issue) : bool :=
  match i with
  | GridMismatch t _ _ _ | TblWMismatch t _ _ _ => bool_decide (t = ti)
  | _ => false
  end.

(** The per-cell issues of the per-table diff at cell [ci] of row [ri]. *)
Definition diff_at_cell (ti ri ci : nat) (i : Issue) : bool :=
  match i with
  | CellWidth t r c _ _ _ _ | GridSpan t r c _ _ =>
      bool_decide (t = ti ∧ r = ri ∧ c = ci)
  | _ => false
  end.

(** The position of a check in the order [cmd_compare] runs them. *)
Definition check_rank (c : Check) : nat :=
  match c with
  | CommandCheck => 2
  | FootnoteCheck => 3
  | TableDiff => 4
  | LoopExpansion => 5
  | RowSpan => 6
  end.

(** [needle] occurs in [s] as a substring. *)
Definition occurs_in (needle s : string) : Prop :=
  ∃ pre post, s = pre +:+ needle +:+ post.

(** A table whose only row has a cell with a span that is no integer. *)
Definition bad_span_doc : Docx :=
  Fixture.docx [Fixture.tbl ["100"] [Fixture.tr [Fixture.tc_span "two" "A"]]].

(** References 1, 2, 2 and 5 in the body, definitions 1 and 2. *)
Definition dangling_doc : Docx :=
  {| document :=
       Fixture.el "document"
         [Fixture.el "body" [Fixture.fnref "1"; Fixture.fnref "2"; Fixture.fnref "2";
                             Fixture.fnref "5"]];
     footnotes :=
       Some (Fixture.el "footnotes"
               [Fixture.attr_el "footnote" "id" "1"; Fixture.attr_el "footnote" "id" "2"]) |}.

(** A template table whose label looks like a loop header, and an output
    table with the same label and another grid. *)
Definition loop_header_table (w : string) : Element :=
  Fixture.tbl [w] [Fixture.tr [Fixture.tc "{FOR m IN modules}"]].

(** A table of one row whose cells carry a width and a span. *)
Definition width_cell (w ty span text : string) : Element :=
  Fixture.el "tc"
    [Fixture.el "tcPr"
       [Elem (W "tcW") [(W "w", w); (W "type", ty)] None [];
        Fixture.attr_el "gridSpan" "val" span];
     Fixture.para text].

Definition width_table (grid : list string) (cells : list Element) : Element :=
  Elem (W "tbl") [] None
    [Fixture.el "tblPr" [Elem (W "tblW") [(W "w", "5000"); (W "type", "pct")] None []];
     Fixture.el "tblGrid" (Fixture.attr_el "gridCol" "w" <$> grid);
     Fixture.tr cells].

(** The issues of [l] follow the order in which the checks run. *)
Definition in_check_order (l : list Issue) : Prop :=
  ∀ i j a b, i ≤ j → l !! i = Some a → l !! j = Some b →
             check_rank (check_of a) ≤ check_rank (check_of b).

(** Two one-row tables with the label [Module] whose second cells differ
    in width and in span. *)
Definition cells_template : Element :=
  width_table ["100"; "200"]
    [width_cell "100" "dxa" "1" "Module"; width_cell "200" "dxa" "1" "Code"].

Definition cells_output : Element :=
  width_table ["100"; "200"]
    [width_cell "100" "dxa" "1" "Module"; width_cell "250" "dxa" "2" "Code"].

(** ** The loops command *)

Record Loop := {
  l_var : string;
  l_iter : string;
  l_para : nat;
  l_fields : list string }.

Definition add_field (raw : string) (lp : Loop) : Loop :=
  {| l_var := l_var lp; l_iter := l_iter lp; l_para := l_para lp;
     l_fields := l_fields lp ++ [raw] |}.

Definition new_loop (c : Command) : Loop :=
  let parts := PyStr.split (c_raw c) in
  {| l_var := default "?" (parts !! 1);
     l_iter := default "?" (parts !! 3);
     l_para := c_para c;
     l_fields := [] |}.

(** One command of the loop of [cmd_loops].  The entries of [stack] are
    the loop records themselves in the script, shared with [loops]; here
    they are their positions in [loops], the innermost open loop first. *)
Definition loops_step (st : list Loop * list nat) (c : Command)
  : list Loop * list nat :=
  let '(loops, stack) := st in
  match c_type c with
  | FOR => (loops ++ [new_loop c], length loops :: stack)
  | END_FOR => (loops, tail stack)
  | field =>
      match stack with
      | top :: _ => (alter (add_field (c_raw c)) top loops, stack)
      | [] => (loops, stack)
      end
  | _ => (loops, stack)
  end.

Definition loops_of (cmds : list Command) : list Loop :=
  (foldl loops_step ([], []) cmds).1.

(** The loops [cmd_loops] prints, each with its fields. *)
Definition cmd_loops (path : Docx) : list Loop :=
  loops_of (find_commands path).

(** ** The tables, table and paras commands *)

(** [l[idx]] for a Python [int]; [None] is [IndexError]. *)
Definition py_index {A : Type} (l : list A) (idx : Z) : option A :=
  let i := if (idx <? 0)%Z then (idx + Z.of_nat (length l))%Z else idx in
  if (i <? 0)%Z then None else l !! Z.to_nat i.

(** [l[start:stop]] for Python [int]s. *)
Definition py_clamp (n i : Z) : Z :=
  if (i <? 0)%Z then Z.max (i + n) 0 else Z.min i n.

Definition py_slice {A : Type} (l : list A) (start stop : Z) : list A :=
  let n := Z.of_nat (length l) in
  let s := py_clamp n start in
  let e := py_clamp n stop in
  take (Z.to_nat (e - s)) (drop (Z.to_nat s) l).

Record TableInfo := {
  t_i : nat;
  t_rows : nat;
  t_cols : nat;
  t_header : list string }.

(** The text [list_tables] and [get_table] build for a cell: for every
    paragraph below the cell and every run below that paragraph, the text
    of the first [w:t] child of the run when it is not empty. *)
Definition cell_runs_text (cell : Element) : string :=
  PyStr.strip
    (PyStr.join EmptyString
       (El.iter cell (W "p") ≫= λ p, omap run_text (El.iter p (W "r")))).

Definition list_tables (path : Docx) : list TableInfo :=
  imap (λ i tbl,
          let rows := El.findall tbl (W "tr") in
          match rows with
          | [] => {| t_i := i; t_rows := length rows; t_cols := 0; t_header := [] |}
          | row0 :: _ =>
              let cells := El.findall row0 (W "tc") in
              {| t_i := i; t_rows := length rows; t_cols := length cells;
                 t_header := cell_runs_text <$> cells |}
          end)
       (tables_of path).

(** [None] is [IndexError], raised by the function's own test or by the
    list lookup. *)
Definition get_table (path : Docx) (idx : Z) : option (list (list string)) :=
  let tbls := tables_of path in
  if (Z.of_nat (length tbls) <=? idx)%Z then None
  else
    tbl ← py_index tbls idx;
    Some ((λ row, cell_runs_text <$> El.findall row (W "tc"))
          <$> El.findall tbl (W "tr")).

(** What [cmd_tables] prints after the dimensions of a table. *)
Definition header_summary (header : list string) : string :=
  let h := PyStr.join " | " (take 4 header) in
  let h := if 4 <? length header then h +:+ " | ..." else h in
  if 78 <? String.length h then PyStr.slice_to 75 h +:+ "..." else h.

Definition cmd_tables (path : Docx) : list (nat * nat * nat * string) :=
  (λ t, (t_i t, t_rows t, t_cols t, header_summary (t_header t)))
  <$> list_tables path.

(** What [cmd_table] prints: the dimensions of its first line, and for
    every row the text after the row number. *)
Record TableView := {
  tv_rows : nat;
  tv_cols : nat;
  tv_lines : list string }.

Definition row_line (row : list string) : string :=
  let cells :=
    PyStr.join " | " ((λ c, if decide (c = EmptyString) then "(empty)" else c) <$> row) in
  let suffix := if 120 <? String.length cells then "..." else EmptyString in
  PyStr.slice_to 120 cells +:+ suffix.

Definition cmd_table (path : Docx) (idx : Z) : option TableView :=
  content ← get_table path idx;
  table_info ← py_index (list_tables path) idx;
  Some {| tv_rows := t_rows table_info; tv_cols := t_cols table_info;
          tv_lines := row_line <$> content |}.

(** A line of [cmd_paras]: location, number, style and excerpt. *)
Record ParaLine := {
  pl_tbl : bool;
  pl_i : nat;
  pl_sty : string;
  pl_txt : string }.

Definition para_line (p : Para) : ParaLine :=
  {| pl_tbl := p_tbl p;
     pl_i := p_i p;
     pl_sty := match p_style p with
               | Some (String c s) => " [" +:+ String c s +:+ "]"
               | _ => EmptyString
               end;
     pl_txt := PyStr.slice_to 100 (p_text p)
               +:+ (if 100 <? String.length (p_text p) then "..." else EmptyString) |}.

(** [end or start + 30] *)
Definition end_or (end_ : option Z) (start : Z) : Z :=
  match end_ with
  | Some e => if decide (e = 0%Z) then (start + 30)%Z else e
  | None => (start + 30)%Z
  end.

Definition cmd_paras (path : Docx) (start : Z) (end_ : option Z) : list ParaLine :=
  let paras := extract_paras path in
  let stop := Z.min (end_or end_ start) (Z.of_nat (length paras)) in
  para_line <$> py_slice paras start stop.

(** ** The splits command *)

Definition is_split (p : Para) : bool :=
  bool_decide (1 < length (p_runs p))
  && PyStr.contains "{" (p_text p)
  && existsb (λ r, PyStr.contains "{" r && negb (PyStr.contains "}" r)) (p_runs p).

Definition cmd_splits (path : Docx) : list Para :=
  filter (λ p, is_split p = true) (extract_paras path).

(** * The tagging script: cells and rows *)

Definition XML_SPACE : string := "{http://www.w3.org/XML/1998/namespace}space".

Definition wtag (local : string) : string := W local.

Definition get_tables (body : Element) : list Element := El.iter body (wtag "tbl").
Definition get_rows (tbl : Element) : list Element := El.findall tbl (W "tr").
Definition get_cells (row : Element) : list Element := El.findall row (W "tc").

(** [t.text] when it is neither [None] nor empty. *)
Definition truthy_text (t : Element) : option string :=
  match text t with
  | Some (String c s) => Some (String c s)
  | _ => None
  end.

Definition get_cell_text (cell : Element) : string :=
  PyStr.join EmptyString (omap truthy_text (El.iter cell (wtag "t"))).

Definition get_para_text (para : Element) : string :=
  PyStr.join EmptyString (omap truthy_text (El.iter para (wtag "t"))).

(** [e.set(k, v)]: the value of an attribute the element has is replaced
    in place, a new attribute comes last. *)
Fixpoint attrib_set (k v : string) (l : list (string * string))
  : list (string * string) :=
  match l with
  | [] => [(k, v)]
  | (k', v') :: l' =>
      if decide (k' = k) then (k, v) :: l' else (k', v') :: attrib_set k v l'
  end.

Definition with_children (e : Element) (cs : list Element) : Element :=
  Elem (tag e) (attrib e) (text e) cs.

(** [f] on the first child with tag [t], the other children as they are. *)
Fixpoint map_first (t : string) (f : Element → Element) (l : list Element)
  : list Element :=
  match l with
  | [] => []
  | e :: l' => if decide (tag e = t) then f e :: l' else e :: map_first t f l'
  end.

(** [f] on the first child with tag [t], the later children with tag [t]
    removed. *)
Fixpoint keep_first (t : string) (f : Element → Element) (l : list Element)
  : list Element :=
  match l with
  | [] => []
  | e :: l' =>
      if decide (tag e = t) then f e :: filter (λ c, tag c ≠ t) l'
      else e :: keep_first t f l'
  end.

(** [t_el.set(xml:space, "preserve"); t_el.text = new_text] *)
Definition set_t (new_text : string) (t_el : Element) : Element :=
  Elem (tag t_el) (attrib_set XML_SPACE "preserve" (attrib t_el))
       (Some new_text) (children t_el).

(** [etree.SubElement(run, wtag("t"))] with the attribute and the text. *)
Definition new_t (new_text : string) : Element :=
  Elem (wtag "t") [(XML_SPACE, "preserve")] (Some new_text) [].

(** The branch of [set_cell_text] for a first run that exists. *)
Definition set_run_text (new_text : string) (first_run : Element) : Element :=
  match El.find first_run (W "t") with
  | None => with_children first_run (children first_run ++ [new_t new_text])
  | Some _ =>
      with_children first_run (map_first (W "t") (set_t new_text) (children first_run))
  end.

Definition set_para_text (new_text : string) (first_para : Element) : Element :=
  match El.findall first_para (W "r") with
  | [] =>
      let rpr_source :=
        match El.find first_para (W "pPr") with
        | Some ppr => El.find ppr (W "rPr")
        | None => None
        end in
      let run :=
        Elem (wtag "r") [] None (option_list rpr_source ++ [new_t new_text]) in
      with_children first_para (children first_para ++ [run])
  | _ :: _ =>
      with_children first_para
        (keep_first (W "r") (set_run_text new_text) (children first_para))
  end.

(** The cell after [set_cell_text(cell, new_text)]. *)
Definition set_cell_text (cell : Element) (new_text : string) : Element :=
  match El.findall cell (W "p") with
  | [] => cell
  | _ :: _ =>
      with_children cell
        (keep_first (W "p") (set_para_text new_text) (children cell))
  end.

(** The cell after [set_cell_text_if_empty], and what it logs. *)
Definition set_cell_text_if_empty (cell : Element) (new_text label : string)
  : Element * list string :=
  let current := PyStr.strip (get_cell_text cell) in
  if (negb (String.eqb current EmptyString) && PyStr.contains "{" current)%bool
  then (cell, [])
  else (set_cell_text cell new_text,
        [if PyStr.contains "{" new_text
         then label +:+ ": set to {" +:+ PyStr.strip_chars "{}" new_text +:+ "}"
         else label +:+ ": set text"]).

(** [f i] on the [i]-th child with tag [w:tc], counted from [i]. *)
Fixpoint map_cells (i : nat) (f : nat → Element → Element) (l : list Element)
  : list Element :=
  match l with
  | [] => []
  | e :: l' =>
      if decide (tag e = W "tc") then f i e :: map_cells (S i) f l'
      else e :: map_cells i f l'
  end.

(** The row [clone_row_as_command] returns; the copy is the value. *)
Definition clone_row_as_command (row : Element) (command_text : string) : Element :=
  with_children row
    (map_cells 0
       (λ i cell, match i with
                  | 0 => set_cell_text cell command_text
                  | S _ => set_cell_text cell EmptyString
                  end)
       (children row)).

(** [make_paragraph(text, copy_rpr_from)] *)
Definition make_paragraph (new_text : string) (copy_rpr_from : option Element)
  : Element :=
  let rpr :=
    match copy_rpr_from with
    | Some ref => head (El.findall_deep ref (W "rPr"))
    | None => None
    end in
  Elem (wtag "p") [] None
    [Elem (wtag "r") [] None (option_list rpr ++ [new_t new_text])].

(** ** The tagging script: split runs *)

(** [t.text if t is not None else ""] for [t = r.find("w:t")]; the inner
    [None] is Python's [None], the text of a [w:t] without text. *)
Definition run_txt (r : Element) : option string :=
  match El.find r (W "t") with
  | Some t => text t
  | None => Some EmptyString
  end.

(** The loop over the runs in the last check of [main]: whether a run
    with an opening and no closing brace is met.  [None] is the TypeError
    of [in] on a text that is [None]. *)
Fixpoint any_split (runs : list Element) : option bool :=
  match runs with
  | [] => Some false
  | r :: rest =>
      match run_txt r with
      | None => None
      | Some txt =>
          if (PyStr.contains "{" txt && negb (PyStr.contains "}" txt))%bool
          then Some true
          else any_split rest
      end
  end.

Definition para_remaining (para : Element) : option bool :=
  let runs := El.findall para (W "r") in
  if length runs <? 2 then Some false
  else if negb (PyStr.contains "{" (get_para_text para)) then Some false
  else any_split runs.

(** [remaining_splits] at the end of [main]. *)
Definition remaining_splits (body : Element) : option nat :=
  flags ← mapM para_remaining (El.iter body (wtag "p"));
  Some (length (filter (λ b, b = true) flags)).

(** A run is split when its text has an opening and no closing brace. *)
Definition split_text (txt : string) : Prop :=
  occurs_in "{" txt ∧ ¬ occurs_in "}" txt.

(** A body with one paragraph of two runs: a text element without text,
    then a field. *)
Definition blank_then_field : Element :=
  Fixture.el "body"
    [Fixture.el "p"
       [Fixture.el "r" [Elem (W "t") [] None []];
        Fixture.el "r" [Elem (W "t") [] (Some "{title}") []]]].

(** [text.strip() if text else ""] and [(text or "").strip()] *)
Definition strip_or_empty (txt : option string) : string :=
  match txt with
  | Some s => PyStr.strip s
  | None => EmptyString
  end.

(** [f] on the [k]-th child with tag [w:r]. *)
Fixpoint alter_run (k : nat) (f : Element → Element) (l : list Element)
  : list Element :=
  match l with
  | [] => []
  | e :: l' =>
      if decide (tag e = W "r")
      then match k with
           | 0 => f e :: l'
           | S k' => e :: alter_run k' f l'
           end
      else e :: alter_run k f l'
  end.

(** [para.remove(run)] for the [k]-th child with tag [w:r]. *)
Fixpoint delete_run (k : nat) (l : list Element) : list Element :=
  match l with
  | [] => []
  | e :: l' =>
      if decide (tag e = W "r")
      then match k with
           | 0 => l'
           | S k' => e :: delete_run k' l'
           end
      else e :: delete_run k l'
  end.

(** The text of the first [w:t] of a run set to [merged], when the run
    has one. *)
Definition set_first_t (merged : string) (r : Element) : Element :=
  with_children r (map_first (W "t") (set_t merged) (children r)).

(** The [while] loop of [merge_split_runs] on the children of one
    paragraph; [run_texts] is read off the children at every turn, as
    the script rebuilds it after each change.  [None] when [fuel] turns
    do not end the loop. *)
Fixpoint merge_loop (fuel : nat) (cs : list Element) (i count : nat)
  : option (list Element * nat) :=
  match fuel with
  | 0 => None
  | S fuel' =>
      let run_texts := El.select (W "r") cs in
      match run_texts !! i with
      | None => Some (cs, count)
      | Some r =>
          let txt := strip_or_empty (run_txt r) in
          match run_texts !! (i + 1), run_texts !! (i + 2) with
          | Some r1, Some r2 =>
              let mid_text := strip_or_empty (run_txt r1) in
              let end_text := strip_or_empty (run_txt r2) in
              if decide (txt = "{" ∧ end_text = "}" ∧ mid_text ≠ EmptyString
                         ∧ PyStr.contains " " mid_text = false)
              then
                let merged := "{" +:+ mid_text +:+ "}" in
                merge_loop fuel'
                  (delete_run (i + 1)
                     (delete_run (i + 2) (alter_run i (set_first_t merged) cs)))
                  i (S count)
              else merge_loop fuel' cs (S i) count
          | _, _ => merge_loop fuel' cs (S i) count
          end
      end
  end.

(** The body of the loop of [merge_split_runs] for one paragraph: the
    paragraph after it and the number of merges. *)
Definition merge_para (para : Element) : option (Element * nat) :=
  let runs := El.findall para (W "r") in
  if length runs <? 2 then Some (para, 0)
  else
    match merge_loop (2 * length runs + 1) (children para) 0 0 with
    | Some (cs, n) => Some (with_children para cs, n)
    | None => None
    end.

(** A text of [n] digits 9. *)
Fixpoint nines (n : nat) : string :=
  match n with
  | 0 => EmptyString
  | S n' => String "9" (nines n')
  end.

(** A table of one grid column whose only row has two cells, each with a
    span of 4300 digits: both spans are read, their sum has 4301 digits. *)
Definition long_total_doc : Docx :=
  Fixture.docx
    [Fixture.tbl ["100"]
       [Fixture.tr [Fixture.tc_span (nines 4300) "A";
                    Fixture.tc_span (nines 4300) "B"]]].

(** * Properties *)

(** ** The string operations on examples *)

Example strip_ex : PyStr.strip "  END-FOR x " = "END-FOR x".
Proof. reflexivity. Qed.

Example repr_ex :
  PyStr.str_tuple ["100"; "a\b"] = "('100', 'a\\b')"
  ∧ PyStr.str_tuple ["?"] = "('?',)"
  ∧ PyStr.repr "it's" = String PyStr.dquote ("it's" +:+ String PyStr.dquote EmptyString).
Proof. repeat split; reflexivity. Qed.

Example int_ex :
  PyStr.int " 1_2 " = Some 12%Z ∧ PyStr.int "-3" = Some (-3)%Z
  ∧ PyStr.int "2x" = None ∧ PyStr.int EmptyString = None ∧ PyStr.int "_1" = None.
Proof. repeat split; reflexivity. Qed.

Example finditer_ex :
  finditer "a {x} {} { y }{{z} {w" = ["x"; " y "; "{z"].
Proof. reflexivity. Qed.

(** ** Strings *)

Lemma append_String (a : ascii) (s t : string) :
  String a s +:+ t = String a (s +:+ t).
Proof. reflexivity. Qed.

Lemma append_Empty (t : string) : EmptyString +:+ t = t.
Proof. reflexivity. Qed.

Lemma startswith_spec (s p : string) :
  PyStr.startswith s p = true ↔ ∃ rest, s = p +:+ rest.
Proof.
  unfold PyStr.startswith. revert s.
  induction p as [|a p IH]; intros s; simpl.
  - destruct s; split; eauto.
  - destruct s as [|b s]; simpl.
    + split; [done | intros [rest Hrest]; done].
    + destruct (ascii_dec a b) as [->|Hab].
      * rewrite IH. split; intros [rest Hrest]; exists rest;
          rewrite append_String in *; congruence.
      * split; [done | intros [rest Hrest]; rewrite append_String in *; congruence].
Qed.

(** ** Generic facts about the loops *)

Section for_from_facts.
Context {A B : Type} (body : nat → A → option (list B)).
Context (P : B → Prop) `{!∀ x, Decision (P x)}.

Lemma for_from_is_Some start l :
  (∀ k x, l !! k = Some x → is_Some (body (start + k) x)) →
  is_Some (for_from body start l).
Proof.
  revert start. induction l as [|x l IH]; intros start Hall; simpl; [eauto|].
  destruct (Hall 0 x eq_refl) as [r Hr].
  rewrite Nat.add_0_r in Hr. rewrite Hr. simpl.
  destruct (IH (S start)) as [rs Hrs].
  { intros k y Hk. replace (S start + k) with (start + S k) by lia.
    by apply Hall. }
  rewrite Hrs. simpl. eauto.
Qed.

Lemma for_from_Some_body start l rs k x :
  for_from body start l = Some rs → l !! k = Some x →
  is_Some (body (start + k) x).
Proof.
  revert start rs k. induction l as [|y l IH]; intros start rs k Hrun Hk; [done|].
  simpl in Hrun.
  destruct (body start y) as [r|] eqn:Hr; simpl in Hrun; [|done].
  destruct (for_from body (S start) l) as [rs'|] eqn:Hrs; simpl in Hrun; [|done].
  destruct k as [|k]; simpl in Hk.
  - injection Hk as ->. rewrite Nat.add_0_r, Hr. eauto.
  - replace (start + S k) with (S start + k) by lia. eauto.
Qed.

(** No iteration emits a [P]-issue: the loop emits none. *)
Lemma for_from_filter_nil start l rs :
  for_from body start l = Some rs →
  (∀ k x r, l !! k = Some x → body (start + k) x = Some r → filter P r = []) →
  filter P rs = [].
Proof.
  revert start rs. induction l as [|y l IH]; intros start rs Hrun Hall.
  - injection Hrun as <-. done.
  - simpl in Hrun.
    destruct (body start y) as [r|] eqn:Hr; simpl in Hrun; [|done].
    destruct (for_from body (S start) l) as [rs'|] eqn:Hrs; simpl in Hrun; [|done].
    injection Hrun as <-. rewrite filter_app.
    rewrite (Hall 0 y r eq_refl); [|by rewrite Nat.add_0_r].
    rewrite (IH (S start) rs' Hrs); [done|].
    intros k x r' Hk Hb. apply (Hall (S k) x r' Hk).
    by replace (start + S k) with (S start + k) by lia.
Qed.

(** Only iteration [k] emits [P]-issues: the loop emits exactly those. *)
Lemma for_from_filter_at start l rs k x :
  for_from body start l = Some rs → l !! k = Some x →
  (∀ j y r, j ≠ k → l !! j = Some y → body (start + j) y = Some r →
            filter P r = []) →
  ∃ r, body (start + k) x = Some r ∧ filter P rs = filter P r.
Proof.
  revert start rs k. induction l as [|y l IH]; intros start rs k Hrun Hk Hall; [done|].
  simpl in Hrun.
  destruct (body start y) as [r|] eqn:Hr; simpl in Hrun; [|done].
  destruct (for_from body (S start) l) as [rs'|] eqn:Hrs; simpl in Hrun; [|done].
  injection Hrun as <-. rewrite filter_app.
  destruct k as [|k]; simpl in Hk.
  - injection Hk as ->. exists r. rewrite Nat.add_0_r. split; [done|].
    rewrite (for_from_filter_nil (S start) l rs' Hrs); [by rewrite app_nil_r|].
    intros j z r' Hj Hb. apply (Hall (S j) z r'); [lia|done|].
    by replace (start + S j) with (S start + j) by lia.
  - destruct (IH (S start) rs' k Hrs Hk) as (rk & Hrk & Heq).
    { intros j z r' Hne Hj Hb. apply (Hall (S j) z r'); [lia|done|].
      by replace (start + S j) with (S start + j) by lia. }
    exists rk. replace (start + S k) with (S start + k) by lia.
    split; [done|]. rewrite <- Heq.
    rewrite (Hall 0 y r); [done|lia|done|by rewrite Nat.add_0_r].
Qed.

End for_from_facts.

Section mapM_facts.
Context {A B : Type} (f : A → option (list B)).
Context (P : B → Prop) `{!∀ x, Decision (P x)}.

Lemma mapM_concat_filter_nil l rss :
  mapM f l = Some rss →
  (∀ x r, x ∈ l → f x = Some r → filter P r = []) →
  filter P (concat rss) = [].
Proof.
  rewrite mapM_Some. induction 1 as [|x r l rss Hx _ IH]; intros Hall; [done|].
  simpl. rewrite filter_app, (Hall x r), IH; [done| |by left|done].
  intros y r' Hy. apply Hall. by right.
Qed.

Lemma mapM_concat_filter_at l rss k x :
  mapM f l = Some rss → l !! k = Some x →
  (∀ j y r, j ≠ k → l !! j = Some y → f y = Some r → filter P r = []) →
  ∃ r, f x = Some r ∧ filter P (concat rss) = filter P r.
Proof.
  rewrite mapM_Some. intros HF. revert k.
  induction HF as [|y r l rss Hy HF IH]; intros k Hk Hall; [done|].
  simpl. rewrite filter_app. destruct k as [|k]; simpl in Hk.
  - injection Hk as ->. exists r. split; [done|].
    rewrite (mapM_concat_filter_nil l rss); [by rewrite app_nil_r|by apply mapM_Some|].
    intros z r' Hz Hf. apply list_elem_of_lookup in Hz as [j Hj].
    by apply (Hall (S j) z r').
  - destruct (IH k Hk) as (rk & Hrk & Heq).
    { intros j z r' Hne Hj Hf. apply (Hall (S j) z r'); [lia|done|done]. }
    exists rk. split; [done|]. rewrite <- Heq.
    by rewrite (Hall 0 y r).
Qed.

End mapM_facts.

Section forall_facts.
Context {A B : Type} (Q : B → Prop).

Lemma for_from_Forall (body : nat → A → option (list B)) start l rs :
  for_from body start l = Some rs →
  (∀ k x r, l !! k = Some x → body (start + k) x = Some r → Forall Q r) →
  Forall Q rs.
Proof.
  revert start rs. induction l as [|y l IH]; intros start rs Hrun Hall.
  - injection Hrun as <-. constructor.
  - simpl in Hrun.
    destruct (body start y) as [r|] eqn:Hr; simpl in Hrun; [|done].
    destruct (for_from body (S start) l) as [rs'|] eqn:Hrs; simpl in Hrun; [|done].
    injection Hrun as <-. apply Forall_app. split.
    + apply (Hall 0 y r eq_refl). by rewrite Nat.add_0_r.
    + apply (IH (S start) rs' Hrs). intros k x r' Hk Hb.
      apply (Hall (S k) x r' Hk).
      by replace (start + S k) with (S start + k) by lia.
Qed.

Lemma mapM_concat_Forall (f : A → option (list B)) l rss :
  mapM f l = Some rss →
  (∀ x r, x ∈ l → f x = Some r → Forall Q r) →
  Forall Q (concat rss).
Proof.
  rewrite mapM_Some. induction 1 as [|x r l rss Hx _ IH]; intros Hall; simpl.
  - constructor.
  - apply Forall_app. split; [apply (Hall x r); [by left|done]|].
    apply IH. intros y r' Hy. apply Hall. by right.
Qed.

Lemma filter_Forall_nil (P : B → Prop) `{!∀ x, Decision (P x)} l :
  Forall Q l → (∀ x, Q x → ¬ P x) → filter P l = [].
Proof.
  intros HQ Hno. induction HQ as [|x l Hx _ IH]; [done|].
  rewrite filter_cons_False; [done|by apply Hno].
Qed.

End forall_facts.

(** ** Command classification *)



Lemma find_commands_elem (path : Docx) (c : Command) :
  c ∈ find_commands path ↔
  ∃ p g, p ∈ extract_paras path ∧ g ∈ finditer (p_text p)
         ∧ c = {| c_para := p_i p; c_tbl := p_tbl p;
                  c_raw := PyStr.strip g; c_type := classify (PyStr.strip g) |}.
Proof.
  unfold find_commands. rewrite list_elem_of_bind. split.
  - intros (p & Hc & Hp). apply list_elem_of_fmap in Hc as (g & -> & Hg).
    by exists p, g.
  - intros (p & g & Hp & Hg & ->). exists p. split; [|done].
    apply list_elem_of_fmap. by exists g.
Qed.

Lemma rstrip_last (s r : string) (c : ascii) :
  PyStr.rstrip s = r +:+ String c EmptyString → PyStr.isspace c = false.
Proof.
  revert r. induction s as [|a s IH]; intros r; cbn [PyStr.rstrip].
  { by destruct r. }
  destruct (PyStr.rstrip s) as [|b r0] eqn:Hs.
  - destruct (PyStr.isspace a) eqn:Ha; [by destruct r|].
    destruct r as [|x r]; [by intros [= <-]|].
    rewrite append_String. intros [= _ H]. by destruct r.
  - destruct r as [|x r]; [done|].
    rewrite append_String. intros [= _ H]. by apply (IH r).
Qed.








Example classification_examples :
  (λ c, (c_raw c, c_type c)) <$>
    find_commands
      (one_paragraph
         "{FOR x IN y}{END-FOR x}{END-IF}{IF cond}{INS x}{field_name}{FORfoo}")
  = [("FOR x IN y", FOR); ("END-FOR x", END_FOR); ("END-IF", END_IF);
     ("IF cond", IF); ("INS x", INS); ("field_name", field); ("FORfoo", field)].
Proof. reflexivity. Qed.

(** ** The report of a run that completes *)

Lemma cmd_compare_Some (tpl out : Docx) (rep : Report) :
  cmd_compare tpl out = Some rep →
  ∃ issues4 per_family issues6,
    for_from (table_issues (tables_of out)) 0 (tables_of tpl) = Some issues4
    ∧ mapM (λ g, family_issues (tables_of out) g.2) (loop_families (tables_of out))
      = Some per_family
    ∧ for_from span_table_issues 0 (tables_of out) = Some issues6
    ∧ r_matched rep
      = length (filter (λ t, table_matched (tables_of out) t = true) (tables_of tpl))
    ∧ r_issues rep
      = command_issues (find_commands out)
        ++ (duplicate_issues (_footnote_refs (read_docx_xml out))
            ++ undefined_issues out (_footnote_refs (read_docx_xml out)))
        ++ issues4 ++ concat per_family ++ issues6.
Proof.
  unfold cmd_compare, tables_of. intros H.
  destruct (for_from (table_issues _) 0 _) as [issues4|]; simpl in H; [|done].
  destruct (mapM (λ g, family_issues _ g.2) _) as [per_family|]; simpl in H; [|done].
  destruct (mapM (family_line _) _) as [families|]; simpl in H; [|done].
  destruct (for_from span_table_issues 0 _) as [issues6|]; simpl in H; [|done].
  injection H as <-. by exists issues4, per_family, issues6.
Qed.

Lemma command_issues_check (cmds : list Command) :
  Forall (λ i, check_of i = CommandCheck) (command_issues cmds).
Proof.
  unfold command_issues. apply Forall_app. split; apply Forall_forall;
    intros i Hi; apply list_elem_of_fmap in Hi as (c & -> & _); done.
Qed.

Lemma duplicate_issues_check (refs : list string) :
  Forall (λ i, check_of i = FootnoteCheck) (duplicate_issues refs).
Proof.
  unfold duplicate_issues. apply Forall_forall. intros i Hi.
  apply list_elem_of_bind in Hi as ([fid n] & Hi & _).
  case_decide; [|by apply elem_of_nil in Hi].
  by apply list_elem_of_singleton in Hi as ->.
Qed.

Lemma undefined_issues_check (out : Docx) (refs : list string) :
  Forall (λ i, check_of i = FootnoteCheck) (undefined_issues out refs).
Proof.
  unfold undefined_issues. destruct (footnotes out); [|constructor].
  apply Forall_forall. intros i Hi. by apply list_elem_of_fmap in Hi as (c & -> & _).
Qed.

Lemma table_issues_check (outs : list Element) (ti : nat) (t : Element) r :
  table_issues outs ti t = Some r →
  Forall (λ i, check_of i = TableDiff ∧ diff_at_table ti i) r.
Proof.
  unfold table_issues. intros H.
  destruct (skip_label _); [injection H as <-; constructor|].
  destruct (_find_table_in_output _ _ _) as [oi|]; [|injection H as <-; constructor].
  destruct (outs !! oi) as [out_tbl|]; simpl in H; [|done].
  destruct (for_from _ _ _) as [rs|] eqn:Hrs; simpl in H; [|done].
  injection H as <-. rewrite !Forall_app. split_and!.
  - case_decide; repeat constructor. by apply bool_decide_pack.
  - case_decide; repeat constructor. by apply bool_decide_pack.
  - eapply for_from_Forall; [exact Hrs|]. intros k [trow orow] r _ Hr.
    unfold row_issues in Hr. simpl in Hr.
    destruct (_row_cell_widths trow) as [tcw|]; simpl in Hr; [|done].
    destruct (_row_cell_widths orow) as [ocw|]; simpl in Hr; [|done].
    injection Hr as <-. case_decide.
    + repeat constructor. by apply bool_decide_pack.
    + apply Forall_forall. intros i Hi.
      apply list_elem_of_In, in_concat in Hi as (l & Hl & Hi).
      apply list_elem_of_In, list_elem_of_lookup in Hl as [ci Hl].
      rewrite list_lookup_imap in Hl.
      destruct (zip tcw ocw !! ci) as [[tw ow]|]; simpl in Hl; [|done].
      injection Hl as <-. unfold cell_issues in Hi. simpl in Hi.
      apply in_app_or in Hi as [Hi|Hi]; case_decide; simpl in Hi;
        try done; destruct Hi as [<-|[]]; split; try done;
        by apply bool_decide_pack.
Qed.

Lemma for_row_issues_check idx ref_idx ri rows r :
  for_row_issues idx ref_idx ri rows = Some r →
  Forall (λ i, check_of i = LoopExpansion ∧ for_cell_count_at idx ri i) r.
Proof.
  unfold for_row_issues. intros H.
  destruct (_row_cell_widths rows.1) as [rcw|]; simpl in H; [|done].
  destruct (_row_cell_widths rows.2) as [ccw|]; simpl in H; [|done].
  injection H as <-. case_decide; repeat constructor.
  by apply bool_decide_pack.
Qed.

Lemma member_issues_check outs ref_idx ref_rows idx r :
  member_issues outs ref_idx ref_rows idx = Some r →
  Forall (λ i, check_of i = LoopExpansion ∧ for_cell_count_in idx i) r.
Proof.
  unfold member_issues. intros H.
  destruct (outs !! idx) as [tbl|]; simpl in H; [|done].
  case_decide; [injection H as <-; constructor|].
  eapply for_from_Forall; [exact H|]. intros k x r' _ Hr.
  eapply Forall_impl; [by eapply for_row_issues_check|].
  intros [] [? ?]; try done. simpl in *. split; [done|].
  apply bool_decide_pack. by case_bool_decide as Hb; [destruct Hb|].
Qed.

Lemma family_issues_check outs indices r :
  family_issues outs indices = Some r →
  Forall (λ i, check_of i = LoopExpansion) r.
Proof.
  unfold family_issues. intros H.
  destruct (mapM _ indices) as [grids|]; simpl in H; [|done].
  destruct (head grids) as [first_grid|]; simpl in H; [|done].
  destruct (head indices) as [ref_idx|]; simpl in H; [|done].
  destruct (outs !! ref_idx) as [ref_tbl|]; simpl in H; [|done].
  destruct (mapM _ (tail indices)) as [ms|] eqn:Hms; simpl in H; [|done].
  injection H as <-. apply Forall_app. split.
  - apply Forall_forall. intros i Hi.
    apply list_elem_of_bind in Hi as (m & Hi & _).
    unfold grid_differs in Hi. case_decide; [|by apply elem_of_nil in Hi].
    by apply list_elem_of_singleton in Hi as ->.
  - eapply mapM_concat_Forall; [exact Hms|]. intros idx r _ Hr.
    eapply Forall_impl; [by eapply member_issues_check|]. by intros ? [? _].
Qed.

Lemma span_row_issues_check i grid_cols ri row r :
  span_row_issues i grid_cols ri row = Some r →
  Forall (λ x, check_of x = RowSpan ∧ span_anomaly_at i ri x) r.
Proof.
  unfold span_row_issues. intros H.
  destruct (_row_cell_widths row) as [cells|]; simpl in H; [|done].
  case_decide; [|injection H as <-; constructor].
  destruct (PyStr.str_int_fits (total_span cells)); [|done].
  injection H as <-. repeat constructor. by apply bool_decide_pack.
Qed.

Lemma span_table_issues_check i tbl r :
  span_table_issues i tbl = Some r →
  Forall (λ x, check_of x = RowSpan ∧ span_anomaly_in i x) r.
Proof.
  unfold span_table_issues. intros H.
  case_decide; [injection H as <-; constructor|].
  eapply for_from_Forall; [exact H|]. intros k x r' _ Hr.
  eapply Forall_impl; [by eapply span_row_issues_check|].
  intros [] [? ?]; try done. simpl in *. split; [done|].
  apply bool_decide_pack. by case_bool_decide as Hb; [destruct Hb|].
Qed.

(** The issues of a completed run, check by check. *)
Lemma run_sections (tpl out : Docx) (rep : Report) :
  cmd_compare tpl out = Some rep →
  ∃ issues4 per_family issues6,
    for_from (table_issues (tables_of out)) 0 (tables_of tpl) = Some issues4
    ∧ mapM (λ g, family_issues (tables_of out) g.2) (loop_families (tables_of out))
      = Some per_family
    ∧ for_from span_table_issues 0 (tables_of out) = Some issues6
    ∧ Forall (λ i, check_of i = TableDiff) issues4
    ∧ Forall (λ i, check_of i = LoopExpansion) (concat per_family)
    ∧ Forall (λ i, check_of i = RowSpan) issues6
    ∧ r_issues rep
      = command_issues (find_commands out)
        ++ (duplicate_issues (_footnote_refs (read_docx_xml out))
            ++ undefined_issues out (_footnote_refs (read_docx_xml out)))
        ++ issues4 ++ concat per_family ++ issues6.
Proof.
  intros Hrun.
  destruct (cmd_compare_Some _ _ _ Hrun) as (i4 & pf & i6 & H4 & H5 & H6 & _ & ->).
  exists i4, pf, i6. split_and!; try done.
  - eapply for_from_Forall; [exact H4|]. intros k x r _ Hr.
    eapply Forall_impl; [by eapply table_issues_check|]. by intros ? [? _].
  - eapply mapM_concat_Forall; [exact H5|]. intros g r _ Hr.
    exact (family_issues_check _ _ _ Hr).
  - eapply for_from_Forall; [exact H6|]. intros k x r _ Hr.
    eapply Forall_impl; [by eapply span_table_issues_check|]. by intros ? [? _].
Qed.

Section by_check.
Context (tpl out : Docx) (rep : Report).
Context (Hrun : cmd_compare tpl out = Some rep).
Context (P : Issue → Prop) `{!∀ i, Decision (P i)}.

Local Ltac drop_check HP H :=
  rewrite (filter_Forall_nil _ _ _ H)
    by (let Hp := fresh in intros ? ? Hp; apply HP in Hp; congruence).

Local Ltac by_check HP :=
  destruct (run_sections _ _ _ Hrun)
    as (i4 & pf & i6 & H4 & H5 & H6 & F4 & F5 & F6 & ->);
  rewrite !filter_app;
  try drop_check HP (command_issues_check (find_commands out));
  try drop_check HP (duplicate_issues_check (_footnote_refs (read_docx_xml out)));
  try drop_check HP
    (undefined_issues_check out (_footnote_refs (read_docx_xml out)));
  try drop_check HP F4; try drop_check HP F5; try drop_check HP F6;
  rewrite ?app_nil_r; simpl.

Lemma issues_of_command_check :
  (∀ i, P i → check_of i = CommandCheck) →
  filter P (r_issues rep) = filter P (command_issues (find_commands out)).
Proof. intros HP. by by_check HP. Qed.

Lemma issues_of_footnote_check :
  (∀ i, P i → check_of i = FootnoteCheck) →
  filter P (r_issues rep)
  = filter P (duplicate_issues (_footnote_refs (read_docx_xml out)))
    ++ filter P (undefined_issues out (_footnote_refs (read_docx_xml out))).
Proof. intros HP. by by_check HP. Qed.

Lemma issues_of_table_diff :
  (∀ i, P i → check_of i = TableDiff) →
  ∃ issues4,
    for_from (table_issues (tables_of out)) 0 (tables_of tpl) = Some issues4
    ∧ filter P (r_issues rep) = filter P issues4.
Proof. intros HP. by_check HP. by exists i4. Qed.

Lemma issues_of_loop_expansion :
  (∀ i, P i → check_of i = LoopExpansion) →
  ∃ per_family,
    mapM (λ g, family_issues (tables_of out) g.2) (loop_families (tables_of out))
    = Some per_family
    ∧ filter P (r_issues rep) = filter P (concat per_family).
Proof. intros HP. by_check HP. by exists pf. Qed.

Lemma issues_of_row_span :
  (∀ i, P i → check_of i = RowSpan) →
  ∃ issues6,
    for_from span_table_issues 0 (tables_of out) = Some issues6
    ∧ filter P (r_issues rep) = filter P issues6.
Proof. intros HP. by_check HP. by exists i6. Qed.

End by_check.

(** ** Command resolution *)

Section filter_fmap.
Context {A B : Type} (f : A → B) (P : B → Prop) `{!∀ x, Decision (P x)}.

Lemma filter_fmap_all (l : list A) : (∀ x, P (f x)) → filter P (f <$> l) = f <$> l.
Proof.
  intros HP. induction l as [|x l IH]; [done|].
  rewrite fmap_cons, filter_cons_True by done. by rewrite IH.
Qed.

Lemma filter_fmap_none (l : list A) : (∀ x, ¬ P (f x)) → filter P (f <$> l) = [].
Proof.
  intros HP. induction l as [|x l IH]; [done|].
  by rewrite fmap_cons, filter_cons_False.
Qed.

End filter_fmap.

Lemma residual_of_commands (cmds : list Command) :
  filter is_residual (command_issues cmds)
  = (λ c, Residual (c_raw c)) <$> residual cmds.
Proof.
  unfold command_issues.
  rewrite filter_app, filter_fmap_all, filter_fmap_none
    by (intros ?; simpl; tauto).
  by rewrite app_nil_r.
Qed.

Lemma unresolved_of_commands (cmds : list Command) :
  filter is_unresolved (command_issues cmds)
  = (λ c, Unresolved (c_raw c)) <$> unresolved_fields cmds.
Proof.
  unfold command_issues.
  by rewrite filter_app, filter_fmap_none, filter_fmap_all
    by (intros ?; simpl; tauto).
Qed.

(** C3.  In the report of a run, a residual-control-command issue for a
    text is present exactly when the output has a command of kind FOR,
    END-FOR, IF, END-IF or INS with that text, and an unresolved-field
    issue exactly when it has a field command whose text begins with the
    dollar sign; the issues of either sort are, in order, one per such
    command. *)
Theorem command_resolution (tpl out : Docx) (rep : Report) :
  cmd_compare tpl out = Some rep →
  (∀ raw, Residual raw ∈ r_issues rep ↔
     ∃ c, c ∈ find_commands out ∧ c_raw c = raw
          ∧ c_type c ∈ [FOR; END_FOR; IF; END_IF; INS])
  ∧ (∀ raw, Unresolved raw ∈ r_issues rep ↔
       ∃ c, c ∈ find_commands out ∧ c_raw c = raw
            ∧ c_type c = field ∧ begins_with "$" raw)
  ∧ filter is_residual (r_issues rep)
    = (λ c, Residual (c_raw c)) <$> residual (find_commands out)
  ∧ filter is_unresolved (r_issues rep)
    = (λ c, Unresolved (c_raw c)) <$> unresolved_fields (find_commands out).
Proof.
  intros Hrun.
  assert (filter is_residual (r_issues rep)
          = (λ c, Residual (c_raw c)) <$> residual (find_commands out)) as Hres.
  { rewrite (issues_of_command_check _ _ _ Hrun); [apply residual_of_commands|].
    by intros []. }
  assert (filter is_unresolved (r_issues rep)
          = (λ c, Unresolved (c_raw c)) <$> unresolved_fields (find_commands out))
    as Hunr.
  { rewrite (issues_of_command_check _ _ _ Hrun); [apply unresolved_of_commands|].
    by intros []. }
  split_and!; [| |done..].
  - intros raw.
    transitivity (Residual raw ∈ filter is_residual (r_issues rep)).
    { rewrite list_elem_of_filter. split; [by intros|by intros [_ ?]]. }
    rewrite Hres, list_elem_of_fmap. unfold residual. split.
    + intros (c & Heq & Hc). injection Heq as ->.
      apply list_elem_of_filter in Hc as [Hk Hc].
      by exists c.
    + intros (c & Hc & <- & Hk). exists c. split; [done|].
      by apply list_elem_of_filter.
  - intros raw.
    transitivity (Unresolved raw ∈ filter is_unresolved (r_issues rep)).
    { rewrite list_elem_of_filter. split; [by intros|by intros [_ ?]]. }
    rewrite Hunr, list_elem_of_fmap. unfold unresolved_fields. split.
    + intros (c & Heq & Hc). injection Heq as ->.
      apply list_elem_of_filter in Hc as [[Hk Hs] Hc].
      exists c. split_and!; try done. by apply startswith_spec.
    + intros (c & Hc & <- & Hk & Hs). exists c. split; [done|].
      apply list_elem_of_filter. split; [|done]. split; [done|].
      by apply startswith_spec.
Qed.

Lemma command_resolution_witness :
  ∃ rep,
    cmd_compare (one_paragraph "Code: {$module.code}")
                (one_paragraph "Code: {$module.code}") = Some rep
    ∧ filter is_unresolved (r_issues rep) = [Unresolved "$module.code"]
    ∧ filter is_residual (r_issues rep) = [].
Proof.
  assert (∃ rep, cmd_compare (one_paragraph "Code: {$module.code}")
                   (one_paragraph "Code: {$module.code}") = Some rep) as [rep Hrun].
  { vm_compute. eauto. }
  exists rep. split; [exact Hrun|].
  destruct (command_resolution _ _ _ Hrun) as (_ & _ & -> & ->).
  split; reflexivity.
Defined.

Example unresolved_field_example :
  r_issues <$> cmd_compare (one_paragraph "{field_name}") (one_paragraph "{$module.code}")
  = Some [Unresolved "$module.code"].
Proof. reflexivity. Qed.

(** ** Duplicate footnote references *)

Lemma stored_cons (f k : string) (n : nat) (counts : list (string * nat)) :
  stored f ((k, n) :: counts)
  = if decide (k = f) then n :: stored f counts else stored f counts.
Proof. unfold stored. simpl. by case_decide. Qed.

Lemma count_ref_stored_ne (fid f : string) (counts : list (string * nat)) :
  f ≠ fid → stored f (count_ref fid counts) = stored f counts.
Proof.
  intros Hne. induction counts as [|[k n] counts IH]; cbn [count_ref].
  - rewrite stored_cons. by case_decide.
  - destruct (decide (k = fid)) as [->|Hk]; rewrite !stored_cons;
      case_decide; try done; congruence.
Qed.

Lemma count_ref_stored_new (fid : string) (counts : list (string * nat)) :
  stored fid counts = [] → stored fid (count_ref fid counts) = [1].
Proof.
  induction counts as [|[k n] counts IH]; cbn [count_ref].
  - intros _. rewrite stored_cons. by case_decide.
  - rewrite stored_cons. destruct (decide (k = fid)) as [->|Hk]; [done|].
    intros Hs. rewrite stored_cons. case_decide; [done|]. by apply IH.
Qed.

Lemma count_ref_stored_old (fid : string) (n : nat) (counts : list (string * nat)) :
  stored fid counts = [n] → stored fid (count_ref fid counts) = [n + 1].
Proof.
  induction counts as [|[k m] counts IH]; cbn [count_ref]; [done|].
  rewrite stored_cons. destruct (decide (k = fid)) as [->|Hk].
  - intros [= -> Hs]. rewrite stored_cons. case_decide; [|done]. by rewrite Hs.
  - intros Hs. rewrite stored_cons. case_decide; [done|]. by apply IH.
Qed.

Lemma foldl_count_ref_stored (refs : list string) (counts : list (string * nat))
    (c : string → nat) :
  (∀ f, stored f counts = count_list (c f)) →
  ∀ f, stored f (foldl (λ acc fid, count_ref fid acc) counts refs)
       = count_list (c f + occurrences f refs).
Proof.
  revert counts c. induction refs as [|fid refs IH]; intros counts c Hc f; simpl.
  - unfold occurrences. simpl. by rewrite Nat.add_0_r.
  - rewrite (IH _ (λ g, c g + if decide (fid = g) then 1 else 0)).
    + unfold occurrences. rewrite filter_cons.
      destruct (decide (fid = f)); simpl; f_equal; lia.
    + intros g. destruct (decide (fid = g)) as [->|Hne].
      * specialize (Hc g). unfold count_list in *.
        destruct (decide (c g = 0)) as [Hz|Hz].
        -- rewrite (count_ref_stored_new _ _ Hc). case_decide; [lia|f_equal; lia].
        -- rewrite (count_ref_stored_old _ _ _ Hc). case_decide; [lia|done].
      * rewrite count_ref_stored_ne by done. rewrite Hc. f_equal. lia.
Qed.

Lemma fn_counts_stored (refs : list string) (fid : string) :
  stored fid (fn_counts refs) = count_list (occurrences fid refs).
Proof.
  unfold fn_counts.
  by rewrite (foldl_count_ref_stored refs [] (λ _, 0)).
Qed.

Lemma duplicate_issues_of (refs : list string) (fid : string) :
  filter (is_duplicate_of fid) (duplicate_issues refs)
  = if decide (1 < occurrences fid refs)
    then [FootnoteDup fid (occurrences fid refs)] else [].
Proof.
  unfold duplicate_issues.
  assert (∀ counts,
    filter (is_duplicate_of fid)
      (counts ≫= λ '(f, n), if decide (1 < n) then [FootnoteDup f n] else [])
    = (λ n, FootnoteDup fid n) <$> filter (λ n, 1 < n) (stored fid counts)) as Haux.
  { induction counts as [|[k n] counts IH]; [done|].
    rewrite bind_cons, filter_app, IH, stored_cons.
    destruct (decide (k = fid)) as [->|Hne].
    - rewrite (filter_cons (λ n, 1 < n)). destruct (decide (1 < n)); [|done].
      rewrite filter_cons_True; [done|]. by apply bool_decide_pack.
    - destruct (decide (1 < n)); [|done].
      rewrite filter_cons_False; [done|].
      simpl. intros Hb. by apply bool_decide_unpack in Hb. }
  rewrite Haux, fn_counts_stored. unfold count_list.
  destruct (decide (occurrences fid refs = 0)) as [Hz|Hz].
  - simpl. case_decide; [lia|done].
  - rewrite filter_cons. by destruct (decide (1 < occurrences fid refs)).
Qed.

(** C9.  For every identifier, a run reports exactly one duplicate issue
    naming it, with its number of occurrences, when it is referenced more
    than once in the output, and none when it is referenced once or
    never. *)
Theorem duplicate_references (tpl out : Docx) (rep : Report) (fid : string) :
  cmd_compare tpl out = Some rep →
  filter (is_duplicate_of fid) (r_issues rep)
  = if decide (1 < occurrences fid (_footnote_refs (read_docx_xml out)))
    then [FootnoteDup fid (occurrences fid (_footnote_refs (read_docx_xml out)))]
    else [].
Proof.
  intros Hrun. rewrite (issues_of_footnote_check _ _ _ Hrun).
  - rewrite duplicate_issues_of.
    rewrite (filter_Forall_nil (λ i, is_duplicate i = false)); [by rewrite app_nil_r| |].
    + unfold undefined_issues. destruct (footnotes out); [|constructor].
      apply Forall_forall. intros i Hi.
      by apply list_elem_of_fmap in Hi as (c & -> & _).
    + intros []; simpl; try done; tauto.
  - by intros [].
Qed.

Lemma duplicate_references_witness :
  ∃ rep,
    cmd_compare three_refs three_refs = Some rep
    ∧ _footnote_refs (read_docx_xml three_refs) = ["3"; "3"; "4"]
    ∧ filter (is_duplicate_of "3") (r_issues rep) = [FootnoteDup "3" 2]
    ∧ filter (is_duplicate_of "4") (r_issues rep) = []
    ∧ filter is_duplicate (r_issues rep) = [FootnoteDup "3" 2].
Proof.
  assert (∃ rep, cmd_compare three_refs three_refs = Some rep
                 ∧ filter is_duplicate (r_issues rep) = [FootnoteDup "3" 2])
    as (rep & Hrun & Hall).
  { vm_compute. eauto. }
  exists rep. split; [exact Hrun|]. split; [reflexivity|].
  rewrite (duplicate_references _ _ _ "3" Hrun),
    (duplicate_references _ _ _ "4" Hrun).
  split; [reflexivity|]. split; [reflexivity|exact Hall].
Defined.

(** ** Row-span validation *)

Lemma span_row_issues_spec (i grid_cols ri : nat) (row : Element) r :
  span_row_issues i grid_cols ri row = Some r →
  ∃ cells,
    _row_cell_widths row = Some cells
    ∧ r = (if decide (total_span cells ≠ Z.of_nat grid_cols)
           then [SpanAnomaly i ri (total_span cells) grid_cols (length cells)
                   (take 4 ((λ c, PyStr.slice_to 25 (_cell_text c))
                              <$> El.findall row (W "tc")))]
           else [])
    ∧ filter (span_anomaly_at i ri) r = r.
Proof.
  unfold span_row_issues. intros H.
  destruct (_row_cell_widths row) as [cells|]; simpl in H; [|done].
  exists cells. split; [done|].
  case_decide; [|by injection H as <-].
  destruct (PyStr.str_int_fits (total_span cells)); [|done].
  injection H as <-. split; [done|]. rewrite filter_cons_True; [done|].
  by apply bool_decide_pack.
Qed.

(** C8.  For an output table whose grid is empty a run reports no span
    anomaly at all.  For an output table with a non-empty grid, every row
    has its cell spans read, and the run reports exactly one span anomaly
    for that row when the spans do not add up to the number of grid
    columns, and none when they do. *)
Theorem row_span_validation (tpl out : Docx) (rep : Report) (i : nat) (tbl : Element) :
  cmd_compare tpl out = Some rep →
  tables_of out !! i = Some tbl →
  (_table_grid tbl = [] → filter (span_anomaly_in i) (r_issues rep) = [])
  ∧ (_table_grid tbl ≠ [] →
     ∀ ri row, El.findall tbl (W "tr") !! ri = Some row →
       ∃ cells,
         _row_cell_widths row = Some cells
         ∧ filter (span_anomaly_at i ri) (r_issues rep)
           = if decide (total_span cells ≠ Z.of_nat (length (_table_grid tbl)))
             then [SpanAnomaly i ri (total_span cells) (length (_table_grid tbl))
                     (length cells)
                     (take 4 ((λ c, PyStr.slice_to 25 (_cell_text c))
                                <$> El.findall row (W "tc")))]
             else []).
Proof.
  intros Hrun Htbl. split.
  - intros Hgrid.
    destruct (issues_of_row_span _ _ _ Hrun (span_anomaly_in i)) as (i6 & H6 & ->).
    { by intros []. }
    destruct (for_from_filter_at _ (span_anomaly_in i) _ _ _ _ _ H6 Htbl)
      as (r & Hr & ->).
    + intros j y r Hne _ Hr. simpl in Hr.
      eapply (filter_Forall_nil _ _ _ (span_table_issues_check _ _ _ Hr)).
      intros [] [_ Hj] Hi; try done. simpl in *.
      apply bool_decide_unpack in Hj, Hi. congruence.
    + simpl in Hr. unfold span_table_issues in Hr. rewrite Hgrid in Hr.
      by injection Hr as <-.
  - intros Hgrid ri row Hrow.
    destruct (issues_of_row_span _ _ _ Hrun (span_anomaly_at i ri)) as (i6 & H6 & ->).
    { by intros []. }
    destruct (for_from_filter_at _ (span_anomaly_at i ri) _ _ _ _ _ H6 Htbl)
      as (r & Hr & ->).
    + intros j y r Hne _ Hr. simpl in Hr.
      eapply (filter_Forall_nil _ _ _ (span_table_issues_check _ _ _ Hr)).
      intros [] [_ Hj] Hi; try done. simpl in *.
      apply bool_decide_unpack in Hj, Hi. destruct Hi. congruence.
    + simpl in Hr. unfold span_table_issues in Hr.
      destruct (decide (length (_table_grid tbl) = 0)) as [Hz|_].
      { by destruct (_table_grid tbl). }
      destruct (for_from_filter_at _ (span_anomaly_at i ri) _ _ _ _ _ Hr Hrow)
        as (r' & Hr' & ->).
      * intros j y r0 Hne _ Hr0. simpl in Hr0.
        eapply (filter_Forall_nil _ _ _ (span_row_issues_check _ _ _ _ _ Hr0)).
        intros [] [_ Hj] Hi; try done. simpl in *.
        apply bool_decide_unpack in Hj, Hi. destruct Hi, Hj. congruence.
      * simpl in Hr'. destruct (span_row_issues_spec _ _ _ _ _ Hr')
          as (cells & Hcells & Hshape & Hfilter).
        exists cells. split; [done|]. by rewrite Hfilter.
Qed.

Lemma row_span_validation_witness :
  ∃ rep cells0 cells2,
    cmd_compare span_doc span_doc = Some rep
    ∧ _row_cell_widths (Fixture.tr [Fixture.tc "A"; Fixture.tc "B"]) = Some cells0
    ∧ total_span cells0 = 2%Z
    ∧ filter (span_anomaly_at 0 0) (r_issues rep) = []
    ∧ _row_cell_widths (Fixture.tr [Fixture.tc "B"]) = Some cells2
    ∧ total_span cells2 = 1%Z
    ∧ filter (span_anomaly_at 0 2) (r_issues rep) = [SpanAnomaly 0 2 1 2 1 ["B"]]
    ∧ filter is_span_anomaly (r_issues rep) = [SpanAnomaly 0 2 1 2 1 ["B"]].
Proof.
  assert (∃ rep, cmd_compare span_doc span_doc = Some rep
                 ∧ filter is_span_anomaly (r_issues rep)
                   = [SpanAnomaly 0 2 1 2 1 ["B"]]) as (rep & Hrun & Hall).
  { vm_compute. eauto. }
  assert (tables_of span_doc !! 0 = Some span_table) as Htbl by reflexivity.
  assert (_table_grid span_table ≠ []) as Hgrid by (by vm_compute).
  destruct (row_span_validation _ _ _ 0 span_table Hrun Htbl) as [_ Hrows].
  destruct (Hrows Hgrid 0 _ eq_refl) as (cells0 & Hc0 & Hf0).
  destruct (Hrows Hgrid 2 _ eq_refl) as (cells2 & Hc2 & Hf2).
  exists rep, cells0, cells2.
  assert (Some cells0 = Some [{| cw_w := "?"; cw_type := "?"; cw_span := 1 |};
                              {| cw_w := "?"; cw_type := "?"; cw_span := 1 |}]) as E0.
  { rewrite <- Hc0. reflexivity. }
  assert (Some cells2 = Some [{| cw_w := "?"; cw_type := "?"; cw_span := 1 |}]) as E2.
  { rewrite <- Hc2. reflexivity. }
  injection E0 as ->. injection E2 as ->.
  split_and!; try done.
Defined.

(** ** Table matching *)

Lemma find_table_Some (outs : list Element) (l : string) (g : list string) (oi : nat) :
  _find_table_in_output outs l g = Some oi ↔
  ∃ t, outs !! oi = Some t ∧ _table_label t = l
       ∧ ∀ j t', j < oi → outs !! j = Some t' → _table_label t' ≠ l.
Proof.
  unfold _find_table_in_output. rewrite fmap_Some. split.
  - intros ([i t] & Hfind & ->). apply list_find_Some in Hfind as (Ht & Hl & Hfirst).
    exists t. split_and!; [done..|]. intros j t' Hj Ht'. by eapply Hfirst.
  - intros (t & Ht & Hl & Hfirst). exists (oi, t). split; [|done].
    apply list_find_Some. split_and!; [done..|].
    intros j t' Ht' Hj. by eapply Hfirst.
Qed.

Lemma find_table_None (outs : list Element) (l : string) (g : list string) :
  _find_table_in_output outs l g = None ↔ ∀ t, t ∈ outs → _table_label t ≠ l.
Proof.
  unfold _find_table_in_output. rewrite fmap_None, list_find_None, Forall_forall.
  done.
Qed.

Lemma find_table_lt (outs : list Element) (l : string) (g : list string) (oi : nat) :
  _find_table_in_output outs l g = Some oi → is_Some (outs !! oi).
Proof. intros H. apply find_table_Some in H as (t & Ht & _). eauto. Qed.

Lemma other_tables_silent (outs : list Element) (ti j : nat) (t : Element) r :
  j ≠ ti → table_issues outs j t = Some r → filter (diff_at_table ti) r = [].
Proof.
  intros Hne Hr.
  eapply (filter_Forall_nil _ _ _ (table_issues_check _ _ _ _ Hr)).
  intros [] [_ Hj] Hi; try done; simpl in *;
    apply bool_decide_unpack in Hj, Hi; congruence.
Qed.

(** The issues a run reports for template table [ti] are those its own
    iteration appended. *)
Lemma issues_at_table (tpl out : Docx) (rep : Report) (ti : nat) (t : Element) :
  cmd_compare tpl out = Some rep → tables_of tpl !! ti = Some t →
  ∃ r, table_issues (tables_of out) ti t = Some r
       ∧ filter (diff_at_table ti) (r_issues rep) = filter (diff_at_table ti) r.
Proof.
  intros Hrun Ht.
  destruct (issues_of_table_diff _ _ _ Hrun (diff_at_table ti)) as (i4 & H4 & ->).
  { by intros []. }
  destruct (for_from_filter_at _ (diff_at_table ti) _ _ _ _ _ H4 Ht) as (r & Hr & ->).
  - intros j y r Hne _ Hr. by eapply other_tables_silent.
  - by exists r.
Qed.

(** C5.  For a template table that is not skipped, the matcher returns
    the index of the first output table, in document order, whose label
    equals the template table's label.  When no output table carries the
    label, the table is unmatched: it is not counted as matched, its
    iteration ends without an exception and without an issue, and no
    run reports a per-table diff issue for it. *)
Theorem table_matching (tpl out : Docx) (ti : nat) (tpl_tbl : Element) :
  tables_of tpl !! ti = Some tpl_tbl →
  skip_label (_table_label tpl_tbl) = false →
  match _find_table_in_output (tables_of out) (_table_label tpl_tbl)
                              (_table_grid tpl_tbl) with
  | Some oi =>
      ∃ out_tbl,
        tables_of out !! oi = Some out_tbl
        ∧ _table_label out_tbl = _table_label tpl_tbl
        ∧ (∀ j t', j < oi → tables_of out !! j = Some t' →
                   _table_label t' ≠ _table_label tpl_tbl)
        ∧ table_matched (tables_of out) tpl_tbl = true
  | None =>
      (∀ t', t' ∈ tables_of out → _table_label t' ≠ _table_label tpl_tbl)
      ∧ table_matched (tables_of out) tpl_tbl = false
      ∧ table_issues (tables_of out) ti tpl_tbl = Some []
      ∧ ∀ rep, cmd_compare tpl out = Some rep →
               filter (diff_at_table ti) (r_issues rep) = []
  end.
Proof.
  intros Ht Hskip.
  destruct (_find_table_in_output _ _ _) as [oi|] eqn:Hfind.
  - pose proof Hfind as Hf. apply find_table_Some in Hf as (out_tbl & Ho & Hl & Hfirst).
    exists out_tbl. split_and!; [done..|].
    unfold table_matched. by rewrite Hskip, Hfind.
  - assert (table_issues (tables_of out) ti tpl_tbl = Some []) as Hnone.
    { unfold table_issues. by rewrite Hskip, Hfind. }
    split_and!.
    + exact (proj1 (find_table_None _ _ _) Hfind).
    + unfold table_matched. by rewrite Hskip, Hfind.
    + done.
    + intros rep Hrun.
      destruct (issues_at_table _ _ _ _ _ Hrun Ht) as (r & Hr & ->).
      rewrite Hnone in Hr. by injection Hr as <-.
Qed.

Lemma table_matching_witness :
  _find_table_in_output (tables_of two_same_labels)
    (_table_label (module_table "200")) (_table_grid (module_table "200")) = Some 0
  ∧ (∃ out_tbl,
       tables_of two_same_labels !! 0 = Some out_tbl
       ∧ _table_label out_tbl = _table_label (module_table "200")
       ∧ table_matched (tables_of two_same_labels) (module_table "200") = true)
  ∧ _find_table_in_output (tables_of other_label)
      (_table_label (module_table "200")) (_table_grid (module_table "200")) = None
  ∧ table_issues (tables_of other_label) 1 (module_table "200") = Some [].
Proof.
  pose proof (table_matching two_same_labels two_same_labels 1 (module_table "200")
                eq_refl eq_refl) as Hdup.
  pose proof (table_matching two_same_labels other_label 1 (module_table "200")
                eq_refl eq_refl) as Hnone.
  assert (_find_table_in_output (tables_of two_same_labels)
            (_table_label (module_table "200")) (_table_grid (module_table "200"))
          = Some 0) as E1 by reflexivity.
  assert (_find_table_in_output (tables_of other_label)
            (_table_label (module_table "200")) (_table_grid (module_table "200"))
          = None) as E2 by reflexivity.
  rewrite E1 in Hdup. rewrite E2 in Hnone.
  destruct Hdup as (out_tbl & H1 & H2 & _ & H3).
  destruct Hnone as (_ & _ & H4 & _).
  split; [exact E1|]. split; [|split; [exact E2|exact H4]].
  exists out_tbl. split; [exact H1|]. split; [exact H2|exact H3].
Defined.

(** ** The per-table diff, row by row *)

Lemma _row_cell_widths_length (row : Element) (cw : list CellInfo) :
  _row_cell_widths row = Some cw → length cw = length (El.findall row (W "tc")).
Proof.
  unfold _row_cell_widths. intros H. apply mapM_Some in H.
  symmetry. by eapply Forall2_length.
Qed.

Lemma row_issues_check (ti ri : nat) (rows : Element * Element) r :
  row_issues ti ri rows = Some r →
  Forall (λ i, check_of i = TableDiff ∧ diff_at_row ti ri i) r.
Proof.
  unfold row_issues. intros Hr.
  destruct (_row_cell_widths rows.1) as [tcw|]; simpl in Hr; [|done].
  destruct (_row_cell_widths rows.2) as [ocw|]; simpl in Hr; [|done].
  injection Hr as <-. case_decide.
  - repeat constructor. by apply bool_decide_pack.
  - apply Forall_forall. intros i Hi.
    apply list_elem_of_In, in_concat in Hi as (l & Hl & Hi).
    apply list_elem_of_In, list_elem_of_lookup in Hl as [ci Hl].
    rewrite list_lookup_imap in Hl.
    destruct (zip tcw ocw !! ci) as [[tw ow]|]; simpl in Hl; [|done].
    injection Hl as <-. unfold cell_issues in Hi. simpl in Hi.
    apply in_app_or in Hi as [Hi|Hi]; case_decide; simpl in Hi;
      try done; destruct Hi as [<-|[]]; split; try done;
      by apply bool_decide_pack.
Qed.

Lemma row_issues_cell_count (ti ri : nat) (rows : Element * Element) r :
  row_issues ti ri rows = Some r →
  length (El.findall rows.1 (W "tc")) ≠ length (El.findall rows.2 (W "tc")) →
  r = [CellCount ti ri (length (El.findall rows.1 (W "tc")))
                       (length (El.findall rows.2 (W "tc")))].
Proof.
  unfold row_issues. intros Hr Hne.
  destruct (_row_cell_widths rows.1) as [tcw|] eqn:Ht; simpl in Hr; [|done].
  destruct (_row_cell_widths rows.2) as [ocw|] eqn:Ho; simpl in Hr; [|done].
  apply _row_cell_widths_length in Ht, Ho. rewrite Ht, Ho in Hr.
  case_decide; [|done]. by injection Hr as <-.
Qed.

(** The row-level and per-cell issues a run reports for row [ri] of a
    matched template table come from the row loop of its own iteration. *)
Lemma issues_at_row (tpl out : Docx) (rep : Report) (ti oi : nat)
    (tpl_tbl out_tbl : Element) (ri : nat) :
  cmd_compare tpl out = Some rep →
  tables_of tpl !! ti = Some tpl_tbl →
  skip_label (_table_label tpl_tbl) = false →
  _find_table_in_output (tables_of out) (_table_label tpl_tbl) (_table_grid tpl_tbl)
  = Some oi →
  tables_of out !! oi = Some out_tbl →
  ∃ rs,
    for_from (row_issues ti) 0
      (zip (El.findall tpl_tbl (W "tr")) (El.findall out_tbl (W "tr"))) = Some rs
    ∧ filter (diff_at_row ti ri) (r_issues rep) = filter (diff_at_row ti ri) rs.
Proof.
  intros Hrun Ht Hskip Hfind Ho.
  destruct (issues_of_table_diff _ _ _ Hrun (diff_at_row ti ri)) as (i4 & H4 & ->).
  { by intros []. }
  destruct (for_from_filter_at _ (diff_at_row ti ri) _ _ _ _ _ H4 Ht) as (r & Hr & ->).
  { intros j y r Hne _ Hr. simpl in Hr.
    eapply (filter_Forall_nil _ _ _ (table_issues_check _ _ _ _ Hr)).
    intros [] [_ Hj] Hi; try done; simpl in *;
      apply bool_decide_unpack in Hj, Hi; destruct Hi; congruence. }
  simpl in Hr. unfold table_issues in Hr. rewrite Hskip, Hfind, Ho in Hr.
  simpl in Hr.
  destruct (for_from (row_issues ti) 0 _) as [rs|]; simpl in Hr; [|done].
  injection Hr as <-. exists rs. split; [done|].
  rewrite !filter_app. by repeat case_decide.
Qed.

(** C4 (as amended).  For a matched pair of tables, a row of the
    overlapping range whose cell counts differ gets exactly one issue of
    the per-table diff, the row-level cell-count issue, and no per-cell
    issue; a row index beyond the overlapping range gets no row-level
    and no per-cell issue. *)
Theorem row_diff (tpl out : Docx) (rep : Report) (ti oi : nat)
    (tpl_tbl out_tbl : Element) (ri : nat) :
  cmd_compare tpl out = Some rep →
  tables_of tpl !! ti = Some tpl_tbl →
  skip_label (_table_label tpl_tbl) = false →
  _find_table_in_output (tables_of out) (_table_label tpl_tbl) (_table_grid tpl_tbl)
  = Some oi →
  tables_of out !! oi = Some out_tbl →
  (∀ tpl_row out_row,
     El.findall tpl_tbl (W "tr") !! ri = Some tpl_row →
     El.findall out_tbl (W "tr") !! ri = Some out_row →
     length (El.findall tpl_row (W "tc")) ≠ length (El.findall out_row (W "tc")) →
     filter (diff_at_row ti ri) (r_issues rep)
     = [CellCount ti ri (length (El.findall tpl_row (W "tc")))
                        (length (El.findall out_row (W "tc")))])
  ∧ (length (El.findall tpl_tbl (W "tr")) `min` length (El.findall out_tbl (W "tr")) ≤ ri →
     filter (diff_at_row ti ri) (r_issues rep) = []).
Proof.
  intros Hrun Ht Hskip Hfind Ho.
  destruct (issues_at_row _ _ _ _ _ _ _ ri Hrun Ht Hskip Hfind Ho) as (rs & Hrs & ->).
  assert (∀ j y r, j ≠ ri → row_issues ti (0 + j) y = Some r →
                   filter (diff_at_row ti ri) r = []) as Hother.
  { intros j y r Hne Hr. simpl in Hr.
    eapply (filter_Forall_nil _ _ _ (row_issues_check _ _ _ _ Hr)).
    intros [] [_ Hj] Hi; try done; simpl in *;
      apply bool_decide_unpack in Hj, Hi; destruct Hi, Hj; congruence. }
  split.
  - intros tpl_row out_row Htr Hor Hne.
    assert (zip (El.findall tpl_tbl (W "tr")) (El.findall out_tbl (W "tr")) !! ri
            = Some (tpl_row, out_row)) as Hz.
    { by apply lookup_zip_Some. }
    destruct (for_from_filter_at _ (diff_at_row ti ri) _ _ _ _ _ Hrs Hz)
      as (r & Hr & ->).
    { intros j y r Hj _ Hr. by eapply Hother. }
    simpl in Hr. rewrite (row_issues_cell_count _ _ _ _ Hr Hne). simpl.
    rewrite filter_cons_True; [done|]. by apply bool_decide_pack.
  - intros Hge. eapply for_from_filter_nil; [exact Hrs|].
    intros j y r Hj Hr. eapply Hother; [|exact Hr].
    apply lookup_lt_Some in Hj. rewrite length_zip in Hj. lia.
Qed.

Lemma row_diff_witness :
  ∃ rep,
    cmd_compare (Fixture.docx [three_rows]) (Fixture.docx [two_rows]) = Some rep
    ∧ filter (diff_at_row 0 1) (r_issues rep) = [CellCount 0 1 2 1]
    ∧ filter (diff_at_row 0 2) (r_issues rep) = [].
Proof.
  assert (∃ rep, cmd_compare (Fixture.docx [three_rows]) (Fixture.docx [two_rows])
                 = Some rep) as [rep Hrun].
  { vm_compute. eauto. }
  exists rep. split; [exact Hrun|].
  destruct (row_diff _ _ _ 0 0 three_rows two_rows 1 Hrun eq_refl eq_refl eq_refl eq_refl)
    as [Hcount _].
  destruct (row_diff _ _ _ 0 0 three_rows two_rows 2 Hrun eq_refl eq_refl eq_refl eq_refl)
    as [_ Hbeyond].
  split.
  - apply (Hcount (Fixture.tr [Fixture.tc "x"; Fixture.tc "y"])
                  (Fixture.tr [Fixture.tc_span "2" "x"]) eq_refl eq_refl).
    vm_compute. lia.
  - apply Hbeyond. vm_compute. lia.
Defined.

(** C4 as stated fails: a template row beyond the overlapping range gets
    no issue at all, not a single row-level one. *)
Lemma row_beyond_overlap_counterexample :
  ∃ rep,
    cmd_compare (Fixture.docx [three_rows]) (Fixture.docx [one_row]) = Some rep
    ∧ _find_table_in_output [one_row] (_table_label three_rows) (_table_grid three_rows)
      = Some 0
    ∧ length (El.findall three_rows (W "tr")) = 3
    ∧ length (El.findall one_row (W "tr")) = 1
    ∧ filter (diff_at_row 0 1) (r_issues rep) = []
    ∧ r_issues rep = [].
Proof. vm_compute. eexists. repeat split. Qed.

(** ** Comparing a document with itself *)

Lemma for_from_nil {A B : Type} (body : nat → A → option (list B)) start l rs :
  for_from body start l = Some rs →
  (∀ k x r, l !! k = Some x → body (start + k) x = Some r → r = []) →
  rs = [].
Proof.
  intros Hrun Hall.
  assert (Forall (λ _, False) rs) as HF.
  { eapply for_from_Forall; [exact Hrun|]. intros k x r Hk Hb.
    rewrite (Hall k x r Hk Hb). constructor. }
  destruct HF; [done|contradiction].
Qed.

Lemma cell_issues_same (ti ri ci : nat) (c : CellInfo) : cell_issues ti ri ci c c = [].
Proof. unfold cell_issues. repeat case_decide; try done; intuition congruence. Qed.

Lemma cells_same (ti ri : nat) (cw : list CellInfo) :
  concat (imap (λ ci c, cell_issues ti ri ci c.1 c.2) (zip cw cw)) = [].
Proof.
  assert (∀ (f : nat → CellInfo * CellInfo → list Issue),
            (∀ ci c, f ci (c, c) = []) → concat (imap f (zip cw cw)) = []) as Haux.
  { induction cw as [|c cw IH]; intros f Hf; [done|].
    simpl. rewrite Hf. simpl. apply IH. intros ci c'. apply Hf. }
  apply Haux. intros ci c. apply cell_issues_same.
Qed.

Lemma row_issues_same (ti ri : nat) (row : Element) r :
  row_issues ti ri (row, row) = Some r → r = [].
Proof.
  unfold row_issues. simpl. intros Hr.
  destruct (_row_cell_widths row) as [cw|]; simpl in Hr; [|done].
  injection Hr as <-. case_decide; [done|]. apply cells_same.
Qed.

Lemma filter_none {A : Type} (P : A → Prop) `{!∀ x, Decision (P x)} (l : list A) :
  (∀ x, x ∈ l → ¬ P x) → filter P l = [].
Proof.
  intros HP. induction l as [|x l IH]; [done|].
  rewrite filter_cons_False; [|apply HP; by left].
  apply IH. intros y Hy. apply HP. by right.
Qed.

Lemma zip_same_lookup {A : Type} (l : list A) (k : nat) (x y : A) :
  zip l l !! k = Some (x, y) → x = y.
Proof. intros H. apply lookup_zip_Some in H as [H1 H2]. congruence. Qed.

(** C1 (as amended).  Take a document that has no control command and no
    field beginning with the dollar sign, and in which every table that
    is not skipped is the first table carrying its label.  A run that
    compares it with itself reports no issue of the per-table diff (no
    grid, table-width, cell-count, cell-width or span mismatch) and no
    residual-command or unresolved-field issue. *)
Theorem self_comparison (d : Docx) (rep : Report) :
  cmd_compare d d = Some rep →
  (∀ c, c ∈ find_commands d → c_type c = field ∧ ¬ begins_with "$" (c_raw c)) →
  (∀ i j t t', j < i → tables_of d !! i = Some t → tables_of d !! j = Some t' →
               skip_label (_table_label t) = false →
               _table_label t' ≠ _table_label t) →
  filter (from_check TableDiff) (r_issues rep) = []
  ∧ filter (from_check CommandCheck) (r_issues rep) = [].
Proof.
  intros Hrun Hcmds Hfirst. split.
  - destruct (issues_of_table_diff _ _ _ Hrun (from_check TableDiff)) as (i4 & H4 & ->).
    { intros i Hi. by apply bool_decide_unpack in Hi. }
    rewrite (for_from_nil _ _ _ _ H4); [done|].
    intros k t r Hk Hr. simpl in Hr. unfold table_issues in Hr.
    destruct (skip_label (_table_label t)) eqn:Hskip; [by injection Hr as <-|].
    destruct (_find_table_in_output _ _ _) as [oi|] eqn:Hfind;
      [|by injection Hr as <-].
    apply find_table_Some in Hfind as (t' & Hoi & Hlabel & Hmin).
    assert (oi = k) as ->.
    { destruct (Nat.lt_trichotomy oi k) as [Hlt|[->|Hgt]]; [|done|].
      - by destruct (Hfirst k oi t t' Hlt Hk Hoi Hskip).
      - by destruct (Hmin k t Hgt Hk). }
    rewrite Hk in Hr. simpl in Hr.
    destruct (for_from (row_issues k) 0 _) as [rs|] eqn:Hrs; simpl in Hr; [|done].
    injection Hr as <-. repeat case_decide; try done.
    simpl. eapply for_from_nil; [exact Hrs|].
    intros ri [x y] r Hri Hr. pose proof (zip_same_lookup _ _ _ _ Hri) as <-.
    by eapply row_issues_same.
  - rewrite (issues_of_command_check _ _ _ Hrun).
    2:{ intros i Hi. by apply bool_decide_unpack in Hi. }
    unfold command_issues, residual, unresolved_fields.
    rewrite (filter_none (λ c : Command, c_type c ∈ control_types)).
    2:{ intros c Hc Hk. destruct (Hcmds c Hc) as [Hf _]. rewrite Hf in Hk.
        revert Hk. by apply (bool_decide_unpack (field ∉ control_types)). }
    rewrite (filter_none (λ c : Command,
               c_type c = field ∧ PyStr.startswith (c_raw c) "$" = true)).
    2:{ intros c Hc [_ Hs]. destruct (Hcmds c Hc) as [_ Hno].
        apply Hno. by apply startswith_spec. }
    done.
Qed.

Lemma self_comparison_witness :
  ∃ rep,
    cmd_compare distinct_labels distinct_labels = Some rep
    ∧ (λ c, c_raw c) <$> find_commands distinct_labels = ["name"]
    ∧ _table_label <$> tables_of distinct_labels = ["Module"; "Stage | Credits"]
    ∧ filter (from_check TableDiff) (r_issues rep) = []
    ∧ filter (from_check CommandCheck) (r_issues rep) = [].
Proof.
  assert (∃ rep, cmd_compare distinct_labels distinct_labels = Some rep) as [rep Hrun].
  { vm_compute. eauto. }
  exists rep. split; [exact Hrun|]. split; [reflexivity|]. split; [reflexivity|].
  apply (self_comparison _ _ Hrun).
  - intros c Hc.
    assert (find_commands distinct_labels
            = [{| c_para := 0; c_tbl := false; c_raw := "name"; c_type := field |}])
      as E by reflexivity.
    rewrite E in Hc. apply list_elem_of_singleton in Hc as ->. simpl.
    split; [done|]. intros [rest Hrest]. discriminate Hrest.
  - intros i j t t' Hlt Hi Hj _.
    assert ((_table_label <$> tables_of distinct_labels) !! i = Some (_table_label t))
      as Li by (by rewrite list_lookup_fmap, Hi).
    assert ((_table_label <$> tables_of distinct_labels) !! j = Some (_table_label t'))
      as Lj by (by rewrite list_lookup_fmap, Hj).
    assert (_table_label <$> tables_of distinct_labels = ["Module"; "Stage | Credits"])
      as E by reflexivity.
    rewrite E in Li, Lj. clear Hi Hj E Hrun.
    destruct i as [|[|i]]; [lia| |discriminate Li].
    destruct j as [|j]; [|lia].
    injection Li as <-. injection Lj as <-. intros Heq. discriminate Heq.
Defined.

(** C1 as stated fails when two tables share a label: the second one is
    compared with the first. *)
Lemma self_comparison_counterexample :
  ∃ rep,
    cmd_compare two_same_labels two_same_labels = Some rep
    ∧ find_commands two_same_labels = []
    ∧ filter (from_check TableDiff) (r_issues rep)
      = [GridMismatch 1 "Module" ["200"] ["100"]].
Proof. vm_compute. eexists. repeat split. Qed.

(** ** The grouping key determines the grid *)

Lemma append_assoc (a b c : string) : (a +:+ b) +:+ c = a +:+ (b +:+ c).
Proof. induction a as [|x a IH]; [done|]. by rewrite !append_String, IH. Qed.

Lemma unhex_hexdigit (n : N) :
  (n < 16)%N → Unrepr.unhex (PyStr.hexdigit n) = Some n.
Proof.
  intros Hn. rewrite <- (N2Nat.id n). assert (N.to_nat n < 16) as Hm by lia.
  revert Hm. generalize (N.to_nat n) as m. intros m Hm.
  do 16 (destruct m as [|m]; [reflexivity|]). lia.
Qed.

Lemma code_lt_256 (c : ascii) : (PyStr.code c < 256)%N.
Proof. apply N_ascii_bounded. Qed.

Lemma unrepr_hex_escape (q c : ascii) (tail : string) :
  q = "'"%char ∨ q = PyStr.dquote →
  Unrepr.body q (PyStr.hex_escape c +:+ tail)
  = (r ← Unrepr.body q tail; Some (String c r.1, r.2)).
Proof.
  intros Hq. unfold PyStr.hex_escape. rewrite !append_String, append_Empty.
  pose proof (code_lt_256 c) as Hc.
  assert (Unrepr.unhex (PyStr.hexdigit (PyStr.code c / 16)) = Some (PyStr.code c / 16)%N)
    as Hhi.
  { apply unhex_hexdigit. apply N.Div0.div_lt_upper_bound. lia. }
  assert (Unrepr.unhex (PyStr.hexdigit (PyStr.code c mod 16))
          = Some (PyStr.code c mod 16)%N) as Hlo.
  { apply unhex_hexdigit. apply N.mod_lt. lia. }
  assert (ascii_of_N (16 * (PyStr.code c / 16) + PyStr.code c mod 16) = c) as Hback.
  { rewrite <- N.div_mod by lia. apply ascii_N_embedding. }
  destruct Hq as [-> | ->]; cbn [Unrepr.body Ascii.eqb Bool.eqb PyStr.dquote];
    rewrite Hhi, Hlo; simpl; by rewrite Hback.
Qed.

Lemma unrepr_char (q c : ascii) (tail : string) :
  q = "'"%char ∨ q = PyStr.dquote →
  Unrepr.body q (PyStr.repr_char q c +:+ tail)
  = (r ← Unrepr.body q tail; Some (String c r.1, r.2)).
Proof.
  intros Hq. unfold PyStr.repr_char.
  destruct (Ascii.eqb c q) eqn:E1.
  { apply Ascii.eqb_eq in E1 as ->. by destruct Hq as [-> | ->]. }
  destruct (Ascii.eqb c "\") eqn:E2.
  { apply Ascii.eqb_eq in E2 as ->. by destruct Hq as [-> | ->]. }
  simpl.
  destruct (Ascii.eqb c "009") eqn:E3.
  { apply Ascii.eqb_eq in E3 as ->. by destruct Hq as [-> | ->]. }
  destruct (Ascii.eqb c "010") eqn:E4.
  { apply Ascii.eqb_eq in E4 as ->. by destruct Hq as [-> | ->]. }
  destruct (Ascii.eqb c "013") eqn:E5.
  { apply Ascii.eqb_eq in E5 as ->. by destruct Hq as [-> | ->]. }
  assert (Unrepr.body q (String c EmptyString +:+ tail)
          = (r ← Unrepr.body q tail; Some (String c r.1, r.2))) as Hlit.
  { rewrite append_String, append_Empty. cbn [Unrepr.body]. by rewrite E1, E2. }
  repeat match goal with
         | |- context [if ?b then _ else _] => destruct b
         end; try exact Hlit; by apply unrepr_hex_escape.
Qed.

Lemma repr_quote_cases (s : string) :
  PyStr.repr_quote s = "'"%char ∨ PyStr.repr_quote s = PyStr.dquote.
Proof. unfold PyStr.repr_quote. destruct (_ && _); auto. Qed.

Lemma unrepr_body_repr (q : ascii) (s rest : string) :
  q = "'"%char ∨ q = PyStr.dquote →
  Unrepr.body q (PyStr.repr_body q s +:+ String q rest) = Some (s, rest).
Proof.
  intros Hq. induction s as [|c s IH].
  - rewrite append_Empty. cbn [PyStr.repr_body Unrepr.body].
    by rewrite Ascii.eqb_refl.
  - cbn [PyStr.repr_body]. rewrite append_assoc, unrepr_char, IH by done.
    done.
Qed.

Lemma unrepr_repr (s rest : string) :
  Unrepr.literal (PyStr.repr s +:+ rest) = Some (s, rest).
Proof.
  unfold PyStr.repr. rewrite append_String, append_assoc, append_String, append_Empty.
  pose proof (repr_quote_cases s) as Hq. unfold Unrepr.literal.
  rewrite unrepr_body_repr by done.
  by destruct Hq as [-> | ->].
Qed.

Lemma repr_inj (s1 s2 rest1 rest2 : string) :
  PyStr.repr s1 +:+ rest1 = PyStr.repr s2 +:+ rest2 → s1 = s2 ∧ rest1 = rest2.
Proof.
  intros H. pose proof (unrepr_repr s1 rest1) as H1.
  rewrite H, unrepr_repr in H1. by injection H1 as -> ->.
Qed.

Lemma repr_not_paren (s rest : string) : PyStr.repr s +:+ rest ≠ ")".
Proof.
  unfold PyStr.repr. rewrite append_String. intros H. injection H as H _.
  by destruct (repr_quote_cases s) as [Hq | Hq]; rewrite Hq in H.
Qed.

Lemma tuple_items_one (x : string) : tuple_items [x] = PyStr.repr x +:+ ")".
Proof. reflexivity. Qed.

Lemma tuple_items_more (x y : string) (l : list string) :
  tuple_items (x :: y :: l) = PyStr.repr x +:+ ", " +:+ tuple_items (y :: l).
Proof.
  unfold tuple_items, PyStr.join.
  change (String.concat ", " (PyStr.repr <$> x :: y :: l))
    with (PyStr.repr x +:+ ", " +:+ String.concat ", " (PyStr.repr <$> y :: l)).
  by rewrite !append_assoc.
Qed.

Lemma tuple_items_inj (l1 l2 : list string) :
  l1 ≠ [] → l2 ≠ [] → tuple_items l1 = tuple_items l2 → l1 = l2.
Proof.
  revert l2. induction l1 as [|x l1 IH]; intros l2 H1 H2 Heq; [done|].
  destruct l2 as [|y l2]; [done|].
  destruct l1 as [|x' l1], l2 as [|y' l2];
    rewrite ?tuple_items_one, ?tuple_items_more in Heq;
    apply repr_inj in Heq as [-> Hrest]; try done.
  apply (inj (String.append ", ")) in Hrest. f_equal. by apply IH.
Qed.

Lemma str_tuple_shape (l : list string) :
  PyStr.str_tuple l
  = String "(" match l with
               | [] => ")"
               | [x] => PyStr.repr x +:+ ",)"
               | x :: l' => PyStr.repr x +:+ ", " +:+ tuple_items l'
               end.
Proof.
  destruct l as [|x [|y l]]; [done..|].
  change (PyStr.str_tuple (x :: y :: l)) with ("(" +:+ tuple_items (x :: y :: l)).
  by rewrite tuple_items_more.
Qed.

Lemma str_tuple_inj (l1 l2 : list string) :
  PyStr.str_tuple l1 = PyStr.str_tuple l2 → l1 = l2.
Proof.
  rewrite !str_tuple_shape. intros Heq. injection Heq as Heq.
  destruct l1 as [|x1 [|y1 l1]], l2 as [|x2 [|y2 l2]]; try done;
    try (by destruct (repr_not_paren _ _ Heq));
    try (by symmetry in Heq; destruct (repr_not_paren _ _ Heq));
    apply repr_inj in Heq as [-> Hrest]; try done.
  apply (inj (String.append ", ")) in Hrest.
  f_equal. by apply tuple_items_inj.
Qed.

(** ** Grouping the output tables by grid *)

Lemma members_setdefault (key key' : string) (i : nat) (groups : list (string * list nat)) :
  members key (setdefault_append key' i groups)
  = members key groups ++ (if decide (key' = key) then [i] else []).
Proof.
  induction groups as [|[k l] groups IH]; simpl.
  - by case_decide.
  - destruct (decide (k = key')) as [->|Hk]; simpl.
    + destruct (decide (key' = key)); [done|by rewrite app_nil_r].
    + destruct (decide (k = key)) as [->|Hk'].
      * rewrite decide_False by congruence. by rewrite app_nil_r.
      * apply IH.
Qed.

Lemma keys_setdefault (key : string) (i : nat) (groups : list (string * list nat)) :
  (setdefault_append key i groups).*1
  = if decide (key ∈ groups.*1) then groups.*1 else groups.*1 ++ [key].
Proof.
  induction groups as [|[k l] groups IH]; cbn [setdefault_append].
  - done.
  - destruct (decide (k = key)) as [->|Hk]; rewrite !fmap_cons; cbn [fst].
    + rewrite decide_True; [done|]. by left.
    + rewrite IH. destruct (decide (key ∈ groups.*1)) as [Hin|Hin].
      * rewrite decide_True; [done|]. by right.
      * rewrite decide_False; [done|].
        intros [?|?]%elem_of_cons; congruence.
Qed.

Lemma setdefault_NoDup (key : string) (i : nat) (groups : list (string * list nat)) :
  NoDup groups.*1 → NoDup (setdefault_append key i groups).*1.
Proof.
  intros Hnd. rewrite keys_setdefault. case_decide; [done|].
  apply NoDup_app. split_and!; [done| |apply NoDup_singleton].
  intros k Hk Hk'. apply list_elem_of_singleton in Hk'. congruence.
Qed.

Lemma setdefault_nonempty (key : string) (i : nat) (groups : list (string * list nat)) :
  Forall (λ g, g.2 ≠ []) groups → Forall (λ g, g.2 ≠ []) (setdefault_append key i groups).
Proof.
  induction 1 as [|[k l] groups Hl Hrest IH]; simpl.
  - by repeat constructor.
  - case_decide; constructor; try done. simpl. by destruct l.
Qed.

Lemma group_from_spec (tables : list Element) (i : nat) (groups : list (string * list nat)) :
  NoDup groups.*1 → Forall (λ g, g.2 ≠ []) groups →
  NoDup (group_from i tables groups).*1
  ∧ Forall (λ g, g.2 ≠ []) (group_from i tables groups)
  ∧ ∀ key, members key (group_from i tables groups)
           = members key groups ++ indices_from i key tables.
Proof.
  revert i groups. induction tables as [|tbl tables IH]; intros i groups Hnd Hne; simpl.
  - split_and!; [done..|]. intros key. by rewrite app_nil_r.
  - destruct (IH (S i) (setdefault_append (grid_key tbl) i groups))
      as (Hnd' & Hne' & Hmem).
    { by apply setdefault_NoDup. }
    { by apply setdefault_nonempty. }
    split_and!; [done..|]. intros key.
    by rewrite Hmem, members_setdefault, <- app_assoc.
Qed.

Lemma members_elem (key : string) (l : list nat) (groups : list (string * list nat)) :
  NoDup groups.*1 → (key, l) ∈ groups → members key groups = l.
Proof.
  induction groups as [|[k l'] groups IH]; simpl; intros Hnd Hin.
  - by apply elem_of_nil in Hin.
  - apply NoDup_cons in Hnd as [Hk Hnd].
    apply elem_of_cons in Hin as [[= <- <-]|Hin].
    + by rewrite decide_True.
    + rewrite decide_False; [by apply IH|].
      intros ->. apply Hk. apply list_elem_of_fmap. by exists (key, l).
Qed.

Lemma members_nonempty_elem (key : string) (groups : list (string * list nat)) :
  members key groups ≠ [] → (key, members key groups) ∈ groups.
Proof.
  induction groups as [|[k l] groups IH]; simpl; [done|].
  destruct (decide (k = key)) as [->|Hk]; [by left|].
  intros Hne. right. by apply IH.
Qed.

Lemma grid_groups_NoDup (tables : list Element) : NoDup (grid_groups tables).*1.
Proof.
  destruct (group_from_spec tables 0 []) as (H & _ & _);
    [apply NoDup_nil_2|constructor|done].
Qed.

Lemma grid_groups_members (tables : list Element) (key : string) :
  members key (grid_groups tables) = indices_from 0 key tables.
Proof.
  destruct (group_from_spec tables 0 []) as (_ & _ & H);
    [apply NoDup_nil_2|constructor|apply H].
Qed.

Lemma grid_groups_elem (tables : list Element) (key : string) (l : list nat) :
  (key, l) ∈ grid_groups tables ↔ l = indices_from 0 key tables ∧ l ≠ [].
Proof.
  split.
  - intros Hin. split.
    + rewrite <- grid_groups_members. symmetry.
      apply members_elem; [apply grid_groups_NoDup|done].
    + destruct (group_from_spec tables 0 []) as (_ & Hne & _);
        [apply NoDup_nil_2|constructor|].
      rewrite Forall_forall in Hne. exact (Hne _ Hin).
  - intros [-> Hne]. rewrite <- grid_groups_members in *.
    by apply members_nonempty_elem.
Qed.

Lemma indices_from_elem (tables : list Element) (i j : nat) (key : string) :
  j ∈ indices_from i key tables ↔
  ∃ k tbl, j = i + k ∧ tables !! k = Some tbl ∧ grid_key tbl = key.
Proof.
  revert i. induction tables as [|t tables IH]; intros i; simpl.
  - split; [by intros ?%elem_of_nil|by intros (k & tbl & _ & ? & _)].
  - rewrite elem_of_app, IH. split.
    + intros [Hhd|(k & tbl & -> & Hk & Hkey)].
      * case_decide; [|by apply elem_of_nil in Hhd].
        apply list_elem_of_singleton in Hhd as ->.
        exists 0, t. by rewrite Nat.add_0_r.
      * exists (S k), tbl. split; [lia|done].
    + intros (k & tbl & -> & Hk & Hkey). destruct k as [|k]; simpl in Hk.
      * left. injection Hk as ->. rewrite decide_True by done.
        rewrite Nat.add_0_r. by left.
      * right. exists k, tbl. split; [lia|done].
Qed.

Lemma indices_from_NoDup (tables : list Element) (i : nat) (key : string) :
  NoDup (indices_from i key tables).
Proof.
  revert i. induction tables as [|t tables IH]; intros i; simpl; [constructor|].
  case_decide; [|apply IH]. simpl. apply NoDup_cons. split; [|apply IH].
  intros (k & tbl & Hj & _)%indices_from_elem. lia.
Qed.

Lemma indices_from_length (tables : list Element) (i : nat) (key : string) :
  length (indices_from i key tables)
  = length (filter (λ t, grid_key t = key) tables).
Proof.
  revert i. induction tables as [|t tables IH]; intros i; simpl; [done|].
  rewrite filter_cons, length_app, IH. by case_decide.
Qed.

Lemma grid_key_inj (t1 t2 : Element) :
  grid_key t1 = grid_key t2 ↔ _table_grid t1 = _table_grid t2.
Proof.
  unfold grid_key. split; [apply str_tuple_inj|by intros ->].
Qed.

(** ** Loop-expansion families *)

Lemma same_grid_count_indices (tables : list Element) (tbl : Element) :
  length (indices_from 0 (grid_key tbl) tables) = same_grid_count tables tbl.
Proof.
  rewrite indices_from_length. unfold same_grid_count. f_equal.
  apply list_filter_iff. intros t. apply grid_key_inj.
Qed.

Lemma group_of_table (tables : list Element) (i : nat) (tbl : Element) :
  tables !! i = Some tbl →
  (grid_key tbl, indices_from 0 (grid_key tbl) tables) ∈ grid_groups tables
  ∧ i ∈ indices_from 0 (grid_key tbl) tables
  ∧ ∀ g, g ∈ grid_groups tables → i ∈ g.2 →
         g = (grid_key tbl, indices_from 0 (grid_key tbl) tables).
Proof.
  intros Hi.
  assert (i ∈ indices_from 0 (grid_key tbl) tables) as Hin.
  { apply indices_from_elem. by exists i, tbl. }
  split_and!; [|done|].
  - apply grid_groups_elem. split; [done|]. intros Hnil. rewrite Hnil in Hin.
    by apply elem_of_nil in Hin.
  - intros [key l] Hg Hil. apply grid_groups_elem in Hg as [-> _]. simpl in Hil.
    apply indices_from_elem in Hil as (k & t & -> & Hk & <-).
    simpl in Hi. rewrite Hi in Hk. by injection Hk as <-.
Qed.

Lemma cmd_compare_families (tpl out : Docx) (rep : Report) :
  cmd_compare tpl out = Some rep →
  (λ line, line.1.1) <$> r_families rep
  = (λ g, length g.2) <$> loop_families (tables_of out).
Proof.
  unfold cmd_compare. fold (tables_of out). fold (tables_of tpl). intros H.
  destruct (for_from (table_issues _) 0 _) as [issues4|]; simpl in H; [|done].
  destruct (mapM (λ g, family_issues _ g.2) _) as [per_family|]; simpl in H; [|done].
  destruct (mapM (family_line _) _) as [families|] eqn:Hfam; simpl in H; [|done].
  destruct (for_from span_table_issues 0 _) as [issues6|]; simpl in H; [|done].
  injection H as <-. simpl. apply mapM_Some in Hfam.
  induction Hfam as [|g line gs lines Hline _ IH]; [done|].
  rewrite !fmap_cons, IH. f_equal. unfold family_line in Hline.
  destruct (head g.2) as [ref_idx|]; simpl in Hline; [|done].
  destruct (tables_of out !! ref_idx); simpl in Hline; [|done].
  by injection Hline as <-.
Qed.

(** C6.  An output table belongs to a loop-expansion family exactly when
    more than two output tables have its grid: a pair of tables sharing
    a grid is not a family, three or more are.  The family of a table
    is made of all the tables with its grid, and a run prints one line
    per family with that number. *)
Theorem loop_family_threshold (out : Docx) (i : nat) (tbl : Element) :
  tables_of out !! i = Some tbl →
  ((∃ g, g ∈ loop_families (tables_of out) ∧ i ∈ g.2)
   ↔ 2 < same_grid_count (tables_of out) tbl)
  ∧ (∀ g, g ∈ loop_families (tables_of out) → i ∈ g.2 →
       length g.2 = same_grid_count (tables_of out) tbl
       ∧ ∀ j, j ∈ g.2 ↔
              ∃ t, tables_of out !! j = Some t ∧ _table_grid t = _table_grid tbl)
  ∧ (∀ tpl rep, cmd_compare tpl out = Some rep →
       (λ line, line.1.1) <$> r_families rep
       = (λ g, length g.2) <$> loop_families (tables_of out)).
Proof.
  intros Hi. destruct (group_of_table _ _ _ Hi) as (Hg & Hin & Huniq).
  pose proof (same_grid_count_indices (tables_of out) tbl) as Hlen.
  split_and!.
  - split.
    + intros (g & Hfam & Hig). apply list_elem_of_filter in Hfam as [Hsize Hgg].
      rewrite (Huniq g Hgg Hig) in Hsize. simpl in Hsize. lia.
    + intros Hn.
      exists (grid_key tbl, indices_from 0 (grid_key tbl) (tables_of out)).
      split; [|exact Hin].
      apply list_elem_of_filter. split; [simpl; lia|done].
  - intros g Hfam Hig. apply list_elem_of_filter in Hfam as [_ Hgg].
    rewrite (Huniq g Hgg Hig). simpl. split; [done|]. intros j.
    rewrite indices_from_elem. split.
    + intros (k & t & -> & Hk & Hkey). exists t. split; [done|].
      by apply grid_key_inj.
    + intros (t & Hj & Hgrid). exists j, t. split; [done|]. split; [done|].
      by apply grid_key_inj.
  - intros tpl rep. apply cmd_compare_families.
Qed.

Lemma loop_family_threshold_witness :
  (_table_grid <$> tables_of three_and_two)
  = [["100"; "200"]; ["50"]; ["100"; "200"]; ["50"]; ["100"; "200"]]
  ∧ (∃ g, g ∈ loop_families (tables_of three_and_two) ∧ 0 ∈ g.2)
  ∧ ¬ (∃ g, g ∈ loop_families (tables_of three_and_two) ∧ 1 ∈ g.2)
  ∧ loop_families (tables_of three_and_two) = [("('100', '200')", [0; 2; 4])].
Proof.
  split; [by vm_compute|].
  destruct (loop_family_threshold three_and_two 0
              (grid_table ["100"; "200"] "A") eq_refl) as ([_ Hfam] & _ & _).
  destruct (loop_family_threshold three_and_two 1
              (grid_table ["50"] "B") eq_refl) as ([Hpair _] & _ & _).
  split; [apply Hfam; vm_compute; lia|].
  split; [|by vm_compute].
  intros Hg. apply Hpair in Hg. vm_compute in Hg. lia.
Defined.

(** ** Inside a family *)

Lemma group_grid (tables : list Element) (key : string) (indices : list nat)
    (idx : nat) (t : Element) :
  (key, indices) ∈ grid_groups tables → idx ∈ indices → tables !! idx = Some t →
  PyStr.str_tuple (_table_grid t) = key.
Proof.
  intros Hg Hidx Ht. apply grid_groups_elem in Hg as [-> _].
  apply indices_from_elem in Hidx as (k & t' & -> & Hk & <-).
  simpl in Ht. rewrite Ht in Hk. by injection Hk as <-.
Qed.

Lemma bind_nil_all {A B : Type} (f : A → list B) (l : list A) :
  (∀ x, x ∈ l → f x = []) → l ≫= f = [].
Proof.
  induction l as [|x l IH]; intros Hall; [done|].
  rewrite bind_cons, Hall, IH; [done| |by left].
  intros y Hy. apply Hall. by right.
Qed.

(** The grids of a group are all equal to the first one, so the
    [grid differs] loop appends nothing. *)
Lemma family_issues_spec (tables : list Element) (key : string) (indices : list nat) r :
  (key, indices) ∈ grid_groups tables →
  family_issues tables indices = Some r →
  ∃ ref_idx ref_tbl ms,
    head indices = Some ref_idx
    ∧ tables !! ref_idx = Some ref_tbl
    ∧ mapM (member_issues tables ref_idx (El.findall ref_tbl (W "tr"))) (tail indices)
      = Some ms
    ∧ r = concat ms.
Proof.
  intros Hg. unfold family_issues. intros H.
  destruct (mapM _ indices) as [grids|] eqn:Hgrids; simpl in H; [|done].
  destruct (head grids) as [first_grid|] eqn:Hfirst; simpl in H; [|done].
  destruct (head indices) as [ref_idx|] eqn:Href; simpl in H; [|done].
  destruct (tables !! ref_idx) as [ref_tbl|] eqn:Hreft; simpl in H; [|done].
  destruct (mapM _ (tail indices)) as [ms|] eqn:Hms; simpl in H; [|done].
  injection H as <-. exists ref_idx, ref_tbl, ms. split_and!; [done..|].
  apply mapM_Some in Hgrids.
  assert (∀ k idx g, indices !! k = Some idx → grids !! k = Some g →
                     PyStr.str_tuple g = key) as Hkey.
  { intros k idx g Hk Hgk.
    pose proof (Forall2_lookup_lr _ _ _ _ _ _ Hgrids Hk Hgk) as Hlk.
    apply fmap_Some in Hlk as (t & Ht & ->).
    eapply group_grid; [exact Hg| |exact Ht]. by eapply list_elem_of_lookup_2. }
  rewrite bind_nil_all; [done|].
  intros [idx g] Hin. apply list_elem_of_lookup in Hin as [k Hk].
  apply lookup_zip_Some in Hk as [Hidx Hgk]. unfold grid_differs. simpl.
  rewrite decide_False; [done|]. intros Hne. apply Hne.
  apply str_tuple_inj. rewrite (Hkey k idx g Hidx Hgk).
  rewrite head_lookup in Hfirst. rewrite head_lookup in Href.
  by rewrite (Hkey 0 ref_idx first_grid).
Qed.

(** C10.  No run reports a grid-differs issue for a member of a
    loop-expansion family: the members of a group have equal grouping
    keys, and the key determines the grid. *)
Theorem grid_differs_unreachable (tpl out : Docx) (rep : Report) :
  cmd_compare tpl out = Some rep →
  filter is_grid_differs (r_issues rep) = []
  ∧ ∀ idx first_grid g, ForGridDiffers idx first_grid g ∉ r_issues rep.
Proof.
  intros Hrun.
  assert (filter is_grid_differs (r_issues rep) = []) as Hnone.
  { destruct (issues_of_loop_expansion _ _ _ Hrun is_grid_differs) as (pf & H5 & ->).
    { by intros []. }
    eapply mapM_concat_filter_nil; [exact H5|].
    intros [key indices] r Hfam Hr. simpl in Hr.
    apply list_elem_of_filter in Hfam as [_ Hg].
    destruct (family_issues_spec _ _ _ _ Hg Hr) as (ref_idx & ref_tbl & ms & _ & _ & Hms & ->).
    eapply (filter_Forall_nil (λ i, is_grid_differs i = false)).
    - eapply mapM_concat_Forall; [exact Hms|]. intros idx r _ Hr'.
      eapply Forall_impl; [by eapply member_issues_check|]. by intros [] [? ?].
    - intros [] ?; simpl; try done; tauto. }
  split; [done|]. intros idx first_grid g Hin.
  eapply (filter_nil_not_elem_of is_grid_differs); [exact Hnone| |exact Hin]. done.
Qed.

Lemma grid_differs_unreachable_witness :
  ∃ rep,
    cmd_compare three_and_two three_and_two = Some rep
    ∧ loop_families (tables_of three_and_two) = [("('100', '200')", [0; 2; 4])]
    ∧ filter is_grid_differs (r_issues rep) = [].
Proof.
  assert (∃ rep, cmd_compare three_and_two three_and_two = Some rep) as [rep Hrun].
  { vm_compute. eauto. }
  exists rep. split; [exact Hrun|]. split; [by vm_compute|].
  exact (proj1 (grid_differs_unreachable _ _ _ Hrun)).
Defined.

Lemma family_members_only (tables : list Element) (key : string) (indices : list nat) r :
  (key, indices) ∈ grid_groups tables →
  family_issues tables indices = Some r →
  Forall (λ i, ∃ idx, idx ∈ tail indices ∧ for_cell_count_in idx i) r.
Proof.
  intros Hg Hr.
  destruct (family_issues_spec _ _ _ _ Hg Hr) as (ref_idx & ref_tbl & ms & _ & _ & Hms & ->).
  eapply mapM_concat_Forall; [exact Hms|]. intros idx r Hidx Hr'.
  eapply Forall_impl; [by eapply member_issues_check|].
  intros i [_ Hi]. by exists idx.
Qed.

Lemma groups_disjoint (tables : list Element) (g g' : string * list nat) (idx : nat) :
  g ∈ grid_groups tables → g' ∈ grid_groups tables →
  idx ∈ g.2 → idx ∈ g'.2 → g = g'.
Proof.
  intros Hg Hg' Hi Hi'.
  assert (is_Some (tables !! idx)) as [t Ht].
  { destruct g as [key l]. apply grid_groups_elem in Hg as [-> _].
    apply indices_from_elem in Hi as (k & t & -> & Hk & _). eauto. }
  destruct (group_of_table _ _ _ Ht) as (_ & _ & Huniq).
  by rewrite (Huniq g), (Huniq g').
Qed.

Lemma group_indices_NoDup (tables : list Element) (g : string * list nat) :
  g ∈ grid_groups tables → NoDup g.2.
Proof.
  destruct g as [key l]. intros [-> _]%grid_groups_elem. apply indices_from_NoDup.
Qed.

Lemma tail_elem {A : Type} (l : list A) (x : A) : x ∈ tail l → x ∈ l.
Proof. destruct l; [done|]. by right. Qed.

Lemma NoDup_tail {A : Type} (l : list A) : NoDup l → NoDup (tail l).
Proof. destruct 1; [constructor|done]. Qed.

(** The loop-expansion issues a run reports for member [idx] of a family
    are those of its own comparison with the reference. *)
Lemma issues_of_member (tpl out : Docx) (rep : Report) (g : string * list nat)
    (ref_idx idx : nat) (ref_tbl : Element)
    (P : Issue → Prop) `{!∀ i, Decision (P i)} :
  cmd_compare tpl out = Some rep →
  g ∈ loop_families (tables_of out) →
  head g.2 = Some ref_idx → idx ∈ tail g.2 →
  tables_of out !! ref_idx = Some ref_tbl →
  (∀ i, P i → for_cell_count_in idx i) →
  ∃ r, member_issues (tables_of out) ref_idx (El.findall ref_tbl (W "tr")) idx = Some r
       ∧ filter P (r_issues rep) = filter P r.
Proof.
  intros Hrun Hfam Href Hidx Hreft HP.
  assert (∀ idx' r, idx' ≠ idx →
            Forall (λ i, ∃ j, j = idx' ∧ for_cell_count_in j i) r → filter P r = [])
    as Hother.
  { intros idx' r Hne Hr. eapply (filter_Forall_nil _ _ _ Hr).
    intros [] (j & -> & Hj) Hp; try done. apply HP in Hp. simpl in *.
    apply bool_decide_unpack in Hj, Hp. congruence. }
  destruct (issues_of_loop_expansion _ _ _ Hrun P) as (pf & H5 & ->).
  { intros [] Hp; try done; by apply HP in Hp. }
  pose proof Hfam as Hg. apply list_elem_of_filter in Hg as [_ Hg].
  pose proof Hfam as Hk. apply list_elem_of_lookup in Hk as [k Hk].
  destruct (mapM_concat_filter_at _ P _ _ _ _ H5 Hk) as (r & Hr & ->).
  { intros j [key' l'] r Hne Hj Hr. simpl in Hr.
    assert ((key', l') ∈ grid_groups (tables_of out)) as Hg'.
    { apply list_elem_of_lookup_2 in Hj. by apply list_elem_of_filter in Hj as [_ ?]. }
    eapply (filter_Forall_nil _ _ _ (family_members_only _ _ _ _ Hg' Hr)).
    intros i (idx' & Hidx' & Hi) Hp. apply HP in Hp.
    assert (idx' = idx) as ->.
    { destruct i; try done. simpl in *. apply bool_decide_unpack in Hi, Hp. congruence. }
    assert (g = (key', l')) as Heq.
    { eapply groups_disjoint; [done..|by apply tail_elem|by apply tail_elem]. }
    apply Hne. eapply NoDup_lookup; [|exact Hj|by rewrite <- Heq].
    apply NoDup_filter. eapply NoDup_fmap_1. apply grid_groups_NoDup. }
  simpl in Hr. destruct g as [key indices]. simpl in *.
  destruct (family_issues_spec _ _ _ _ Hg Hr)
    as (ref_idx' & ref_tbl' & ms & Href' & Hreft' & Hms & ->).
  rewrite Href in Href'. injection Href' as <-.
  rewrite Hreft in Hreft'. injection Hreft' as <-.
  apply list_elem_of_lookup in Hidx as [m Hm].
  destruct (mapM_concat_filter_at _ P _ _ _ _ Hms Hm) as (r & Hr' & ->).
  { intros j idx' r Hne Hj Hr'. apply (Hother idx').
    - intros ->. apply Hne. eapply NoDup_lookup; [|exact Hj|exact Hm].
      apply NoDup_tail. exact (group_indices_NoDup _ _ Hg).
    - eapply Forall_impl; [by eapply member_issues_check|].
      intros i [_ Hi]. by exists idx'. }
  by exists r.
Qed.

Lemma for_row_issues_spec (idx ref_idx ri : nat) (rows : Element * Element) r :
  for_row_issues idx ref_idx ri rows = Some r →
  r = if decide (length (El.findall rows.1 (W "tc")) ≠ length (El.findall rows.2 (W "tc")))
      then [ForCellCount idx ri (length (El.findall rows.2 (W "tc"))) ref_idx
                         (length (El.findall rows.1 (W "tc")))]
      else [].
Proof.
  unfold for_row_issues. intros Hr.
  destruct (_row_cell_widths rows.1) as [rcw|] eqn:H1; simpl in Hr; [|done].
  destruct (_row_cell_widths rows.2) as [ccw|] eqn:H2; simpl in Hr; [|done].
  apply _row_cell_widths_length in H1, H2. rewrite H1, H2 in Hr.
  by injection Hr as <-.
Qed.

(** C7 (as amended).  In a loop-expansion family, a member other than
    the reference that has as many rows as the reference is compared
    with it row by row: a run reports exactly one family cell-count
    issue for each row whose number of cells differs from that of the
    reference's row, and none for the other rows.  A member whose number
    of rows differs from the reference's gets no family cell-count issue.
    These issues belong to the loop-expansion check, not to the
    per-table diff. *)
Theorem family_cell_counts (tpl out : Docx) (rep : Report) (g : string * list nat)
    (ref_idx idx : nat) (ref_tbl tbl : Element) :
  cmd_compare tpl out = Some rep →
  g ∈ loop_families (tables_of out) →
  head g.2 = Some ref_idx → idx ∈ tail g.2 →
  tables_of out !! ref_idx = Some ref_tbl →
  tables_of out !! idx = Some tbl →
  (length (El.findall tbl (W "tr")) = length (El.findall ref_tbl (W "tr")) →
   ∀ ri ref_row row,
     El.findall ref_tbl (W "tr") !! ri = Some ref_row →
     El.findall tbl (W "tr") !! ri = Some row →
     filter (for_cell_count_at idx ri) (r_issues rep)
     = if decide (length (El.findall ref_row (W "tc")) ≠ length (El.findall row (W "tc")))
       then [ForCellCount idx ri (length (El.findall row (W "tc"))) ref_idx
                          (length (El.findall ref_row (W "tc")))]
       else [])
  ∧ (length (El.findall tbl (W "tr")) ≠ length (El.findall ref_tbl (W "tr")) →
     filter (for_cell_count_in idx) (r_issues rep) = [])
  ∧ (∀ i, for_cell_count_in idx i →
          check_of i = LoopExpansion ∧ ∀ ti, ¬ diff_at_table ti i).
Proof.
  intros Hrun Hfam Href Hidx Hreft Htbl. split_and!.
  - intros Hlen ri ref_row row Hrr Hrow.
    destruct (issues_of_member _ _ _ _ _ _ _ (for_cell_count_at idx ri)
                Hrun Hfam Href Hidx Hreft) as (r & Hr & ->).
    { intros [] Hi; try done. simpl in *. apply bool_decide_unpack in Hi as [-> _].
      by apply bool_decide_pack. }
    unfold member_issues in Hr. rewrite Htbl in Hr. simpl in Hr.
    rewrite decide_False in Hr by (intros ?; congruence).
    assert (zip (El.findall ref_tbl (W "tr")) (El.findall tbl (W "tr")) !! ri
            = Some (ref_row, row)) as Hz by (by apply lookup_zip_Some).
    destruct (for_from_filter_at _ (for_cell_count_at idx ri) _ _ _ _ _ Hr Hz)
      as (r' & Hr' & ->).
    { intros j y r0 Hne _ Hr0. simpl in Hr0.
      eapply (filter_Forall_nil _ _ _ (for_row_issues_check _ _ _ _ _ Hr0)).
      intros [] [_ Hj] Hi; try done. simpl in *.
      apply bool_decide_unpack in Hj, Hi. destruct Hi, Hj. congruence. }
    simpl in Hr'. rewrite (for_row_issues_spec _ _ _ _ _ Hr'). simpl.
    case_decide; [|done]. rewrite filter_cons_True; [done|].
    by apply bool_decide_pack.
  - intros Hlen.
    destruct (issues_of_member _ _ _ _ _ _ _ (for_cell_count_in idx)
                Hrun Hfam Href Hidx Hreft) as (r & Hr & ->); [done|].
    unfold member_issues in Hr. rewrite Htbl in Hr. simpl in Hr.
    rewrite decide_True in Hr by done. by injection Hr as <-.
  - intros [] Hi; try done. split; [done|]. intros ti. simpl. tauto.
Qed.

Lemma family_cell_counts_witness :
  ∃ rep,
    cmd_compare level_family level_family = Some rep
    ∧ loop_families (tables_of level_family) = [("('100', '200')", [0; 1; 2])]
    ∧ filter (for_cell_count_at 1 0) (r_issues rep) = [ForCellCount 1 0 1 0 2]
    ∧ filter (for_cell_count_at 2 0) (r_issues rep) = [].
Proof.
  assert (∃ rep, cmd_compare level_family level_family = Some rep) as [rep Hrun].
  { vm_compute. eauto. }
  assert (loop_families (tables_of level_family) = [("('100', '200')", [0; 1; 2])])
    as Hfam by (by vm_compute).
  assert (("('100', '200')", [0; 1; 2]) ∈ loop_families (tables_of level_family))
    as Hin by (rewrite Hfam; left).
  exists rep. split; [exact Hrun|]. split; [exact Hfam|].
  destruct (family_cell_counts _ _ _ _ 0 1 _ _ Hrun Hin eq_refl
              ltac:(simpl; left) eq_refl eq_refl) as (H1 & _ & _).
  destruct (family_cell_counts _ _ _ _ 0 2 _ _ Hrun Hin eq_refl
              ltac:(simpl; right; left) eq_refl eq_refl) as (H2 & _ & _).
  split.
  - exact (H1 eq_refl 0 _ _ eq_refl eq_refl).
  - exact (H2 eq_refl 0 _ _ eq_refl eq_refl).
Defined.

(** C7 as stated fails: a member with another number of rows than the
    reference is not compared at all, whatever its cell counts. *)
Lemma family_cell_counts_counterexample :
  ∃ rep,
    cmd_compare ragged_family ragged_family = Some rep
    ∧ loop_families (tables_of ragged_family) = [("('100', '200')", [0; 1; 2])]
    ∧ (λ t, (λ row, length (El.findall row (W "tc"))) <$> El.findall t (W "tr"))
        <$> tables_of ragged_family = [[2]; [1; 2]; [2]]
    ∧ filter is_for_cell_count (r_issues rep) = [].
Proof. vm_compute. eexists. repeat split. Qed.

(** ** A run completes unless a span is not an integer *)

Lemma bind_is_Some {A B : Type} (mx : option A) (f : A → option B) :
  is_Some mx → (∀ x, mx = Some x → is_Some (f x)) → is_Some (mx ≫= f).
Proof. intros [x ->] Hf. simpl. by apply Hf. Qed.

Lemma zip_rows_parse (path1 path2 : Docx) (t1 t2 : Element) k (rows : Element * Element) :
  spans_parse path1 → spans_parse path2 →
  t1 ∈ tables_of path1 → t2 ∈ tables_of path2 →
  zip (El.findall t1 (W "tr")) (El.findall t2 (W "tr")) !! k = Some rows →
  is_Some (_row_cell_widths rows.1) ∧ is_Some (_row_cell_widths rows.2).
Proof.
  intros H1 H2 Ht1 Ht2 Hk. destruct rows as [r1 r2].
  apply lookup_zip_Some in Hk as [Hr1 Hr2]. simpl. split.
  - eapply H1; [exact Ht1|]. by eapply list_elem_of_lookup_2.
  - eapply H2; [exact Ht2|]. by eapply list_elem_of_lookup_2.
Qed.

Lemma table_issues_completes (tpl out : Docx) (ti : nat) (t : Element) :
  spans_parse tpl → spans_parse out → t ∈ tables_of tpl →
  is_Some (table_issues (tables_of out) ti t).
Proof.
  intros Htpl Hout Ht. unfold table_issues.
  destruct (skip_label _); [eauto|].
  destruct (_find_table_in_output _ _ _) as [oi|] eqn:Hfind; [|eauto].
  destruct (find_table_lt _ _ _ _ Hfind) as [out_tbl Ho]. rewrite Ho. simpl.
  apply bind_is_Some; [|eauto].
  apply for_from_is_Some. intros k rows Hk. unfold row_issues.
  assert (out_tbl ∈ tables_of out) as Hin by (by eapply list_elem_of_lookup_2).
  destruct (zip_rows_parse tpl out t out_tbl k rows Htpl Hout Ht Hin Hk)
    as [[c1 ->] [c2 ->]].
  simpl. eauto.
Qed.

Lemma group_index_valid (tables : list Element) (g : string * list nat) (idx : nat) :
  g ∈ grid_groups tables → idx ∈ g.2 → is_Some (tables !! idx).
Proof.
  destruct g as [key l]. intros [-> _]%grid_groups_elem Hidx.
  apply indices_from_elem in Hidx as (k & t & -> & Hk & _). eauto.
Qed.

Lemma member_issues_completes (out : Docx) (ref_idx idx : nat) (ref_tbl : Element) :
  spans_parse out → ref_tbl ∈ tables_of out → is_Some (tables_of out !! idx) →
  is_Some (member_issues (tables_of out) ref_idx (El.findall ref_tbl (W "tr")) idx).
Proof.
  intros Hout Href [tbl Htbl]. unfold member_issues. rewrite Htbl. simpl.
  case_decide; [eauto|].
  apply for_from_is_Some. intros k rows Hk. unfold for_row_issues.
  assert (tbl ∈ tables_of out) as Hin by (by eapply list_elem_of_lookup_2).
  destruct (zip_rows_parse out out ref_tbl tbl k rows Hout Hout Href Hin Hk)
    as [[c1 ->] [c2 ->]].
  simpl. eauto.
Qed.

Lemma family_issues_completes (out : Docx) (g : string * list nat) :
  spans_parse out → g ∈ grid_groups (tables_of out) →
  is_Some (family_issues (tables_of out) g.2).
Proof.
  intros Hout Hg. unfold family_issues.
  assert (g.2 ≠ []) as Hne.
  { destruct g as [key l]. by apply grid_groups_elem in Hg as [_ ?]. }
  destruct g.2 as [|ref_idx rest] eqn:Hidx; [done|].
  assert (∀ idx, idx ∈ ref_idx :: rest → is_Some (tables_of out !! idx)) as Hvalid.
  { intros idx Hin. eapply group_index_valid; [exact Hg|]. by rewrite Hidx. }
  destruct (mapM (λ i, _table_grid <$> tables_of out !! i) (ref_idx :: rest))
    as [grids|] eqn:Hgrids.
  2:{ apply mapM_None in Hgrids. apply Exists_exists in Hgrids as (idx & Hin & Hnone).
      destruct (Hvalid idx Hin) as [t Ht]. by rewrite Ht in Hnone. }
  simpl. pose proof (mapM_Some_1 _ _ _ Hgrids) as Hlen%Forall2_length.
  destruct grids as [|first_grid grids]; [done|]. simpl.
  destruct (Hvalid ref_idx) as [ref_tbl Href]; [by left|]. rewrite Href. simpl.
  apply bind_is_Some; [|eauto].
  apply mapM_is_Some, Forall_forall. intros idx Hin. simpl.
  apply member_issues_completes; [done| |apply Hvalid; by right].
  by eapply list_elem_of_lookup_2.
Qed.

Lemma family_line_completes (out : Docx) (g : string * list nat) :
  g ∈ grid_groups (tables_of out) → is_Some (family_line (tables_of out) g).
Proof.
  intros Hg. unfold family_line.
  assert (g.2 ≠ []) as Hne.
  { destruct g as [key l]. by apply grid_groups_elem in Hg as [_ ?]. }
  destruct g.2 as [|ref_idx rest] eqn:Hidx; [done|]. simpl.
  destruct (group_index_valid _ _ ref_idx Hg) as [t Ht]; [rewrite Hidx; by left|].
  rewrite Ht. simpl. eauto.
Qed.

Lemma span_table_issues_completes (out : Docx) (i : nat) (tbl : Element) :
  spans_parse out → spans_print out → tbl ∈ tables_of out →
  is_Some (span_table_issues i tbl).
Proof.
  intros Hout Hprint Htbl. unfold span_table_issues. case_decide; [eauto|].
  apply for_from_is_Some. intros k row Hk. unfold span_row_issues.
  apply list_elem_of_lookup_2 in Hk.
  destruct (Hout tbl row Htbl Hk) as [cells Hcells]. rewrite Hcells. simpl.
  rewrite (Hprint tbl row cells Htbl Hk Hcells). case_decide; eauto.
Qed.

(** A run ends without an exception whenever every [gridSpan] of every
    table row of the two documents is an integer literal and the span
    total of every row of the output can be formatted. *)
Lemma cmd_compare_completes (tpl out : Docx) :
  spans_parse tpl → spans_parse out → spans_print out →
  is_Some (cmd_compare tpl out).
Proof.
  intros Htpl Hout Hprint. unfold cmd_compare. fold (tables_of tpl). fold (tables_of out).
  destruct (for_from_is_Some (table_issues (tables_of out)) 0 (tables_of tpl))
    as [issues4 ->].
  { intros k t Hk. apply (table_issues_completes tpl out); [done..|].
    by eapply list_elem_of_lookup_2. }
  simpl.
  destruct (mapM (λ g, family_issues (tables_of out) g.2) (loop_families (tables_of out)))
    as [per_family|] eqn:Hpf.
  2:{ apply mapM_None in Hpf. apply Exists_exists in Hpf as (g & Hin & Hnone).
      apply list_elem_of_filter in Hin as [_ Hg].
      destruct (family_issues_completes out g Hout Hg) as [r Hr]. simpl in Hnone.
      by rewrite Hr in Hnone. }
  simpl.
  destruct (mapM (family_line (tables_of out)) (loop_families (tables_of out)))
    as [families|] eqn:Hfl.
  2:{ apply mapM_None in Hfl. apply Exists_exists in Hfl as (g & Hin & Hnone).
      apply list_elem_of_filter in Hin as [_ Hg].
      destruct (family_line_completes out g Hg) as [r Hr]. by rewrite Hr in Hnone. }
  simpl.
  destruct (for_from_is_Some span_table_issues 0 (tables_of out)) as [issues6 ->].
  { intros k t Hk. apply (span_table_issues_completes out); [done..|].
    by eapply list_elem_of_lookup_2. }
  simpl. eauto.
Qed.

(** ** The command pattern

    The four cases of a leftmost attempt of [\{([^}]+)\}]: no opening
    brace; an opening brace followed by a non-empty text without a
    closing brace and then a closing brace; an opening brace closed at
    once; an opening brace never closed. *)

Lemma append_Empty_r (s : string) : s +:+ EmptyString = s.
Proof. induction s as [|c s IH]; [done|]. by rewrite append_String, IH. Qed.

Lemma scan_outside (pre s : string) :
  PyStr.has_char "{" pre = false →
  scan_commands None (pre +:+ s) = scan_commands None s.
Proof.
  induction pre as [|c pre IH]; [done|]. cbn [PyStr.has_char].
  intros [Hc Hpre]%orb_false_iff. rewrite append_String. cbn [scan_commands].
  rewrite Hc. by apply IH.
Qed.

Lemma scan_inside (opened g s : string) :
  PyStr.has_char "}" g = false →
  scan_commands (Some opened) (g +:+ s) = scan_commands (Some (opened +:+ g)) s.
Proof.
  revert opened. induction g as [|c g IH]; intros opened.
  - by rewrite append_Empty, append_Empty_r.
  - cbn [PyStr.has_char]. intros [Hc Hg]%orb_false_iff.
    rewrite append_String. cbn [scan_commands]. rewrite Hc, IH by done.
    by rewrite append_assoc.
Qed.

Lemma finditer_no_open (s : string) :
  PyStr.has_char "{" s = false → finditer s = [].
Proof.
  intros H. unfold finditer. rewrite <- (append_Empty_r s).
  by rewrite scan_outside.
Qed.

Lemma finditer_match (pre g rest : string) :
  PyStr.has_char "{" pre = false → g ≠ EmptyString → PyStr.has_char "}" g = false →
  finditer (pre +:+ "{" +:+ g +:+ "}" +:+ rest) = g :: finditer rest.
Proof.
  intros Hpre Hne Hg. unfold finditer. rewrite scan_outside by done.
  rewrite append_String, append_Empty. cbn [scan_commands]. simpl.
  rewrite scan_inside by done. rewrite append_Empty, append_String, append_Empty.
  cbn [scan_commands]. simpl. by destruct g.
Qed.

Lemma finditer_empty_braces (pre rest : string) :
  PyStr.has_char "{" pre = false →
  finditer (pre +:+ "{}" +:+ rest) = finditer rest.
Proof. intros Hpre. unfold finditer. by rewrite scan_outside. Qed.

Lemma finditer_unclosed (pre g : string) :
  PyStr.has_char "{" pre = false → PyStr.has_char "}" g = false →
  finditer (pre +:+ "{" +:+ g) = [].
Proof.
  intros Hpre Hg. unfold finditer. rewrite scan_outside by done.
  rewrite append_String, append_Empty. cbn [scan_commands]. simpl.
  rewrite <- (append_Empty_r g). by rewrite scan_inside.
Qed.

(** * Further properties of the compare command *)

(** ** When a run completes *)

Lemma spans_parse_Forall (path : Docx) :
  spans_parse path ↔
  Forall (λ tbl, Forall (λ row, is_Some (_row_cell_widths row)) (El.findall tbl (W "tr")))
         (tables_of path).
Proof.
  unfold spans_parse. rewrite Forall_forall. split.
  - intros H tbl Htbl. apply Forall_forall. intros row Hrow.
    exact (H tbl row Htbl Hrow).
  - intros H tbl row Htbl Hrow. specialize (H tbl Htbl).
    rewrite Forall_forall in H. exact (H row Hrow).
Qed.

Lemma spans_print_Forall (path : Docx) :
  spans_print path ↔
  Forall (λ tbl,
            Forall (λ row,
                      default true
                        ((λ cells, PyStr.str_int_fits (total_span cells))
                         <$> _row_cell_widths row) = true)
                   (El.findall tbl (W "tr")))
         (tables_of path).
Proof.
  unfold spans_print. rewrite Forall_forall. split.
  - intros H tbl Htbl. apply Forall_forall. intros row Hrow.
    destruct (_row_cell_widths row) as [cells|] eqn:Hcells; [|done].
    exact (H tbl row cells Htbl Hrow Hcells).
  - intros H tbl row cells Htbl Hrow Hcells. specialize (H tbl Htbl).
    rewrite Forall_forall in H. specialize (H row Hrow).
    by rewrite Hcells in H.
Qed.

(** X1.  A run ends without an exception when the two documents have
    only integer literals as [gridSpan] values and the span total of
    every row of the output has at most 4300 digits, the most that can be
    formatted; the header counts of its report are the numbers of tables,
    paragraphs and commands of the template and of the output. *)
Theorem compare_completes (tpl out : Docx) :
  spans_parse tpl → spans_parse out → spans_print out →
  ∃ rep, cmd_compare tpl out = Some rep
         ∧ r_tables rep = (length (tables_of tpl), length (tables_of out))
         ∧ r_paragraphs rep = (length (extract_paras tpl), length (extract_paras out))
         ∧ r_commands rep = (length (find_commands tpl), length (find_commands out)).
Proof.
  intros Htpl Hout Hprint.
  destruct (cmd_compare_completes tpl out Htpl Hout Hprint) as [rep Hrun].
  exists rep. split; [done|]. revert Hrun. unfold cmd_compare.
  fold (tables_of tpl). fold (tables_of out). intros H.
  destruct (for_from (table_issues _) 0 _) as [issues4|]; simpl in H; [|done].
  destruct (mapM (λ g, family_issues _ g.2) _) as [per_family|]; simpl in H; [|done].
  destruct (mapM (family_line _) _) as [families|]; simpl in H; [|done].
  destruct (for_from span_table_issues 0 _) as [issues6|]; simpl in H; [|done].
  by injection H as <-.
Qed.

Lemma compare_completes_witness :
  ∃ rep, cmd_compare distinct_labels three_and_two = Some rep
         ∧ r_tables rep = (2, 5) ∧ r_commands rep = (1, 0).
Proof.
  assert (spans_parse distinct_labels) as H1.
  { apply spans_parse_Forall. apply (bool_decide_unpack _). by vm_compute. }
  assert (spans_parse three_and_two) as H2.
  { apply spans_parse_Forall. apply (bool_decide_unpack _). by vm_compute. }
  assert (spans_print three_and_two) as H3.
  { apply spans_print_Forall. apply (bool_decide_unpack _). by vm_compute. }
  destruct (compare_completes _ _ H1 H2 H3) as (rep & Hrun & Ht & _ & Hc).
  exists rep. split; [exact Hrun|]. rewrite Ht, Hc. split; by vm_compute.
Defined.

Lemma cell_info_None (cell tc_pr gs : Element) :
  El.find cell (W "tcPr") = Some tc_pr →
  El.find tc_pr (W "gridSpan") = Some gs →
  PyStr.int (El.get_or gs (W "val") "1") = None →
  cell_info cell = None.
Proof.
  intros Hpr Hgs Hint. unfold cell_info. rewrite Hpr, Hgs, Hint.
  by destruct (El.find tc_pr (W "tcW")).
Qed.

(** X2.  A [gridSpan] value that is no integer literal, in a row of an
    output table with a non-empty grid, makes the run raise instead of
    ending, whatever the template is. *)
Theorem compare_aborts_on_bad_span (tpl out : Docx) (tbl row cell tc_pr gs : Element) :
  tbl ∈ tables_of out → _table_grid tbl ≠ [] →
  row ∈ El.findall tbl (W "tr") → cell ∈ El.findall row (W "tc") →
  El.find cell (W "tcPr") = Some tc_pr →
  El.find tc_pr (W "gridSpan") = Some gs →
  PyStr.int (El.get_or gs (W "val") "1") = None →
  cmd_compare tpl out = None.
Proof.
  intros Htbl Hgrid Hrow Hcell Hpr Hgs Hint.
  assert (_row_cell_widths row = None) as Hnone.
  { unfold _row_cell_widths. apply mapM_None, Exists_exists.
    exists cell. split; [done|]. by eapply cell_info_None. }
  destruct (cmd_compare tpl out) as [rep|] eqn:Hrun; [exfalso|done].
  destruct (cmd_compare_Some _ _ _ Hrun) as (_ & _ & i6 & _ & _ & H6 & _).
  apply list_elem_of_lookup in Htbl as [i Hi]. apply list_elem_of_lookup in Hrow as [ri Hri].
  destruct (for_from_Some_body _ _ _ _ _ _ H6 Hi) as [r Hr].
  unfold span_table_issues in Hr.
  rewrite decide_False in Hr by (by destruct (_table_grid tbl)).
  destruct (for_from_Some_body _ _ _ _ _ _ Hr Hri) as [r' Hr'].
  unfold span_row_issues in Hr'. by rewrite Hnone in Hr'.
Qed.

Lemma compare_aborts_on_bad_span_witness :
  PyStr.int "two" = None ∧ cmd_compare distinct_labels bad_span_doc = None.
Proof.
  split; [reflexivity|].
  eapply (compare_aborts_on_bad_span distinct_labels bad_span_doc
            (Fixture.tbl ["100"] [Fixture.tr [Fixture.tc_span "two" "A"]])
            (Fixture.tr [Fixture.tc_span "two" "A"])
            (Fixture.tc_span "two" "A")
            (Fixture.el "tcPr" [Fixture.attr_el "gridSpan" "val" "two"])
            (Fixture.attr_el "gridSpan" "val" "two")).
  - vm_compute. left.
  - by vm_compute.
  - vm_compute. left.
  - vm_compute. left.
  - by vm_compute.
  - by vm_compute.
  - by vm_compute.
Defined.

(** X30.  A row of an output table with a non-empty grid whose spans are
    all integer literals, but add up to a total of more than 4300 digits
    that is not the number of grid columns, makes the run raise instead of
    ending, whatever the template is: the total cannot be formatted for
    the issue. *)
Theorem compare_aborts_on_long_total (tpl out : Docx) (tbl row : Element)
    (cells : list CellInfo) :
  tbl ∈ tables_of out → _table_grid tbl ≠ [] →
  row ∈ El.findall tbl (W "tr") →
  _row_cell_widths row = Some cells →
  total_span cells ≠ Z.of_nat (length (_table_grid tbl)) →
  (PyStr.int_str_bound ≤ Z.abs (total_span cells))%Z →
  cmd_compare tpl out = None.
Proof.
  intros Htbl Hgrid Hrow Hcells Hne Hlong.
  destruct (cmd_compare tpl out) as [rep|] eqn:Hrun; [exfalso|done].
  destruct (cmd_compare_Some _ _ _ Hrun) as (_ & _ & i6 & _ & _ & H6 & _).
  apply list_elem_of_lookup in Htbl as [i Hi]. apply list_elem_of_lookup in Hrow as [ri Hri].
  destruct (for_from_Some_body _ _ _ _ _ _ H6 Hi) as [r Hr].
  unfold span_table_issues in Hr.
  rewrite decide_False in Hr by (by destruct (_table_grid tbl)).
  destruct (for_from_Some_body _ _ _ _ _ _ Hr Hri) as [r' Hr'].
  unfold span_row_issues in Hr'. rewrite Hcells in Hr'. simpl in Hr'.
  rewrite decide_True in Hr' by done.
  unfold PyStr.str_int_fits in Hr'.
  by rewrite (proj2 (Z.ltb_ge _ _) Hlong) in Hr'.
Qed.

Lemma compare_aborts_on_long_total_witness :
  cmd_compare distinct_labels long_total_doc = None.
Proof.
  eapply (compare_aborts_on_long_total distinct_labels long_total_doc
            (Fixture.tbl ["100"]
               [Fixture.tr [Fixture.tc_span (nines 4300) "A";
                            Fixture.tc_span (nines 4300) "B"]])
            (Fixture.tr [Fixture.tc_span (nines 4300) "A";
                         Fixture.tc_span (nines 4300) "B"])
            [{| cw_w := "?"; cw_type := "?"; cw_span := PyStr.int_str_bound - 1 |};
             {| cw_w := "?"; cw_type := "?"; cw_span := PyStr.int_str_bound - 1 |}]).
  - vm_compute. left.
  - by vm_compute.
  - vm_compute. left.
  - vm_compute. reflexivity.
  - vm_compute. discriminate.
  - vm_compute. discriminate.
Defined.

(** ** References without a definition *)

Lemma filter_eq_NoDup {A : Type} `{EqDecision A} (l : list A) (x : A) :
  NoDup l → filter (λ y, y = x) l = if decide (x ∈ l) then [x] else [].
Proof.
  induction 1 as [|y l Hy _ IH]; [done|].
  rewrite filter_cons, IH. destruct (decide (y = x)) as [->|Hne].
  - rewrite decide_False by done. rewrite decide_True; [done|by left].
  - destruct (decide (x ∈ l)) as [Hin|Hin].
    + rewrite decide_True; [done|by right].
    + rewrite decide_False; [done|]. intros [?|?]%elem_of_cons; congruence.
Qed.

Lemma filter_undefined_fmap (fid : string) (l : list string) :
  filter (is_undefined_of fid) (FootnoteUndef <$> l)
  = FootnoteUndef <$> filter (λ y, y = fid) l.
Proof.
  induction l as [|y l IH]; [done|].
  rewrite fmap_cons, !filter_cons, IH. simpl.
  destruct (decide (y = fid)) as [->|Hne].
  - by rewrite bool_decide_eq_true_2.
  - by rewrite bool_decide_eq_false_2.
Qed.

(** X3.  When the footnotes part is absent or unreadable a run reports
    no reference without definition.  When it is read, the run reports
    exactly one such issue for each identifier that is referenced in the
    output and is not the identifier of a footnote of that part, however
    often it is referenced, and none for the other identifiers. *)
Theorem undefined_references (tpl out : Docx) (rep : Report) :
  cmd_compare tpl out = Some rep →
  match footnotes out with
  | None => filter is_undefined (r_issues rep) = []
  | Some fn_xml =>
      ∀ fid,
        filter (is_undefined_of fid) (r_issues rep)
        = if decide (fid ∈ _footnote_refs (read_docx_xml out)
                     ∧ Some fid ∉ footnote_defs fn_xml)
          then [FootnoteUndef fid] else []
  end.
Proof.
  intros Hrun.
  assert (∀ (P : Issue → Prop) `{!∀ i, Decision (P i)},
            (∀ i, P i → is_undefined i) →
            filter P (r_issues rep)
            = filter P (undefined_issues out (_footnote_refs (read_docx_xml out))))
    as Hsel.
  { intros P ? HP. rewrite (issues_of_footnote_check _ _ _ Hrun).
    - rewrite (filter_Forall_nil (λ i, is_undefined i = false)); [done| |].
      + unfold duplicate_issues. apply Forall_forall. intros i Hi.
        apply list_elem_of_bind in Hi as ([f n] & Hi & _).
        case_decide; [|by apply elem_of_nil in Hi].
        by apply list_elem_of_singleton in Hi as ->.
      + intros i Hi Hp. apply HP in Hp. by destruct i.
    - intros i Hp. apply HP in Hp. by destruct i. }
  unfold undefined_issues in Hsel. destruct (footnotes out) as [fn_xml|].
  - intros fid. rewrite Hsel by (by intros []).
    fold (footnote_defs fn_xml).
    rewrite filter_undefined_fmap, filter_eq_NoDup.
    2:{ apply NoDup_filter, NoDup_remove_dups. }
    rewrite (decide_ext _ (fid ∈ _footnote_refs (read_docx_xml out)
                           ∧ Some fid ∉ footnote_defs fn_xml)).
    + by case_decide.
    + rewrite list_elem_of_filter, elem_of_remove_dups. tauto.
  - by rewrite Hsel.
Qed.

Lemma undefined_references_witness :
  ∃ rep,
    cmd_compare dangling_doc dangling_doc = Some rep
    ∧ _footnote_refs (read_docx_xml dangling_doc) = ["1"; "2"; "2"; "5"]
    ∧ footnote_defs (Fixture.el "footnotes"
        [Fixture.attr_el "footnote" "id" "1"; Fixture.attr_el "footnote" "id" "2"])
      = [Some "1"; Some "2"]
    ∧ filter (is_undefined_of "5") (r_issues rep) = [FootnoteUndef "5"]
    ∧ filter (is_undefined_of "2") (r_issues rep) = [].
Proof.
  assert (∃ rep, cmd_compare dangling_doc dangling_doc = Some rep) as [rep Hrun].
  { vm_compute. eauto. }
  exists rep. split; [exact Hrun|]. split; [by vm_compute|]. split; [by vm_compute|].
  pose proof (undefined_references _ _ _ Hrun) as H. simpl in H.
  rewrite (H "5"), (H "2"). split; by vm_compute.
Defined.

(** ** The counters printed beside the issues *)

(** X4.  The number a run prints for the rows whose cell span differs
    from the grid is the number of span-anomaly issues of its report, and
    the number of matched tables it prints is at most the number of
    template tables. *)
Theorem report_counters (tpl out : Docx) (rep : Report) :
  cmd_compare tpl out = Some rep →
  r_row_issues_count rep = length (filter is_span_anomaly (r_issues rep))
  ∧ r_matched rep ≤ (r_tables rep).1.
Proof.
  intros Hrun.
  destruct (issues_of_row_span _ _ _ Hrun is_span_anomaly) as (i6 & H6 & Hsel).
  { by intros []. }
  revert Hrun. unfold cmd_compare. fold (tables_of tpl). fold (tables_of out).
  intros H.
  destruct (for_from (table_issues _) 0 _) as [issues4|]; simpl in H; [|done].
  destruct (mapM (λ g, family_issues _ g.2) _) as [per_family|]; simpl in H; [|done].
  destruct (mapM (family_line _) _) as [families|]; simpl in H; [|done].
  destruct (for_from span_table_issues 0 _) as [issues6|] eqn:E6; simpl in H; [|done].
  injection H as <-. simpl in *. injection H6 as <-. split.
  - rewrite Hsel. f_equal. symmetry.
    assert (Forall (λ i, is_span_anomaly i) issues6) as Hall.
    { eapply for_from_Forall; [exact E6|]. intros k t r _ Hr.
      eapply Forall_impl; [by eapply span_table_issues_check|].
      by intros [] [? ?]. }
    clear -Hall. induction Hall as [|i l Hi _ IH]; [done|].
    by rewrite filter_cons_True, IH.
  - apply length_filter.
Qed.

Lemma report_counters_witness :
  ∃ rep,
    cmd_compare span_doc span_doc = Some rep
    ∧ r_row_issues_count rep = 1
    ∧ length (filter is_span_anomaly (r_issues rep)) = 1.
Proof.
  assert (∃ rep, cmd_compare span_doc span_doc = Some rep
                 ∧ length (filter is_span_anomaly (r_issues rep)) = 1)
    as (rep & Hrun & Hlen).
  { vm_compute. eauto. }
  exists rep. split; [exact Hrun|].
  destruct (report_counters _ _ _ Hrun) as [Hcount _]. rewrite Hcount. by split.
Defined.

(** ** Tables that are skipped, and the table-level diff *)

Lemma contains_spec (needle s : string) :
  PyStr.contains needle s = true ↔ occurs_in needle s.
Proof.
  unfold occurs_in. split.
  - induction s as [|c s IH]; cbn [PyStr.contains].
    + rewrite orb_false_r. intros H. apply (startswith_spec EmptyString) in H as [rest H].
      exists EmptyString, rest. by rewrite append_Empty.
    + intros [H|H]%orb_true_iff.
      * apply (startswith_spec (String c s)) in H as [rest H].
        exists EmptyString, rest. by rewrite append_Empty.
      * destruct (IH H) as (pre & post & ->). exists (String c pre), post.
        by rewrite append_String.
  - intros (pre & post & ->). induction pre as [|c pre IH].
    + rewrite append_Empty.
      assert (String.prefix needle (needle +:+ post) = true) as Hp.
      { apply (startswith_spec (needle +:+ post)). by exists post. }
      destruct (needle +:+ post); cbn [PyStr.contains]; by rewrite Hp.
    + rewrite append_String. cbn [PyStr.contains]. rewrite IH. apply orb_true_r.
Qed.

(** X5.  A template table whose label contains the text of a loop header
    or of a loop variable is skipped: it is not counted as matched and no
    run reports a per-table diff issue for it, even when an output table
    carries the same label. *)
Theorem skipped_tables (tpl out : Docx) (ti : nat) (tpl_tbl : Element) :
  tables_of tpl !! ti = Some tpl_tbl →
  occurs_in "{FOR" (_table_label tpl_tbl) ∨ occurs_in "{$" (_table_label tpl_tbl) →
  table_matched (tables_of out) tpl_tbl = false
  ∧ ∀ rep, cmd_compare tpl out = Some rep →
           filter (diff_at_table ti) (r_issues rep) = [].
Proof.
  intros Ht Hlabel.
  assert (skip_label (_table_label tpl_tbl) = true) as Hskip.
  { unfold skip_label. apply orb_true_iff.
    destruct Hlabel as [H|H]; [left|right]; by apply contains_spec. }
  split.
  - unfold table_matched. by rewrite Hskip.
  - intros rep Hrun. destruct (issues_at_table _ _ _ _ _ Hrun Ht) as (r & Hr & ->).
    unfold table_issues in Hr. rewrite Hskip in Hr. by injection Hr as <-.
Qed.

Lemma skipped_tables_witness :
  _table_label (loop_header_table "100") = _table_label (loop_header_table "200")
  ∧ _table_grid (loop_header_table "100") ≠ _table_grid (loop_header_table "200")
  ∧ ∃ rep,
      cmd_compare (Fixture.docx [loop_header_table "100"])
                  (Fixture.docx [loop_header_table "200"]) = Some rep
      ∧ filter (diff_at_table 0) (r_issues rep) = [].
Proof.
  split; [by vm_compute|]. split; [by vm_compute|].
  assert (∃ rep, cmd_compare (Fixture.docx [loop_header_table "100"])
                   (Fixture.docx [loop_header_table "200"]) = Some rep) as [rep Hrun].
  { vm_compute. eauto. }
  exists rep. split; [exact Hrun|].
  refine (proj2 (skipped_tables (Fixture.docx [loop_header_table "100"])
                   (Fixture.docx [loop_header_table "200"]) 0
                   (loop_header_table "100") eq_refl _) rep Hrun).
  left. exists EmptyString, " m IN modules}". by vm_compute.
Defined.

Lemma rows_not_table_level (ti : nat) (rows : list (Element * Element)) rs :
  for_from (row_issues ti) 0 rows = Some rs → filter (table_level_at ti) rs = [].
Proof.
  intros Hrs. eapply for_from_filter_nil; [exact Hrs|]. intros k x r _ Hr.
  eapply (filter_Forall_nil _ _ _ (row_issues_check _ _ _ _ Hr)).
  intros [] [_ Hrow] Htab; simpl in *; tauto.
Qed.

(** X6.  For a matched pair of tables a run reports a grid mismatch
    exactly when the two grids differ and a table-width mismatch exactly
    when the two declared widths differ, each once, naming both sides and
    the first forty characters of the label. *)
Theorem table_level_diff (tpl out : Docx) (rep : Report) (ti oi : nat)
    (tpl_tbl out_tbl : Element) :
  cmd_compare tpl out = Some rep →
  tables_of tpl !! ti = Some tpl_tbl →
  skip_label (_table_label tpl_tbl) = false →
  _find_table_in_output (tables_of out) (_table_label tpl_tbl) (_table_grid tpl_tbl)
  = Some oi →
  tables_of out !! oi = Some out_tbl →
  filter (table_level_at ti) (r_issues rep)
  = (if decide (_table_grid tpl_tbl ≠ _table_grid out_tbl)
     then [GridMismatch ti (PyStr.slice_to 40 (_table_label tpl_tbl))
             (_table_grid tpl_tbl) (_table_grid out_tbl)]
     else [])
    ++ (if decide (_table_width tpl_tbl ≠ _table_width out_tbl)
        then [TblWMismatch ti (PyStr.slice_to 40 (_table_label tpl_tbl))
                (_table_width tpl_tbl) (_table_width out_tbl)]
        else []).
Proof.
  intros Hrun Ht Hskip Hfind Ho.
  destruct (issues_of_table_diff _ _ _ Hrun (table_level_at ti)) as (i4 & H4 & ->).
  { by intros []. }
  destruct (for_from_filter_at _ (table_level_at ti) _ _ _ _ _ H4 Ht) as (r & Hr & ->).
  { intros j y r Hne _ Hr. simpl in Hr.
    eapply (filter_Forall_nil _ _ _ (table_issues_check _ _ _ _ Hr)).
    intros [] [_ Hj] Hi; try done; simpl in *;
      apply bool_decide_unpack in Hj, Hi; congruence. }
  simpl in Hr. unfold table_issues in Hr. rewrite Hskip, Hfind, Ho in Hr.
  simpl in Hr.
  destruct (for_from (row_issues ti) 0 _) as [rs|] eqn:Hrs; simpl in Hr; [|done].
  injection Hr as <-. rewrite !filter_app, (rows_not_table_level _ _ _ Hrs), app_nil_r.
  f_equal; case_decide; try done; rewrite filter_cons_True; try done;
    by apply bool_decide_pack.
Qed.

Lemma table_level_diff_witness :
  ∃ rep,
    cmd_compare two_same_labels (Fixture.docx [module_table "300"]) = Some rep
    ∧ filter (table_level_at 0) (r_issues rep)
      = [GridMismatch 0 "Module" ["100"] ["300"]]
    ∧ filter (table_level_at 1) (r_issues rep)
      = [GridMismatch 1 "Module" ["200"] ["300"]].
Proof.
  assert (∃ rep, cmd_compare two_same_labels (Fixture.docx [module_table "300"])
                 = Some rep) as [rep Hrun].
  { vm_compute. eauto. }
  exists rep. split; [exact Hrun|].
  rewrite (table_level_diff _ _ _ 0 0 (module_table "100") (module_table "300")
             Hrun eq_refl eq_refl eq_refl eq_refl).
  rewrite (table_level_diff _ _ _ 1 0 (module_table "200") (module_table "300")
             Hrun eq_refl eq_refl eq_refl eq_refl).
  split; by vm_compute.
Defined.

(** ** The per-cell diff *)

Lemma concat_imap_filter_nil {A B : Type} (P : B → Prop) `{!∀ x, Decision (P x)}
    (f : nat → A → list B) (l : list A) :
  (∀ j y, l !! j = Some y → filter P (f j y) = []) →
  filter P (concat (imap f l)) = [].
Proof.
  revert f. induction l as [|y l IH]; intros f Hall; [done|].
  rewrite imap_cons. cbn [concat]. rewrite filter_app, (Hall 0 y eq_refl). simpl.
  apply IH. intros j w Hw. exact (Hall (S j) w Hw).
Qed.

Lemma concat_imap_filter_at {A B : Type} (P : B → Prop) `{!∀ x, Decision (P x)}
    (f : nat → A → list B) (l : list A) (k : nat) (x : A) :
  l !! k = Some x →
  (∀ j y, j ≠ k → l !! j = Some y → filter P (f j y) = []) →
  filter P (concat (imap f l)) = filter P (f k x).
Proof.
  revert f k. induction l as [|y l IH]; intros f k Hk Hother; [done|].
  rewrite imap_cons. cbn [concat]. rewrite filter_app. destruct k as [|k]; simpl in Hk.
  - injection Hk as ->. rewrite concat_imap_filter_nil; [by rewrite app_nil_r|].
    intros j w Hw. exact (Hother (S j) w ltac:(done) Hw).
  - rewrite (Hother 0 y ltac:(done) eq_refl). simpl. apply (IH (f ∘ S) k Hk).
    intros j w Hj Hw. apply (Hother (S j) w); [lia|done].
Qed.

Lemma issues_at_row_sel (tpl out : Docx) (rep : Report) (ti oi : nat)
    (tpl_tbl out_tbl : Element) (ri : nat) (P : Issue → Prop) `{!∀ i, Decision (P i)} :
  cmd_compare tpl out = Some rep →
  tables_of tpl !! ti = Some tpl_tbl →
  skip_label (_table_label tpl_tbl) = false →
  _find_table_in_output (tables_of out) (_table_label tpl_tbl) (_table_grid tpl_tbl)
  = Some oi →
  tables_of out !! oi = Some out_tbl →
  (∀ i, P i → diff_at_row ti ri i) →
  ∀ tpl_row out_row,
    El.findall tpl_tbl (W "tr") !! ri = Some tpl_row →
    El.findall out_tbl (W "tr") !! ri = Some out_row →
    ∃ r, row_issues ti ri (tpl_row, out_row) = Some r
         ∧ filter P (r_issues rep) = filter P r.
Proof.
  intros Hrun Ht Hskip Hfind Ho HP tpl_row out_row Htr Hor.
  assert (∀ i, P i → check_of i = TableDiff) as Hcheck.
  { intros i Hi. apply HP in Hi. by destruct i. }
  destruct (issues_of_table_diff _ _ _ Hrun P Hcheck) as (i4 & H4 & ->).
  destruct (for_from_filter_at _ P _ _ _ _ _ H4 Ht) as (r & Hr & ->).
  { intros j y r Hne _ Hr. simpl in Hr.
    eapply (filter_Forall_nil _ _ _ (table_issues_check _ _ _ _ Hr)).
    intros i [_ Hj] Hi. apply HP in Hi. destruct i; try done; simpl in *;
      apply bool_decide_unpack in Hj, Hi; destruct Hi; congruence. }
  simpl in Hr. unfold table_issues in Hr. rewrite Hskip, Hfind, Ho in Hr.
  simpl in Hr.
  destruct (for_from (row_issues ti) 0 _) as [rs|] eqn:Hrs; simpl in Hr; [|done].
  injection Hr as <-.
  assert (zip (El.findall tpl_tbl (W "tr")) (El.findall out_tbl (W "tr")) !! ri
          = Some (tpl_row, out_row)) as Hz by (by apply lookup_zip_Some).
  destruct (for_from_filter_at _ P _ _ _ _ _ Hrs Hz) as (r & Hr & Hsel).
  { intros j y r Hne _ Hr. simpl in Hr.
    eapply (filter_Forall_nil _ _ _ (row_issues_check _ _ _ _ Hr)).
    intros i [_ Hj] Hi. apply HP in Hi. destruct i; try done; simpl in *;
      apply bool_decide_unpack in Hj, Hi; destruct Hi, Hj; congruence. }
  exists r. split; [exact Hr|]. rewrite !filter_app, Hsel.
  assert (∀ i, P i → match i with
                     | GridMismatch _ _ _ _ | TblWMismatch _ _ _ _ => False
                     | _ => True
                     end) as Hno.
  { intros i Hi. apply HP in Hi. by destruct i. }
  repeat case_decide;
    rewrite ?filter_cons_False by (intros Hp; apply Hno in Hp; exact Hp);
    rewrite ?filter_nil; done.
Qed.

(** X7.  For a matched pair of tables and a row of the overlapping range
    with the same number of cells on both sides, both rows have their
    cells read and, for every cell position, a run reports a cell-width
    issue exactly when the width value or its unit differs, and a
    grid-span issue exactly when the span differs, each once and naming
    both sides. *)
Theorem cell_diff (tpl out : Docx) (rep : Report) (ti oi : nat)
    (tpl_tbl out_tbl : Element) (ri : nat) (tpl_row out_row : Element) :
  cmd_compare tpl out = Some rep →
  tables_of tpl !! ti = Some tpl_tbl →
  skip_label (_table_label tpl_tbl) = false →
  _find_table_in_output (tables_of out) (_table_label tpl_tbl) (_table_grid tpl_tbl)
  = Some oi →
  tables_of out !! oi = Some out_tbl →
  El.findall tpl_tbl (W "tr") !! ri = Some tpl_row →
  El.findall out_tbl (W "tr") !! ri = Some out_row →
  length (El.findall tpl_row (W "tc")) = length (El.findall out_row (W "tc")) →
  ∃ tpl_cw out_cw,
    _row_cell_widths tpl_row = Some tpl_cw
    ∧ _row_cell_widths out_row = Some out_cw
    ∧ ∀ ci tw ow, tpl_cw !! ci = Some tw → out_cw !! ci = Some ow →
        filter (diff_at_cell ti ri ci) (r_issues rep)
        = (if decide (cw_w tw ≠ cw_w ow ∨ cw_type tw ≠ cw_type ow)
           then [CellWidth ti ri ci (cw_w tw) (cw_type tw) (cw_w ow) (cw_type ow)]
           else [])
          ++ (if decide (cw_span tw ≠ cw_span ow)
              then [GridSpan ti ri ci (cw_span tw) (cw_span ow)]
              else []).
Proof.
  intros Hrun Ht Hskip Hfind Ho Htr Hor Hlen.
  destruct (issues_at_row_sel _ _ _ _ _ _ _ ri (diff_at_row ti ri)
              Hrun Ht Hskip Hfind Ho ltac:(done) _ _ Htr Hor) as (r0 & Hr0 & _).
  unfold row_issues in Hr0. simpl in Hr0.
  destruct (_row_cell_widths tpl_row) as [tpl_cw|] eqn:Htcw; simpl in Hr0; [|done].
  destruct (_row_cell_widths out_row) as [out_cw|] eqn:Hocw; simpl in Hr0; [|done].
  exists tpl_cw, out_cw. split; [done|]. split; [done|]. clear Hr0.
  intros ci tw ow Htw How.
  destruct (issues_at_row_sel _ _ _ _ _ _ _ ri (diff_at_cell ti ri ci)
              Hrun Ht Hskip Hfind Ho) with (tpl_row := tpl_row) (out_row := out_row)
    as (r & Hr & ->); [|done..|].
  { intros [] Hi; try done; simpl in *; apply bool_decide_unpack in Hi;
      apply bool_decide_pack; tauto. }
  unfold row_issues in Hr. simpl in Hr. rewrite Htcw, Hocw in Hr. simpl in Hr.
  apply _row_cell_widths_length in Htcw, Hocw.
  rewrite decide_False in Hr by lia. injection Hr as <-.
  rewrite (concat_imap_filter_at _ _ _ ci (tw, ow)).
  - unfold cell_issues. simpl. rewrite filter_app.
    f_equal; case_decide; try done; rewrite filter_cons_True; try done;
      by apply bool_decide_pack.
  - by apply lookup_zip_Some.
  - intros j [tw' ow'] Hne _. unfold cell_issues. simpl. rewrite filter_app.
    repeat case_decide; simpl;
      rewrite ?filter_cons_False
        by (simpl; intros Hb; apply bool_decide_unpack in Hb; lia); done.
Qed.

Lemma cell_diff_witness :
  ∃ rep,
    cmd_compare (Fixture.docx [cells_template]) (Fixture.docx [cells_output]) = Some rep
    ∧ filter (diff_at_cell 0 0 0) (r_issues rep) = []
    ∧ filter (diff_at_cell 0 0 1) (r_issues rep)
      = [CellWidth 0 0 1 "200" "dxa" "250" "dxa"; GridSpan 0 0 1 1 2].
Proof.
  assert (∃ rep, cmd_compare (Fixture.docx [cells_template]) (Fixture.docx [cells_output])
                 = Some rep) as [rep Hrun].
  { vm_compute. eauto. }
  exists rep. split; [exact Hrun|].
  destruct (cell_diff _ _ _ 0 0 cells_template cells_output 0
              (Fixture.tr [width_cell "100" "dxa" "1" "Module";
                           width_cell "200" "dxa" "1" "Code"])
              (Fixture.tr [width_cell "100" "dxa" "1" "Module";
                           width_cell "250" "dxa" "2" "Code"])
              Hrun eq_refl eq_refl eq_refl eq_refl eq_refl eq_refl eq_refl)
    as (tcw & ocw & Htcw & Hocw & Hcells).
  assert (Some tcw = Some [{| cw_w := "100"; cw_type := "dxa"; cw_span := 1 |};
                           {| cw_w := "200"; cw_type := "dxa"; cw_span := 1 |}]) as E1.
  { rewrite <- Htcw. by vm_compute. }
  assert (Some ocw = Some [{| cw_w := "100"; cw_type := "dxa"; cw_span := 1 |};
                           {| cw_w := "250"; cw_type := "dxa"; cw_span := 2 |}]) as E2.
  { rewrite <- Hocw. by vm_compute. }
  injection E1 as ->. injection E2 as ->.
  rewrite (Hcells 0 _ _ eq_refl eq_refl), (Hcells 1 _ _ eq_refl eq_refl).
  split; by vm_compute.
Defined.

(** ** The grouping of the output tables *)

Lemma setdefault_concat (key : string) (i : nat) (groups : list (string * list nat)) :
  concat (setdefault_append key i groups).*2 ≡ₚ concat groups.*2 ++ [i].
Proof.
  induction groups as [|[k l] groups IH]; simpl; [done|].
  case_decide; simpl.
  - rewrite <- !(assoc_L (++)). f_equiv. apply Permutation_app_comm.
  - by rewrite IH, (assoc_L (++)).
Qed.

Lemma group_from_concat (tables : list Element) (i : nat)
    (groups : list (string * list nat)) :
  concat (group_from i tables groups).*2 ≡ₚ concat groups.*2 ++ seq i (length tables).
Proof.
  revert i groups. induction tables as [|tbl tables IH]; intros i groups; simpl.
  - by rewrite app_nil_r.
  - rewrite IH, setdefault_concat, <- (assoc_L (++)). done.
Qed.

Lemma indices_from_sorted (tables : list Element) (i : nat) (key : string) :
  StronglySorted lt (indices_from i key tables).
Proof.
  revert i. induction tables as [|tbl tables IH]; intros i; simpl; [constructor|].
  case_decide; simpl; [|apply IH]. constructor; [apply IH|].
  apply Forall_forall. intros j (k & t & -> & _)%indices_from_elem. lia.
Qed.

(** X8.  The groups built over the output tables split the table
    positions: every position occurs in exactly one group, exactly once;
    no group is empty; each group lists its positions in ascending order;
    and two positions share a group exactly when their tables have the
    same grid. *)
Theorem grid_groups_partition (tables : list Element) :
  concat (grid_groups tables).*2 ≡ₚ seq 0 (length tables)
  ∧ ∀ g, g ∈ grid_groups tables →
      g.2 ≠ []
      ∧ StronglySorted lt g.2
      ∧ ∀ i ti, i ∈ g.2 → tables !! i = Some ti →
          ∀ j, j ∈ g.2 ↔ ∃ tj, tables !! j = Some tj ∧ _table_grid tj = _table_grid ti.
Proof.
  split.
  - unfold grid_groups. by rewrite group_from_concat.
  - intros [key l] [-> Hne]%grid_groups_elem. simpl.
    split; [done|]. split; [apply indices_from_sorted|].
    intros i ti (k & t & -> & Hk & Hkey)%indices_from_elem Hi. simpl in Hi.
    assert (t = ti) as -> by congruence. subst key.
    intros j. rewrite indices_from_elem. split.
    + intros (k' & tj & -> & Hj & Hkey). exists tj. split; [done|].
      by apply grid_key_inj.
    + intros (tj & Hj & Hgrid). exists j, tj. split; [done|]. split; [done|].
      by apply grid_key_inj.
Qed.

(** ** The order of the report *)

Lemma check_order_same (c : Check) (l : list Issue) :
  Forall (λ i, check_of i = c) l → in_check_order l.
Proof.
  intros Hall i j a b _ Ha Hb.
  rewrite Forall_lookup in Hall.
  by rewrite (Hall i a Ha), (Hall j b Hb).
Qed.

Lemma check_order_app (c : Check) (l1 l2 : list Issue) :
  Forall (λ i, check_of i = c) l1 →
  Forall (λ i, check_rank c ≤ check_rank (check_of i)) l2 →
  in_check_order l2 → in_check_order (l1 ++ l2).
Proof.
  intros H1 H2 Hord i j a b Hij Ha Hb.
  rewrite Forall_lookup in H1. rewrite Forall_lookup in H2.
  apply lookup_app_Some in Ha as [Ha|[Hi Ha]], Hb as [Hb|[Hj Hb]].
  - by rewrite (H1 i a Ha), (H1 j b Hb).
  - rewrite (H1 i a Ha). exact (H2 _ b Hb).
  - apply lookup_lt_Some in Hb. lia.
  - apply (Hord (i - length l1) (j - length l1)); [lia|done..].
Qed.

Lemma check_rank_from (c : Check) (n : nat) (l : list Issue) :
  Forall (λ i, check_of i = c) l → n ≤ check_rank c →
  Forall (λ i, n ≤ check_rank (check_of i)) l.
Proof. intros Hall Hn. eapply Forall_impl; [exact Hall|]. by intros i ->. Qed.

(** X9.  A run lists its issues in the order of the checks: the command
    check first, then the footnote check, the per-table diff, the loop
    expansion check and the row span validation.  No issue of a later
    check stands before one of an earlier check. *)
Theorem issues_in_check_order (tpl out : Docx) (rep : Report) :
  cmd_compare tpl out = Some rep → in_check_order (r_issues rep).
Proof.
  intros Hrun.
  destruct (run_sections _ _ _ Hrun) as (i4 & pf & i6 & _ & _ & _ & H4 & H5 & H6 & ->).
  pose proof (command_issues_check (find_commands out)) as H2.
  assert (Forall (λ i, check_of i = FootnoteCheck)
            (duplicate_issues (_footnote_refs (read_docx_xml out))
             ++ undefined_issues out (_footnote_refs (read_docx_xml out)))) as H3.
  { apply Forall_app. split;
      [apply duplicate_issues_check|apply undefined_issues_check]. }
  apply (check_order_app CommandCheck); [done| |].
  { repeat (apply Forall_app; split);
      try (eapply check_rank_from; [eassumption|simpl; lia]).
    - eapply check_rank_from; [apply duplicate_issues_check|simpl; lia].
    - eapply check_rank_from; [apply undefined_issues_check|simpl; lia]. }
  apply (check_order_app FootnoteCheck); [done| |].
  { repeat (apply Forall_app; split);
      eapply check_rank_from; try eassumption; simpl; lia. }
  apply (check_order_app TableDiff); [done| |].
  { repeat (apply Forall_app; split);
      eapply check_rank_from; try eassumption; simpl; lia. }
  apply (check_order_app LoopExpansion); [done| |].
  { eapply check_rank_from; [eassumption|simpl; lia]. }
  by apply (check_order_same RowSpan).
Qed.

Lemma issues_in_check_order_witness :
  ∃ rep,
    cmd_compare (Fixture.docx [cells_template]) (Fixture.docx [cells_output]) = Some rep
    ∧ in_check_order (r_issues rep).
Proof.
  assert (∃ rep, cmd_compare (Fixture.docx [cells_template]) (Fixture.docx [cells_output])
                 = Some rep) as [rep Hrun].
  { vm_compute. eauto. }
  exists rep. split; [exact Hrun|].
  exact (issues_in_check_order _ _ _ Hrun).
Defined.

(** * Commands and their paragraphs *)

Lemma has_char_app (q : ascii) (a b : string) :
  PyStr.has_char q (a +:+ b) = (PyStr.has_char q a || PyStr.has_char q b)%bool.
Proof.
  induction a as [|c a IH]; [done|].
  rewrite append_String. cbn [PyStr.has_char]. by rewrite IH, orb_assoc.
Qed.

Lemma scan_commands_sound (s : string) (opened : option string) (g : string) :
  (∀ acc, opened = Some acc → PyStr.has_char "}" acc = false) →
  g ∈ scan_commands opened s →
  g ≠ EmptyString ∧ PyStr.has_char "}" g = false
  ∧ ((∃ acc g1 post, opened = Some acc ∧ g = acc +:+ g1 ∧ s = g1 +:+ "}" +:+ post)
     ∨ ∃ pre post, s = pre +:+ "{" +:+ g +:+ "}" +:+ post).
Proof.
  revert opened. induction s as [|c s IH]; intros opened Hacc Hg.
  { by apply elem_of_nil in Hg. }
  cbn [scan_commands] in Hg. destruct opened as [acc|].
  - destruct (Ascii.eqb c "}") eqn:Hc.
    + apply Ascii.eqb_eq in Hc as ->.
      assert (g ∈ scan_commands None s →
              g ≠ EmptyString ∧ PyStr.has_char "}" g = false
              ∧ ((∃ acc0 g1 post, Some acc = Some acc0 ∧ g = acc0 +:+ g1
                                  ∧ String "}" s = g1 +:+ "}" +:+ post)
                 ∨ ∃ pre post, String "}" s = pre +:+ "{" +:+ g +:+ "}" +:+ post))
        as Hrest.
      { intros Hin. destruct (IH None ltac:(done) Hin) as (Hne & Hno & [H|H]).
        { by destruct H as (? & ? & ? & ? & _). }
        destruct H as (pre & post & ->). split; [done|]. split; [done|].
        right. exists (String "}" pre), post. by rewrite append_String. }
      destruct acc as [|a acc]; [by apply Hrest|].
      apply elem_of_cons in Hg as [->|Hg]; [|by apply Hrest].
      split; [done|]. split; [by apply Hacc|].
      left. exists (String a acc), EmptyString, s.
      split; [done|]. split; [by rewrite append_Empty_r|].
      by rewrite append_Empty, append_String, append_Empty.
    + destruct (IH (Some (acc +:+ String c EmptyString))) with (2 := Hg)
        as (Hne & Hno & [H|H]).
      { intros ? [= <-]. rewrite has_char_app, (Hacc acc eq_refl).
        cbn [PyStr.has_char]. by rewrite Hc. }
      * destruct H as (acc0 & g1 & post & [= <-] & -> & ->).
        split; [done|]. split; [done|]. left.
        exists acc, (String c g1), post. split; [done|].
        by rewrite append_assoc, !append_String, append_Empty.
      * destruct H as (pre & post & ->). split; [done|]. split; [done|].
        right. exists (String c pre), post. by rewrite append_String.
  - destruct (Ascii.eqb c "{") eqn:Hc.
    + apply Ascii.eqb_eq in Hc as ->.
      destruct (IH (Some EmptyString)) with (2 := Hg) as (Hne & Hno & [H|H]).
      { by intros ? [= <-]. }
      * destruct H as (acc0 & g1 & post & [= <-] & -> & ->).
        split; [done|]. split; [done|]. right.
        exists EmptyString, post.
        by rewrite !append_Empty, append_String, append_Empty.
      * destruct H as (pre & post & ->). split; [done|]. split; [done|].
        right. exists (String "{" pre), post. by rewrite append_String.
    + destruct (IH None ltac:(done) Hg) as (Hne & Hno & [H|H]).
      { by destruct H as (? & ? & ? & ? & _). }
      destruct H as (pre & post & ->). split; [done|]. split; [done|].
      right. exists (String c pre), post. by rewrite append_String.
Qed.

Lemma finditer_sound (s g : string) :
  g ∈ finditer s →
  g ≠ EmptyString ∧ PyStr.has_char "}" g = false
  ∧ occurs_in ("{" +:+ g +:+ "}") s.
Proof.
  intros Hg. destruct (scan_commands_sound s None g ltac:(done) Hg)
    as (Hne & Hno & [H|H]).
  { by destruct H as (? & ? & ? & ? & _). }
  destruct H as (pre & post & ->). split; [done|]. split; [done|].
  exists pre, post. by rewrite !append_assoc.
Qed.

Lemma extract_paras_lookup (path : Docx) (i : nat) (p : Para) :
  extract_paras path !! i = Some p → p_i p = i.
Proof.
  unfold extract_paras. rewrite list_lookup_imap.
  destruct (_ !! i) as [[parent para]|]; simpl; [|done]. by intros [= <-].
Qed.

Lemma extract_paras_elem (path : Docx) (p : Para) :
  p ∈ extract_paras path → extract_paras path !! p_i p = Some p.
Proof.
  intros [i Hi]%list_elem_of_lookup.
  by rewrite (extract_paras_lookup _ _ _ Hi).
Qed.

(** X10.  Every command found stands in the paragraph whose number it
    carries: the text of that paragraph contains an opening brace, a
    non-empty text without closing brace and a closing brace, the raw
    text of the command is that inner text trimmed, and the command is
    marked as being in a table exactly when the paragraph is. *)
Theorem commands_located (path : Docx) (c : Command) :
  c ∈ find_commands path →
  ∃ p g, extract_paras path !! c_para c = Some p
         ∧ c_tbl c = p_tbl p
         ∧ g ≠ EmptyString ∧ PyStr.has_char "}" g = false
         ∧ occurs_in ("{" +:+ g +:+ "}") (p_text p)
         ∧ c_raw c = PyStr.strip g.
Proof.
  intros (p & g & Hp & Hg & ->)%find_commands_elem. simpl.
  destruct (finditer_sound _ _ Hg) as (Hne & Hno & Hocc).
  exists p, g. split_and!; try done. by apply extract_paras_elem.
Qed.

Lemma commands_located_witness :
  ∃ p g, extract_paras (one_paragraph "List {FOR m IN modules} here") !! 0 = Some p
         ∧ false = p_tbl p
         ∧ g ≠ EmptyString ∧ PyStr.has_char "}" g = false
         ∧ occurs_in ("{" +:+ g +:+ "}") (p_text p)
         ∧ "FOR m IN modules" = PyStr.strip g.
Proof.
  apply (commands_located (one_paragraph "List {FOR m IN modules} here")
           {| c_para := 0; c_tbl := false; c_raw := "FOR m IN modules"; c_type := FOR |}).
  assert (find_commands (one_paragraph "List {FOR m IN modules} here")
          = [{| c_para := 0; c_tbl := false; c_raw := "FOR m IN modules";
                c_type := FOR |}]) as -> by (by vm_compute).
  apply list_elem_of_here.
Defined.

Lemma commands_of_paras_sorted (ps : list Para) (k : nat) :
  (∀ i p, ps !! i = Some p → p_i p = k + i) →
  StronglySorted le
    (c_para <$> (ps ≫= λ p,
       (λ g, let raw := PyStr.strip g in
             {| c_para := p_i p; c_tbl := p_tbl p;
                c_raw := raw; c_type := classify raw |}) <$> finditer (p_text p)))
  ∧ Forall (le k)
      (c_para <$> (ps ≫= λ p,
         (λ g, let raw := PyStr.strip g in
               {| c_para := p_i p; c_tbl := p_tbl p;
                  c_raw := raw; c_type := classify raw |}) <$> finditer (p_text p))).
Proof.
  revert k. induction ps as [|p ps IH]; intros k Hidx.
  { split; constructor. }
  rewrite bind_cons, fmap_app.
  destruct (IH (S k)) as [Hsort Hge].
  { intros i q Hq. rewrite (Hidx (S i) q Hq). lia. }
  pose proof (Hidx 0 p eq_refl) as Hp. rewrite Nat.add_0_r in Hp.
  assert (Forall (λ n, n = k)
            (c_para <$> ((λ g, let raw := PyStr.strip g in
                               {| c_para := p_i p; c_tbl := p_tbl p;
                                  c_raw := raw; c_type := classify raw |})
                         <$> finditer (p_text p)))) as Hhere.
  { apply Forall_fmap, Forall_fmap, Forall_forall. by intros g _. }
  split.
  - apply StronglySorted_app_2; [|  |exact Hsort].
    + intros x y Hx Hy. rewrite Forall_forall in Hhere. rewrite (Hhere x Hx).
      rewrite Forall_forall in Hge. specialize (Hge y Hy). lia.
    + clear -Hhere. induction Hhere as [|x l -> Hl IHl]; constructor; [done|].
      eapply Forall_impl; [exact Hl|]. by intros ? ->.
  - apply Forall_app. split.
    + eapply Forall_impl; [exact Hhere|]. intros ? ->. lia.
    + eapply Forall_impl; [exact Hge|]. intros ? ?. lia.
Qed.

(** X11.  The commands are listed in the order of their paragraphs: no
    command stands before a command of an earlier paragraph. *)
Theorem commands_in_paragraph_order (path : Docx) :
  StronglySorted le (c_para <$> find_commands path).
Proof.
  apply (commands_of_paras_sorted (extract_paras path) 0).
  intros i p Hp. by rewrite (extract_paras_lookup _ _ _ Hp).
Qed.

(** * The loops command *)







Lemma loops_fold_headers (cmds : list Command) (loops : list Loop) (stack : list nat) :
  (λ lp, (l_var lp, l_iter lp, l_para lp)) <$> (foldl loops_step (loops, stack) cmds).1
  = ((λ lp, (l_var lp, l_iter lp, l_para lp)) <$> loops)
    ++ ((λ c, (default "?" (PyStr.split (c_raw c) !! 1),
               default "?" (PyStr.split (c_raw c) !! 3), c_para c))
        <$> filter (λ c, c_type c = FOR) cmds).
Proof.
  revert loops stack. induction cmds as [|c cmds IH]; intros loops stack.
  { by rewrite app_nil_r. }
  cbn [foldl]. unfold loops_step at 2.
  destruct (c_type c) eqn:Hc;
    rewrite ?filter_cons_False by (rewrite Hc; done); try apply IH.
  - rewrite filter_cons_True by done. rewrite IH, fmap_app, fmap_cons.
    by rewrite <- (assoc_L (++)).
  - destruct stack as [|top stack]; rewrite IH; [done|]. f_equal.
    rewrite (list_fmap_alter _ _ id) by (apply Forall_forall; by intros []).
    by apply list_alter_id.
Qed.

(** X13.  The loops command prints one loop for each FOR command of the
    document, in the order of the commands, with the paragraph number of
    that command, its second word as the variable and its fourth word as
    the collection, the text [?] standing in for a word the command does
    not have. *)
Theorem loops_are_for_commands (path : Docx) :
  (λ lp, (l_var lp, l_iter lp, l_para lp)) <$> cmd_loops path
  = (λ c, (default "?" (PyStr.split (c_raw c) !! 1),
           default "?" (PyStr.split (c_raw c) !! 3), c_para c))
    <$> filter (λ c, c_type c = FOR) (find_commands path).
Proof. unfold cmd_loops, loops_of. by rewrite loops_fold_headers. Qed.

Lemma string_snoc (s : string) :
  s ≠ EmptyString → ∃ r c, s = r +:+ String c EmptyString.
Proof.
  induction s as [|a s IH]; [done|]. intros _. destruct s as [|b s].
  - by exists EmptyString, a.
  - destruct IH as (r & c & ->); [done|]. exists (String a r), c.
    by rewrite append_String.
Qed.

Lemma split_from_snoc (r cur : string) (c : ascii) :
  PyStr.isspace c = false →
  PyStr.split_from cur (r +:+ String c EmptyString) ≠ [].
Proof.
  intros Hc. revert cur. induction r as [|a r IH]; intros cur.
  - rewrite append_Empty. cbn [PyStr.split_from]. rewrite Hc.
    by destruct cur.
  - rewrite append_String. cbn [PyStr.split_from].
    destruct (PyStr.isspace a); [|apply IH].
    destruct cur; [apply IH|done].
Qed.

Lemma for_header_words (g : string) :
  classify (PyStr.strip g) = FOR →
  ∃ v rest, PyStr.split (PyStr.strip g) = "FOR" :: v :: rest.
Proof.
  unfold classify. destruct (PyStr.startswith (PyStr.strip g) "FOR ") eqn:Hfor.
  2: { by repeat case_match. }
  intros _. apply startswith_spec in Hfor as [rest Hraw].
  destruct (decide (rest = EmptyString)) as [->|Hne].
  { unfold PyStr.strip in Hraw.
    by apply (rstrip_last (PyStr.lstrip g) "FOR" " "%char) in Hraw. }
  destruct (string_snoc rest Hne) as (r & c & ->).
  assert (PyStr.isspace c = false) as Hc.
  { unfold PyStr.strip in Hraw.
    apply (rstrip_last (PyStr.lstrip g) ("FOR " +:+ r) c).
    by rewrite append_assoc. }
  rewrite Hraw. unfold PyStr.split.
  rewrite !append_String, append_Empty. cbn.
  pose proof (split_from_snoc r EmptyString c Hc) as Hparts.
  destruct (PyStr.split_from EmptyString (r +:+ String c EmptyString)) as [|v l];
    [done|]. by exists v, l.
Qed.

(** X14.  The variable of every loop printed is the second word of its
    FOR command: a command found in a document and classified as FOR
    always has a second word, so the text [?] never stands in for the
    variable. *)
Theorem loop_variable_present (path : Docx) (lp : Loop) :
  lp ∈ cmd_loops path →
  ∃ c rest, c ∈ find_commands path ∧ c_type c = FOR ∧ l_para lp = c_para c
            ∧ PyStr.split (c_raw c) = "FOR" :: l_var lp :: rest.
Proof.
  intros Hlp.
  assert ((l_var lp, l_iter lp, l_para lp)
          ∈ (λ lp, (l_var lp, l_iter lp, l_para lp)) <$> cmd_loops path) as Hin.
  { apply list_elem_of_fmap. by exists lp. }
  unfold cmd_loops, loops_of in Hin. rewrite loops_fold_headers in Hin.
  apply list_elem_of_fmap in Hin as (c & Heq & [Hfor Hc]%list_elem_of_filter).
  injection Heq as Hvar _ Hpara.
  pose proof Hc as (p & g & _ & _ & Hcg)%find_commands_elem.
  assert (classify (PyStr.strip g) = FOR) as Hcl by (by rewrite Hcg in Hfor).
  destruct (for_header_words g Hcl) as (v & rest & Hsplit).
  assert (c_raw c = PyStr.strip g) as Hraw by (by rewrite Hcg).
  rewrite Hraw, Hsplit in Hvar. simpl in Hvar.
  exists c, rest. split_and!; try done. by rewrite Hraw, Hsplit, Hvar.
Qed.

Lemma loop_variable_present_witness :
  ∃ c rest,
    c ∈ find_commands (one_paragraph "{FOR m}{$m.code}{END-FOR m}")
    ∧ c_type c = FOR ∧ 0 = c_para c
    ∧ PyStr.split (c_raw c) = ["FOR"; "m"] ++ rest.
Proof.
  apply (loop_variable_present (one_paragraph "{FOR m}{$m.code}{END-FOR m}")
           {| l_var := "m"; l_iter := "?"; l_para := 0; l_fields := ["$m.code"] |}).
  assert (cmd_loops (one_paragraph "{FOR m}{$m.code}{END-FOR m}")
          = [{| l_var := "m"; l_iter := "?"; l_para := 0; l_fields := ["$m.code"] |}])
    as -> by (by vm_compute).
  apply list_elem_of_here.
Defined.

(** * The tables and table commands *)

Lemma length_append (a b : string) :
  String.length (a +:+ b) = String.length a + String.length b.
Proof. induction a as [|c a IH]; [done|]. rewrite append_String. simpl. by rewrite IH. Qed.

Lemma slice_to_length (n : nat) (s : string) :
  String.length (PyStr.slice_to n s) = n `min` String.length s.
Proof.
  revert s. induction n as [|n IH]; intros [|c s]; simpl; try done.
  by rewrite IH.
Qed.

Lemma list_tables_length (path : Docx) :
  length (list_tables path) = length (tables_of path).
Proof. unfold list_tables. by rewrite length_imap. Qed.

Lemma py_index_Some {A : Type} (l : list A) (idx : Z) :
  (- Z.of_nat (length l) ≤ idx < Z.of_nat (length l))%Z →
  py_index l idx
  = l !! Z.to_nat (if decide (idx < 0)%Z then idx + Z.of_nat (length l) else idx)%Z.
Proof.
  intros Hidx. unfold py_index. destruct (Z.ltb_spec idx 0) as [Hneg|Hpos].
  - rewrite decide_True by done.
    by rewrite (proj2 (Z.ltb_ge (idx + Z.of_nat (length l)) 0)) by lia.
  - rewrite decide_False by lia.
    by rewrite (proj2 (Z.ltb_ge idx 0)) by lia.
Qed.

Lemma py_index_None {A : Type} (l : list A) (idx : Z) :
  (idx < - Z.of_nat (length l) ∨ Z.of_nat (length l) ≤ idx)%Z →
  py_index l idx = None.
Proof.
  intros Hidx. unfold py_index. destruct (Z.ltb_spec idx 0) as [Hneg|Hpos].
  - by rewrite (proj2 (Z.ltb_lt (idx + Z.of_nat (length l)) 0)) by lia.
  - rewrite (proj2 (Z.ltb_ge idx 0)) by lia.
    apply lookup_ge_None. lia.
Qed.

(** X15.  The table command accepts an index from minus the number of
    tables up to the number of tables less one, a negative index counting
    from the last table; it then prints the number of rows of that table,
    the number of cells of its first row (0 without rows) and one line
    for every row.  For any other index it raises IndexError. *)
Theorem table_command (path : Docx) (idx : Z) :
  let n := Z.of_nat (length (tables_of path)) in
  if decide (- n ≤ idx < n)%Z
  then ∃ tbl view,
      tables_of path !! Z.to_nat (if decide (idx < 0)%Z then idx + n else idx)%Z
      = Some tbl
      ∧ cmd_table path idx = Some view
      ∧ tv_rows view = length (El.findall tbl (W "tr"))
      ∧ tv_cols view
        = from_option (λ row0, length (El.findall row0 (W "tc"))) 0
            (head (El.findall tbl (W "tr")))
      ∧ length (tv_lines view) = tv_rows view
  else cmd_table path idx = None.
Proof.
  intros n. case_decide as Hidx.
  - destruct (tables_of path
              !! Z.to_nat (if decide (idx < 0)%Z then idx + n else idx)%Z)
      as [tbl|] eqn:Htbl.
    2: { apply lookup_ge_None in Htbl. case_decide; lia. }
    unfold cmd_table, get_table. fold n.
    rewrite (proj2 (Z.leb_gt _ _)) by lia.
    rewrite !py_index_Some by (rewrite ?list_tables_length; done).
    rewrite list_tables_length. fold n. rewrite Htbl. simpl.
    unfold list_tables. rewrite list_lookup_imap, Htbl. simpl.
    eexists _, _. split; [done|]. split; [done|]. simpl.
    destruct (El.findall tbl (W "tr")) as [|row0 rows]; simpl;
      by rewrite ?length_fmap.
  - unfold cmd_table, get_table. fold n.
    destruct (Z.leb_spec n idx) as [Hge|Hlt]; [reflexivity|].
    rewrite (py_index_None (tables_of path)); [reflexivity|]. unfold n in *. lia.
Qed.

(** X16.  The entry [list_tables] gives for a table carries the position
    of the table, and a number of columns that is the length of its
    header; [get_table] at that position succeeds, returns as many rows
    as the entry counts, and its first row is the header of the entry. *)
Theorem tables_agree (path : Docx) (i : nat) (info : TableInfo) :
  list_tables path !! i = Some info →
  t_i info = i
  ∧ t_cols info = length (t_header info)
  ∧ ∃ content, get_table path (Z.of_nat i) = Some content
               ∧ length content = t_rows info
               ∧ default [] (head content) = t_header info.
Proof.
  unfold list_tables. rewrite list_lookup_imap.
  destruct (tables_of path !! i) as [tbl|] eqn:Htbl; simpl; [|done].
  intros [= <-]. pose proof (lookup_lt_Some _ _ _ Htbl) as Hlt.
  unfold get_table. rewrite (proj2 (Z.leb_gt _ _)) by lia.
  rewrite py_index_Some by lia. rewrite decide_False by lia.
  rewrite Nat2Z.id, Htbl. simpl.
  destruct (El.findall tbl (W "tr")) as [|row0 rows]; simpl.
  - split; [done|]. split; [done|]. by eexists.
  - split; [done|]. rewrite length_fmap. split; [done|].
    eexists. split; [done|]. simpl. by rewrite length_fmap.
Qed.

Lemma tables_agree_witness :
  t_i {| t_i := 0; t_rows := 3; t_cols := 2; t_header := ["A"; "B"] |} = 0
  ∧ 2 = length ["A"; "B"]
  ∧ ∃ content, get_table span_doc 0 = Some content
               ∧ length content = 3
               ∧ default [] (head content) = ["A"; "B"].
Proof.
  apply (tables_agree span_doc 0
           {| t_i := 0; t_rows := 3; t_cols := 2; t_header := ["A"; "B"] |}).
  by vm_compute.
Defined.

(** X17.  The texts the commands print are bounded: the header summary
    of the tables command has at most 78 characters, a row line of the
    table command at most 123 after the row number, the excerpt of a
    paragraph at most 103, and the label of a table at most 63. *)
Theorem output_widths :
  (∀ header, String.length (header_summary header) ≤ 78)
  ∧ (∀ row, String.length (row_line row) ≤ 123)
  ∧ (∀ p, String.length (pl_txt (para_line p)) ≤ 103)
  ∧ (∀ tbl, String.length (_table_label tbl) ≤ 63).
Proof.
  split_and!.
  - intros header. unfold header_summary.
    destruct (78 <? _) eqn:Hlong.
    + rewrite length_append, slice_to_length.
      change (String.length "...") with 3. lia.
    + by apply Nat.ltb_ge in Hlong.
  - intros row. unfold row_line. rewrite length_append, slice_to_length.
    case_match; [change (String.length "...") with 3
                |change (String.length EmptyString) with 0]; lia.
  - intros p. cbn [pl_txt para_line]. rewrite length_append, slice_to_length.
    case_match; [change (String.length "...") with 3
                |change (String.length EmptyString) with 0]; lia.
  - intros tbl. unfold _table_label.
    destruct (El.findall tbl (W "tr")) as [|row0 rows].
    { change (String.length "(empty table)") with 13. lia. }
    destruct (60 <? _) eqn:Hlong.
    + rewrite length_append, slice_to_length.
      change (String.length "...") with 3. lia.
    + apply Nat.ltb_ge in Hlong. lia.
Qed.

(** * The paras and splits commands *)

Lemma extract_paras_indices (path : Docx) :
  p_i <$> extract_paras path = seq 0 (length (extract_paras path)).
Proof.
  apply list_eq. intros i. rewrite list_lookup_fmap.
  destruct (extract_paras path !! i) as [p|] eqn:Hp; simpl.
  - rewrite (extract_paras_lookup _ _ _ Hp). symmetry.
    apply lookup_seq. split; [done|]. by eapply lookup_lt_Some.
  - symmetry. apply lookup_seq_ge. by apply lookup_ge_None.
Qed.

Lemma seq_eq (a a' k k' : nat) :
  k = k' → (k ≠ 0 → a = a') → seq a k = seq a' k'.
Proof. intros <- Ha. destruct k; [done|]. by rewrite Ha. Qed.

Lemma paras_slice_indices (path : Docx) (start stop : Z) :
  pl_i <$> (para_line <$> py_slice (extract_paras path) start stop)
  = seq (Z.to_nat (py_clamp (Z.of_nat (length (extract_paras path))) start))
      (Z.to_nat (py_clamp (Z.of_nat (length (extract_paras path))) stop
                 - py_clamp (Z.of_nat (length (extract_paras path))) start)
       `min` (length (extract_paras path)
              - Z.to_nat (py_clamp (Z.of_nat (length (extract_paras path))) start))).
Proof.
  rewrite <- list_fmap_compose. unfold py_slice.
  rewrite fmap_take, fmap_drop.
  change (pl_i ∘ para_line) with p_i. rewrite extract_paras_indices.
  by rewrite drop_seq, take_seq.
Qed.

(** X18.  Without an end the paras command shows at most thirty
    paragraphs, and an end of 0 is taken as no end.  From a start that is
    not negative it shows the paragraphs numbered from the start on:
    thirty of them, or up to an end greater than 0, or fewer when the
    document ends before. *)
Theorem paras_window (path : Docx) (start : Z) :
  length (cmd_paras path start None) ≤ 30
  ∧ cmd_paras path start (Some 0%Z) = cmd_paras path start None
  ∧ ((0 ≤ start)%Z →
     pl_i <$> cmd_paras path start None
     = seq (Z.to_nat start) (30 `min` (length (extract_paras path) - Z.to_nat start))
     ∧ ∀ e, (0 < e)%Z →
            pl_i <$> cmd_paras path start (Some e)
            = seq (Z.to_nat start)
                ((Z.to_nat e `min` length (extract_paras path)) - Z.to_nat start)).
Proof.
  split_and!.
  - rewrite <- (length_fmap pl_i). unfold cmd_paras.
    rewrite paras_slice_indices, length_seq. unfold py_clamp, end_or.
    repeat case_match; rewrite ?Z.ltb_lt, ?Z.ltb_ge in *; lia.
  - done.
  - intros Hstart. split; [|intros e He]; unfold cmd_paras;
      rewrite paras_slice_indices; unfold py_clamp, end_or;
      rewrite ?decide_False by lia;
      apply seq_eq; repeat case_match; rewrite ?Z.ltb_lt, ?Z.ltb_ge in *; lia.
Qed.

Lemma paras_window_witness :
  pl_i <$> cmd_paras (Fixture.docx [Fixture.para "a"; Fixture.para "b"; Fixture.para "c"])
             1 None
  = seq 1 (30 `min` (3 - 1)).
Proof.
  refine (proj1 (proj2 (proj2 (paras_window
            (Fixture.docx [Fixture.para "a"; Fixture.para "b"; Fixture.para "c"]) 1))
            _)).
  lia.
Defined.

Lemma join_cons (a : string) (l : list string) :
  PyStr.join EmptyString (a :: l) = a +:+ PyStr.join EmptyString l.
Proof.
  unfold PyStr.join. destruct l as [|b l]; simpl; [|done].
  by rewrite append_Empty_r.
Qed.

Lemma occurs_in_middle (needle pre s post : string) :
  occurs_in needle s → occurs_in needle (pre +:+ s +:+ post).
Proof.
  intros (a & b & ->). exists (pre +:+ a), (b +:+ post).
  by rewrite !append_assoc.
Qed.

Lemma join_occurs (needle r : string) (runs : list string) :
  r ∈ runs → occurs_in needle r → occurs_in needle (PyStr.join EmptyString runs).
Proof.
  intros Hr Hocc. induction runs as [|a runs IH]; [by apply elem_of_nil in Hr|].
  rewrite join_cons. apply elem_of_cons in Hr as [<-|Hr].
  - exact (occurs_in_middle needle EmptyString r _ Hocc).
  - rewrite <- (append_Empty_r (PyStr.join EmptyString runs)).
    apply occurs_in_middle. by apply IH.
Qed.

Lemma extract_paras_text (path : Docx) (p : Para) :
  p ∈ extract_paras path → p_text p = PyStr.join EmptyString (p_runs p).
Proof.
  unfold extract_paras. intros [i Hi]%list_elem_of_lookup.
  rewrite list_lookup_imap in Hi.
  destruct (_ !! i) as [[parent para]|]; simpl in Hi; [|done].
  by injection Hi as <-.
Qed.

(** X19.  The splits command lists a paragraph exactly when it has more
    than one run and one of its runs holds an opening brace and no closing
    brace; the test for a brace in the text of the paragraph changes
    nothing. *)
Theorem split_paragraphs (path : Docx) (p : Para) :
  p ∈ cmd_splits path ↔
  p ∈ extract_paras path ∧ 1 < length (p_runs p)
  ∧ ∃ r, r ∈ p_runs p ∧ occurs_in "{" r ∧ ¬ occurs_in "}" r.
Proof.
  unfold cmd_splits. rewrite list_elem_of_filter. unfold is_split.
  rewrite !andb_true_iff, existsb_exists. split.
  - intros [[[Hlen _] (r & Hr & Hbr)] Hp]. split; [done|].
    split; [by apply bool_decide_eq_true in Hlen|].
    apply andb_true_iff in Hbr as [Hopen Hclose]. exists r.
    split; [by apply list_elem_of_In|]. split; [by apply contains_spec|].
    rewrite <- contains_spec. by destruct (PyStr.contains "}" r).
  - intros (Hp & Hlen & r & Hr & Hopen & Hclose). split; [|done].
    split; [split|].
    + by apply bool_decide_eq_true.
    + apply contains_spec. rewrite (extract_paras_text _ _ Hp).
      by apply (join_occurs _ r).
    + exists r. split; [by apply list_elem_of_In|].
      apply andb_true_iff. split; [by apply contains_spec|].
      rewrite <- contains_spec in Hclose. by destruct (PyStr.contains "}" r).
Qed.

(** * The tagging script: cells and rows *)

Lemma append_inj_r (a b c : string) : a +:+ b = a +:+ c → b = c.
Proof.
  induction a as [|x a IH]; [done|]. rewrite !append_String. intros [= H]. by apply IH.
Qed.

Lemma W_inj (a b : string) : W a = W b → a = b.
Proof.
  unfold W. intros H. do 3 apply append_inj_r in H. exact H.
Qed.

Lemma find_tag (e x : Element) (t : string) : El.find e t = Some x → tag x = t.
Proof.
  unfold El.find, El.findall, El.select. intros H%head_Some_elem_of.
  by apply list_elem_of_filter in H as [H _].
Qed.

Section first_child.
Context (t : string) (f : Element → Element).
Context (Htag : ∀ x, tag (f x) = tag x).

Lemma select_keep_first (l : list Element) :
  El.select t (keep_first t f l) = option_list (f <$> head (El.select t l)).
Proof.
  unfold El.select. induction l as [|e l IH]; [done|]. cbn [keep_first].
  case_decide as He.
  - rewrite filter_cons_True by (by rewrite Htag).
    rewrite (filter_cons_True _ e) by done. simpl. f_equal.
    clear. induction l as [|x l IH]; [done|].
    rewrite (filter_cons (λ c, tag c ≠ t)). case_decide as Hx; [|done].
    by rewrite filter_cons_False.
  - by rewrite !filter_cons_False.
Qed.

Lemma select_other_keep_first (t' : string) (l : list Element) :
  t' ≠ t → El.select t' (keep_first t f l) = El.select t' l.
Proof.
  intros Hne. unfold El.select. induction l as [|e l IH]; [done|].
  cbn [keep_first]. case_decide as He.
  - rewrite !filter_cons_False by (rewrite ?Htag; congruence).
    clear IH. induction l as [|x l IH]; [done|].
    rewrite (filter_cons (λ c, tag c ≠ t)). case_decide as Hx.
    + rewrite !(filter_cons (λ c, tag c = t')). case_decide; by rewrite IH.
    + by rewrite (filter_cons_False (λ c, tag c = t') x) by congruence.
  - rewrite !(filter_cons (λ c, tag c = t')). case_decide; by rewrite IH.
Qed.

Lemma others_keep_first (l : list Element) :
  filter (λ c, tag c ≠ t) (keep_first t f l) = filter (λ c, tag c ≠ t) l.
Proof.
  induction l as [|e l IH]; [done|]. cbn [keep_first]. case_decide as He.
  - rewrite !filter_cons_False by (rewrite ?Htag; by intros ?).
    clear. induction l as [|x l IH]; [done|].
    rewrite (filter_cons _ x). case_decide; [|done].
    by rewrite filter_cons_True, IH.
  - by rewrite !filter_cons_True, IH.
Qed.

Lemma keep_first_twice (g : Element → Element) (l : list Element) :
  keep_first t g (keep_first t f l) = keep_first t (g ∘ f) l.
Proof.
  induction l as [|e l IH]; [done|]. cbn [keep_first]. case_decide as He.
  - cbn [keep_first]. rewrite decide_True by (by rewrite Htag). f_equal.
    clear. induction l as [|x l IH]; [done|].
    rewrite (filter_cons _ x). case_decide; [|done].
    by rewrite filter_cons_True, IH.
  - cbn [keep_first]. by rewrite decide_False, IH.
Qed.

Lemma select_map_first (l : list Element) :
  head (El.select t (map_first t f l)) = f <$> head (El.select t l).
Proof.
  unfold El.select. induction l as [|e l IH]; [done|]. cbn [map_first].
  case_decide as He.
  - rewrite filter_cons_True by (by rewrite Htag).
    by rewrite (filter_cons_True _ e).
  - by rewrite !filter_cons_False.
Qed.

Lemma select_other_map_first (t' : string) (l : list Element) :
  t' ≠ t → El.select t' (map_first t f l) = El.select t' l.
Proof.
  intros Hne. unfold El.select. induction l as [|e l IH]; [done|].
  cbn [map_first]. case_decide as He.
  - by rewrite !filter_cons_False by (rewrite ?Htag; congruence).
  - rewrite !(filter_cons (λ c, tag c = t')). case_decide; by rewrite IH.
Qed.

Lemma map_first_twice (g : Element → Element) (l : list Element) :
  map_first t g (map_first t f l) = map_first t (g ∘ f) l.
Proof.
  induction l as [|e l IH]; [done|]. cbn [map_first]. case_decide as He.
  - cbn [map_first]. by rewrite decide_True by (by rewrite Htag).
  - cbn [map_first]. by rewrite decide_False, IH.
Qed.

End first_child.

Lemma keep_first_ext (t : string) (f g : Element → Element) (l : list Element) :
  (∀ x, f x = g x) → keep_first t f l = keep_first t g l.
Proof.
  intros Hfg. induction l as [|e l IH]; [done|]. cbn [keep_first].
  case_decide; by rewrite ?Hfg, ?IH.
Qed.

Lemma map_first_ext (t : string) (f g : Element → Element) (l : list Element) :
  (∀ x, f x = g x) → map_first t f l = map_first t g l.
Proof.
  intros Hfg. induction l as [|e l IH]; [done|]. cbn [map_first].
  case_decide; by rewrite ?Hfg, ?IH.
Qed.

Lemma keep_first_app_none (t : string) (f : Element → Element) (l l' : list Element) :
  El.select t l = [] → keep_first t f (l ++ l') = l ++ keep_first t f l'.
Proof.
  unfold El.select. induction l as [|e l IH]; [done|].
  rewrite filter_cons. case_decide; [done|]. intros Hl.
  simpl. rewrite decide_False by done. by rewrite IH.
Qed.

Lemma map_first_app_none (t : string) (f : Element → Element) (l l' : list Element) :
  El.select t l = [] → map_first t f (l ++ l') = l ++ map_first t f l'.
Proof.
  unfold El.select. induction l as [|e l IH]; [done|].
  rewrite filter_cons. case_decide; [done|]. intros Hl.
  simpl. rewrite decide_False by done. by rewrite IH.
Qed.

Lemma attrib_set_twice (k v : string) (l : list (string * string)) :
  attrib_set k v (attrib_set k v l) = attrib_set k v l.
Proof.
  induction l as [|[k' v'] l IH]; simpl.
  - by rewrite decide_True.
  - case_decide as Hk; simpl.
    + by rewrite decide_True.
    + by rewrite decide_False, IH.
Qed.

Lemma set_t_twice (s s' : string) (x : Element) : set_t s' (set_t s x) = set_t s' x.
Proof. unfold set_t. simpl. by rewrite attrib_set_twice. Qed.

Lemma set_t_new (s s' : string) : set_t s' (new_t s) = new_t s'.
Proof. reflexivity. Qed.

Lemma set_run_text_tag (s : string) (r : Element) : tag (set_run_text s r) = tag r.
Proof. unfold set_run_text. by case_match. Qed.

Lemma set_para_text_tag (s : string) (p : Element) : tag (set_para_text s p) = tag p.
Proof. unfold set_para_text. by case_match. Qed.

Lemma set_run_text_twice (s s' : string) (r : Element) :
  set_run_text s' (set_run_text s r) = set_run_text s' r.
Proof.
  unfold set_run_text at 2 3.
  destruct (El.find r (W "t")) as [t0|] eqn:Hfind.
  - unfold set_run_text, El.find, El.findall. cbn [children with_children].
    rewrite select_map_first by done.
    unfold El.find, El.findall in Hfind. rewrite Hfind. simpl.
    unfold with_children. simpl. f_equal.
    rewrite map_first_twice by done. apply map_first_ext. intros x. apply set_t_twice.
  - unfold El.find, El.findall in Hfind. apply head_None in Hfind.
    unfold set_run_text, El.find, El.findall. cbn [children with_children].
    unfold El.select at 1. rewrite filter_app. fold (El.select (W "t") (children r)).
    rewrite Hfind. simpl. rewrite ?decide_True by done. simpl.
    unfold with_children. simpl. f_equal.
    rewrite map_first_app_none by done. simpl. rewrite ?decide_True by done.
    by rewrite set_t_new.
Qed.

Lemma new_run_twice (s s' : string) (rpr : option Element) :
  (∀ x, rpr = Some x → tag x = W "rPr") →
  set_run_text s' (Elem (wtag "r") [] None (option_list rpr ++ [new_t s]))
  = Elem (wtag "r") [] None (option_list rpr ++ [new_t s']).
Proof.
  intros Hrpr.
  assert (El.select (W "t") (option_list rpr) = []) as Hsel.
  { destruct rpr as [x|]; [|done]. unfold El.select. simpl.
    rewrite filter_cons_False; [done|]. rewrite (Hrpr x eq_refl).
    by intros ?%W_inj. }
  unfold set_run_text, El.find, El.findall. cbn [children].
  unfold El.select at 1. rewrite filter_app. fold (El.select (W "t") (option_list rpr)).
  rewrite Hsel. simpl. rewrite ?decide_True by done. simpl.
  unfold with_children. simpl. f_equal.
  rewrite map_first_app_none by done. simpl. rewrite ?decide_True by done.
  by rewrite set_t_new.
Qed.

Lemma set_para_text_twice (s s' : string) (p : Element) :
  set_para_text s' (set_para_text s p) = set_para_text s' p.
Proof.
  unfold set_para_text at 2 3.
  destruct (El.findall p (W "r")) as [|r0 runs] eqn:Hruns.
  - unfold El.findall in Hruns.
    unfold set_para_text, El.findall. cbn [children with_children].
    unfold El.select at 1. rewrite filter_app. fold (El.select (W "r") (children p)).
    rewrite Hruns. simpl. rewrite ?decide_True by done. simpl.
    unfold with_children. simpl. f_equal.
    rewrite keep_first_app_none by done. simpl. rewrite ?decide_True by done.
    simpl. f_equal. f_equal. apply new_run_twice.
    intros x Hx. destruct (El.find p (W "pPr")) as [ppr|]; [|done].
    by apply find_tag in Hx.
  - unfold El.findall in Hruns.
    unfold set_para_text, El.findall. cbn [children with_children].
    rewrite select_keep_first by apply set_run_text_tag.
    rewrite Hruns. simpl. unfold with_children. simpl. f_equal.
    rewrite keep_first_twice by apply set_run_text_tag.
    apply keep_first_ext. intros x. apply set_run_text_twice.
Qed.

(** X20.  The last text set in a cell wins: setting a text in a cell and
    then another gives the cell that setting the second text alone gives
    (a cell without a paragraph of its own is left as it is both times). *)
Theorem set_cell_text_twice (cell : Element) (s s' : string) :
  set_cell_text (set_cell_text cell s) s' = set_cell_text cell s'.
Proof.
  unfold set_cell_text at 2 3.
  destruct (El.findall cell (W "p")) as [|p0 paras] eqn:Hparas.
  - unfold set_cell_text. by rewrite Hparas.
  - unfold El.findall in Hparas.
    unfold set_cell_text, El.findall. cbn [children with_children].
    rewrite select_keep_first by apply set_para_text_tag.
    rewrite Hparas. simpl. unfold with_children. simpl. f_equal.
    rewrite keep_first_twice by apply set_para_text_tag.
    apply keep_first_ext. intros x. apply set_para_text_twice.
Qed.

Lemma assoc_attrib_set (k v : string) (l : list (string * string)) :
  El.assoc k (attrib_set k v l) = Some v.
Proof.
  induction l as [|[k' v'] l IH]; simpl.
  - by rewrite decide_True.
  - case_decide as Hk; simpl; [by rewrite decide_True|by rewrite decide_False].
Qed.

Lemma select_app (t : string) (l l' : list Element) :
  El.select t (l ++ l') = El.select t l ++ El.select t l'.
Proof. unfold El.select. apply filter_app. Qed.

Lemma select_option_list (t : string) (x : option Element) :
  (∀ y, x = Some y → tag y = t) → El.select t (option_list x) = option_list x.
Proof.
  intros Hx. destruct x as [y|]; [|done]. unfold El.select. simpl.
  by rewrite filter_cons_True by (by apply Hx).
Qed.

Lemma select_option_list_other (t t' : string) (x : option Element) :
  (∀ y, x = Some y → tag y = t) → t' ≠ t → El.select t' (option_list x) = [].
Proof.
  intros Hx Hne. destruct x as [y|]; [|done]. unfold El.select. simpl.
  rewrite filter_cons_False; [done|]. rewrite (Hx y eq_refl). congruence.
Qed.

Lemma set_run_text_parts (s : string) (r0 : Element) :
  ∃ t', El.find (set_run_text s r0) (W "t") = Some t'
        ∧ text t' = Some s
        ∧ El.get t' XML_SPACE = Some "preserve"
        ∧ El.find (set_run_text s r0) (W "rPr") = El.find r0 (W "rPr").
Proof.
  unfold set_run_text. destruct (El.find r0 (W "t")) as [t0|] eqn:Hfind.
  - exists (set_t s t0). unfold El.find, El.findall in *.
    cbn [children with_children].
    rewrite select_map_first by done. rewrite Hfind.
    split; [done|]. split; [done|]. split; [apply assoc_attrib_set|].
    rewrite select_other_map_first; [done..|]. by intros ?%W_inj.
  - exists (new_t s). unfold El.find, El.findall in *. apply head_None in Hfind.
    cbn [children with_children]. rewrite !select_app, Hfind.
    split; [done|]. split; [done|]. split; [done|].
    assert (El.select (W "rPr") [new_t s] = []) as ->; [|by rewrite app_nil_r].
    unfold El.select. rewrite filter_cons_False; [done|]. by intros ?%W_inj.
Qed.

Lemma set_para_text_parts (s : string) (p0 : Element) :
  ∃ r' t', El.findall (set_para_text s p0) (W "r") = [r']
           ∧ El.find r' (W "t") = Some t'
           ∧ text t' = Some s
           ∧ El.get t' XML_SPACE = Some "preserve"
           ∧ El.find r' (W "rPr")
             = match El.find p0 (W "r") with
               | Some r0 => El.find r0 (W "rPr")
               | None => El.find p0 (W "pPr") ≫= λ ppr, El.find ppr (W "rPr")
               end.
Proof.
  unfold set_para_text.
  destruct (El.findall p0 (W "r")) as [|r0 runs] eqn:Hruns.
  - unfold El.findall in Hruns.
    set (rpr := match El.find p0 (W "pPr") with
                | Some ppr => El.find ppr (W "rPr")
                | None => None
                end).
    assert (∀ y, rpr = Some y → tag y = W "rPr") as Hrpr.
    { intros y Hy. unfold rpr in Hy.
      destruct (El.find p0 (W "pPr")) as [ppr|]; [|done]. by apply find_tag in Hy. }
    eexists _, (new_t s). unfold El.findall at 1. cbn [children with_children].
    rewrite select_app, Hruns. split; [reflexivity|].
    unfold El.find, El.findall. cbn [children]. rewrite !select_app.
    rewrite (select_option_list_other (W "rPr") (W "t")); [|done|by intros ?%W_inj].
    split; [done|]. split; [done|]. split; [done|].
    rewrite (select_option_list (W "rPr")) by done.
    assert (El.select (W "rPr") [new_t s] = []) as ->.
    { unfold El.select. rewrite filter_cons_False; [done|]. by intros ?%W_inj. }
    rewrite app_nil_r, Hruns. cbn [head]. unfold rpr, El.find, El.findall.
    destruct (head (El.select (W "pPr") (children p0))) as [ppr|]; simpl; [|done].
    by destruct (head (El.select (W "rPr") (children ppr))).
  - unfold El.findall in Hruns.
    destruct (set_run_text_parts s r0) as (t' & Ht & Htext & Hattr & Hrpr).
    exists (set_run_text s r0), t'. unfold El.findall at 1.
    cbn [children with_children].
    rewrite select_keep_first by apply set_run_text_tag. rewrite Hruns.
    split; [done|]. split; [exact Ht|]. split; [done|]. split; [done|].
    rewrite Hrpr. unfold El.find at 2, El.findall. by rewrite Hruns.
Qed.

(** X21.  Setting a text in a cell that has a paragraph of its own leaves
    the cell with exactly one paragraph, holding exactly one run, whose
    first text element carries the new text and the attribute that
    preserves spaces.  The tag and the attributes of the cell, its
    children other than paragraphs and the children of the first paragraph
    other than runs are unchanged, and the run has the run properties of
    the former first run, or of the paragraph properties when there was
    no run. *)
Theorem set_cell_text_shape (cell : Element) (s : string) (p0 : Element) :
  El.find cell (W "p") = Some p0 →
  tag (set_cell_text cell s) = tag cell
  ∧ attrib (set_cell_text cell s) = attrib cell
  ∧ filter (λ c, tag c ≠ W "p") (children (set_cell_text cell s))
    = filter (λ c, tag c ≠ W "p") (children cell)
  ∧ ∃ p' r' t',
      El.findall (set_cell_text cell s) (W "p") = [p']
      ∧ filter (λ c, tag c ≠ W "r") (children p')
        = filter (λ c, tag c ≠ W "r") (children p0)
      ∧ El.findall p' (W "r") = [r']
      ∧ El.find r' (W "t") = Some t'
      ∧ text t' = Some s
      ∧ El.get t' XML_SPACE = Some "preserve"
      ∧ El.find r' (W "rPr")
        = match El.find p0 (W "r") with
          | Some r0 => El.find r0 (W "rPr")
          | None => El.find p0 (W "pPr") ≫= λ ppr, El.find ppr (W "rPr")
          end.
Proof.
  unfold El.find at 1, set_cell_text. intros Hp0.
  destruct (El.findall cell (W "p")) as [|p paras] eqn:Hparas; [done|].
  injection Hp0 as ->. unfold El.findall in Hparas.
  split; [done|]. split; [done|]. cbn [children with_children].
  split; [by apply others_keep_first, set_para_text_tag|].
  destruct (set_para_text_parts s p0) as (r' & t' & Hr & Ht & Htext & Hattr & Hrpr).
  exists (set_para_text s p0), r', t'. unfold El.findall at 1.
  cbn [children with_children].
  rewrite select_keep_first by apply set_para_text_tag. rewrite Hparas.
  split_and!; try done.
  unfold set_para_text. destruct (El.findall p0 (W "r")) as [|r0 runs].
  - cbn [children with_children]. rewrite filter_app.
    rewrite (filter_cons_False _ (Elem _ _ _ _)) by (by intros H; apply H).
    by rewrite app_nil_r.
  - cbn [children with_children]. by apply others_keep_first, set_run_text_tag.
Qed.

Lemma set_cell_text_shape_witness :
  tag (set_cell_text (Fixture.tc_span "2" "old") "{title}") = W "tc"
  ∧ attrib (set_cell_text (Fixture.tc_span "2" "old") "{title}") = []
  ∧ filter (λ c, tag c ≠ W "p")
      (children (set_cell_text (Fixture.tc_span "2" "old") "{title}"))
    = [Fixture.el "tcPr" [Fixture.attr_el "gridSpan" "val" "2"]]
  ∧ ∃ p' r' t',
      El.findall (set_cell_text (Fixture.tc_span "2" "old") "{title}") (W "p") = [p']
      ∧ filter (λ c, tag c ≠ W "r") (children p') = []
      ∧ El.findall p' (W "r") = [r']
      ∧ El.find r' (W "t") = Some t'
      ∧ text t' = Some "{title}"
      ∧ El.get t' XML_SPACE = Some "preserve"
      ∧ El.find r' (W "rPr") = None.
Proof.
  exact (set_cell_text_shape (Fixture.tc_span "2" "old") "{title}"
           (Fixture.para "old") eq_refl).
Defined.

Lemma set_cell_text_tag (cell : Element) (s : string) :
  tag (set_cell_text cell s) = tag cell.
Proof. unfold set_cell_text. by case_match. Qed.

Lemma set_cell_text_other (cell : Element) (s t : string) :
  t ≠ W "p" → El.findall (set_cell_text cell s) t = El.findall cell t.
Proof.
  intros Ht. unfold set_cell_text.
  destruct (El.findall cell (W "p")) as [|p0 paras]; [done|].
  unfold El.findall. cbn [children with_children].
  apply select_other_keep_first; [apply set_para_text_tag|done].
Qed.

Lemma set_cell_text_info (cell : Element) (s : string) :
  cell_info (set_cell_text cell s) = cell_info cell.
Proof.
  unfold cell_info, El.find. rewrite set_cell_text_other; [done|].
  by intros ?%W_inj.
Qed.

Lemma select_map_cells (f : nat → Element → Element) (l : list Element) (i : nat) :
  (∀ k x, tag (f k x) = tag x) →
  El.select (W "tc") (map_cells i f l)
  = imap (λ k, f (i + k)) (El.select (W "tc") l).
Proof.
  intros Hf. unfold El.select. revert i.
  induction l as [|e l IH]; intros i; [done|]. cbn [map_cells].
  case_decide as He.
  - rewrite filter_cons_True by (by rewrite Hf).
    rewrite (filter_cons_True _ e) by done. rewrite imap_cons, Nat.add_0_r.
    f_equal. rewrite IH. apply imap_ext. intros k x _. simpl. f_equal. lia.
  - by rewrite !filter_cons_False, IH.
Qed.

Lemma others_map_cells (f : nat → Element → Element) (l : list Element) (i : nat) :
  (∀ k x, tag (f k x) = tag x) →
  filter (λ c, tag c ≠ W "tc") (map_cells i f l) = filter (λ c, tag c ≠ W "tc") l.
Proof.
  intros Hf. revert i. induction l as [|e l IH]; intros i; [done|].
  cbn [map_cells]. case_decide as He.
  - by rewrite !filter_cons_False, IH by (rewrite ?Hf; by intros ?).
  - by rewrite !filter_cons_True, IH.
Qed.

Lemma mapM_imap_same {A B : Type} (g : A → option B) (f : nat → A → A) (l : list A) :
  (∀ k x, g (f k x) = g x) → mapM g (imap f l) = mapM g l.
Proof.
  intros Hf. revert f Hf. induction l as [|x l IH]; intros f Hf; [done|].
  rewrite imap_cons. simpl. rewrite Hf. destruct (g x); [|done]. simpl.
  by rewrite (IH (f ∘ S)) by (intros k y; apply Hf).
Qed.

(** X22.  The command row cloned from a data row has the same cells as
    far as the inspection script measures them: reading the widths and
    spans of the clone gives what reading the data row gives (or fails
    where that fails).  The clone also has the tag, the attributes and the
    children other than cells of the data row, and as many cells. *)
Theorem clone_row_keeps_widths (row : Element) (command_text : string) :
  _row_cell_widths (clone_row_as_command row command_text) = _row_cell_widths row
  ∧ length (get_cells (clone_row_as_command row command_text))
    = length (get_cells row)
  ∧ tag (clone_row_as_command row command_text) = tag row
  ∧ attrib (clone_row_as_command row command_text) = attrib row
  ∧ filter (λ c, tag c ≠ W "tc") (children (clone_row_as_command row command_text))
    = filter (λ c, tag c ≠ W "tc") (children row).
Proof.
  assert (∀ k x, tag (match k with
                      | 0 => set_cell_text x command_text
                      | S _ => set_cell_text x EmptyString
                      end) = tag x) as Htag.
  { intros [|k] x; apply set_cell_text_tag. }
  unfold _row_cell_widths, get_cells, clone_row_as_command, El.findall.
  cbn [children with_children tag attrib].
  rewrite select_map_cells by exact Htag.
  split_and!; try done.
  - apply mapM_imap_same. intros [|k] x; apply set_cell_text_info.
  - by rewrite length_imap.
  - by apply others_map_cells.
Qed.

Lemma walk_self (e : Element) : e ∈ El.walk e.
Proof. destruct e. simpl. left. Qed.

Lemma walk_child (e c x : Element) :
  c ∈ children e → x ∈ El.walk c → x ∈ El.walk e.
Proof.
  intros Hc Hx. destruct e as [t a tx cs]. simpl in *. right.
  apply list_elem_of_bind. by exists c.
Qed.

Lemma findall_child (e x : Element) (t : string) :
  x ∈ El.findall e t → x ∈ children e ∧ tag x = t.
Proof.
  unfold El.findall, El.select. intros [Ht Hx]%list_elem_of_filter. done.
Qed.

Lemma set_cell_text_carries (cell : Element) (s : string) (p0 : Element) :
  El.find cell (W "p") = Some p0 →
  ∃ t', t' ∈ El.iter (set_cell_text cell s) (W "t") ∧ text t' = Some s.
Proof.
  unfold El.find, set_cell_text. intros Hp0.
  destruct (El.findall cell (W "p")) as [|p paras] eqn:Hparas; [done|].
  injection Hp0 as ->. unfold El.findall in Hparas.
  destruct (set_para_text_parts s p0) as (r' & t' & Hr & Ht & Htext & _).
  exists t'. split; [|done].
  assert (set_para_text s p0
          ∈ El.findall (with_children cell
                          (keep_first (W "p") (set_para_text s) (children cell)))
              (W "p")) as [Hp _]%findall_child.
  { unfold El.findall. cbn [children with_children].
    rewrite select_keep_first by apply set_para_text_tag. rewrite Hparas. left. }
  assert (r' ∈ El.findall (set_para_text s p0) (W "r")) as [Hr' _]%findall_child.
  { rewrite Hr. left. }
  assert (t' ∈ El.findall r' (W "t")) as [Ht' Htag]%findall_child.
  { unfold El.find in Ht. by apply head_Some_elem_of. }
  unfold El.iter, El.select. apply list_elem_of_filter. split; [done|].
  eapply walk_child; [exact Hp|]. eapply walk_child; [exact Hr'|].
  eapply walk_child; [exact Ht'|]. apply walk_self.
Qed.

Lemma has_char_occurs (q : ascii) (s : string) :
  PyStr.has_char q s = true ↔ occurs_in (String q EmptyString) s.
Proof.
  split.
  - induction s as [|c s IH]; [done|]. cbn [PyStr.has_char].
    intros [Hc|Hs]%orb_true_iff.
    + apply Ascii.eqb_eq in Hc as ->. by exists EmptyString, s.
    + destruct (IH Hs) as (pre & post & ->). exists (String c pre), post.
      by rewrite append_String.
  - intros (pre & post & ->). rewrite has_char_app. apply orb_true_iff. right.
    rewrite append_String. cbn [PyStr.has_char]. by rewrite Ascii.eqb_refl.
Qed.

Lemma has_char_lstrip (q : ascii) (s : string) :
  PyStr.isspace q = false → PyStr.has_char q (PyStr.lstrip s) = PyStr.has_char q s.
Proof.
  intros Hq. induction s as [|c s IH]; [done|]. cbn [PyStr.lstrip].
  destruct (PyStr.isspace c) eqn:Hc; [|done]. rewrite IH. cbn [PyStr.has_char].
  destruct (Ascii.eqb_spec c q) as [->|_]; [congruence|done].
Qed.

Lemma has_char_rstrip (q : ascii) (s : string) :
  PyStr.isspace q = false → PyStr.has_char q (PyStr.rstrip s) = PyStr.has_char q s.
Proof.
  intros Hq. induction s as [|c s IH]; [done|]. cbn [PyStr.rstrip].
  cbn [PyStr.has_char]. rewrite <- IH.
  destruct (PyStr.rstrip s) as [|b r] eqn:Hs; [|done].
  destruct (PyStr.isspace c) eqn:Hc; cbn [PyStr.has_char]; [|done].
  destruct (Ascii.eqb_spec c q) as [->|_]; [congruence|done].
Qed.

Lemma occurs_in_refl (s : string) : occurs_in s s.
Proof. exists EmptyString, EmptyString. by rewrite append_Empty, append_Empty_r. Qed.

Lemma occurs_in_trans (a b c : string) :
  occurs_in a b → occurs_in b c → occurs_in a c.
Proof. intros Hab (pre & post & ->). by apply occurs_in_middle. Qed.

(** X23.  A cell that was given a text with an opening brace counts as
    tagged: a later conditional tagging leaves it as it is and logs
    nothing, whatever text it offers. *)
Theorem tagged_cell_kept (cell : Element) (s s' label : string) (p0 : Element) :
  El.find cell (W "p") = Some p0 →
  occurs_in "{" s →
  set_cell_text_if_empty (set_cell_text cell s) s' label = (set_cell_text cell s, []).
Proof.
  intros Hp0 Hbrace.
  destruct (set_cell_text_carries cell s p0 Hp0) as (t' & Ht' & Htext).
  assert (PyStr.has_char "{" (PyStr.strip (get_cell_text (set_cell_text cell s)))
          = true) as Hhas.
  { unfold PyStr.strip. rewrite has_char_rstrip, has_char_lstrip by done.
    apply has_char_occurs. apply (occurs_in_trans _ s); [done|].
    unfold get_cell_text. apply (join_occurs _ s); [|apply occurs_in_refl].
    apply list_elem_of_omap. exists t'. split; [done|].
    unfold truthy_text. rewrite Htext.
    destruct s; [|done]. by destruct Hbrace as ([|??] & ? & ?). }
  unfold set_cell_text_if_empty.
  assert (PyStr.contains "{"
            (PyStr.strip (get_cell_text (set_cell_text cell s))) = true) as ->.
  { apply contains_spec. by apply has_char_occurs. }
  destruct (PyStr.strip (get_cell_text (set_cell_text cell s))); [done|].
  reflexivity.
Qed.

Lemma tagged_cell_kept_witness :
  set_cell_text_if_empty (set_cell_text (Fixture.tc "Title") "{title}")
    "{other}" "T[0] R0"
  = (set_cell_text (Fixture.tc "Title") "{title}", []).
Proof.
  apply (tagged_cell_kept (Fixture.tc "Title") "{title}" "{other}" "T[0] R0"
           (Fixture.para "Title") eq_refl).
  by exists EmptyString, "title}".
Defined.

Lemma join_texts (l : list Element) :
  PyStr.join EmptyString ((λ t, default EmptyString (text t)) <$> l)
  = PyStr.join EmptyString (omap truthy_text l).
Proof.
  induction l as [|t l IH]; [done|]. rewrite fmap_cons, join_cons, IH.
  cbn [omap list_omap]. unfold truthy_text at 2.
  destruct (text t) as [[|c s]|]; cbn [default]; rewrite ?append_Empty; try done.
  symmetry. apply join_cons.
Qed.

(** X24.  For an element that is not itself a text element, the cell text
    the inspection script compares is the cell text the tagging script
    reads, trimmed. *)
Theorem cell_texts_agree (cell : Element) :
  tag cell ≠ W "t" → _cell_text cell = PyStr.strip (get_cell_text cell).
Proof.
  intros Htag. unfold _cell_text, get_cell_text. f_equal. rewrite join_texts.
  f_equal. f_equal. unfold El.findall_deep, El.iter, wtag, El.select.
  destruct cell as [t a tx cs]. simpl in *. by rewrite filter_cons_False.
Qed.

Lemma cell_texts_agree_witness :
  _cell_text (Fixture.tc "  Module code ")
  = PyStr.strip (get_cell_text (Fixture.tc "  Module code ")).
Proof.
  apply (cell_texts_agree (Fixture.tc "  Module code ")).
  by intros ?%W_inj.
Defined.

Lemma grid_groups_partition_witness :
  [0] ≠ []
  ∧ StronglySorted lt [0]
  ∧ ∀ i ti, i ∈ [0] → [module_table "100"; module_table "200"] !! i = Some ti →
      ∀ j, j ∈ [0] ↔ ∃ tj, [module_table "100"; module_table "200"] !! j = Some tj
                           ∧ _table_grid tj = _table_grid ti.
Proof.
  apply (proj2 (grid_groups_partition [module_table "100"; module_table "200"])
           (grid_key (module_table "100"), [0])).
  vm_compute. left.
Defined.

Lemma bind_empty {A B : Type} (f : A → list B) : [] ≫= f = [].
Proof. done. Qed.

Lemma walk_eq (e : Element) : El.walk e = e :: (children e ≫= El.walk).
Proof. by destruct e. Qed.

(** X25.  The text of a paragraph made from a text is that text, provided
    the run properties copied from the reference element, if any, hold no
    text element. *)
Theorem make_paragraph_text (new_text : string) (copy_rpr_from : option Element) :
  (∀ ref rpr, copy_rpr_from = Some ref →
              head (El.findall_deep ref (W "rPr")) = Some rpr →
              El.iter rpr (W "t") = []) →
  get_para_text (make_paragraph new_text copy_rpr_from) = new_text.
Proof.
  intros Hrpr. unfold get_para_text, make_paragraph, El.iter, wtag.
  set (rpr := match copy_rpr_from with
              | Some ref => head (El.findall_deep ref (W "rPr"))
              | None => None
              end).
  assert (El.select (W "t") (option_list rpr ≫= El.walk) = []) as Hnone.
  { destruct copy_rpr_from as [ref|]; [|done]. unfold rpr.
    destruct (head (El.findall_deep ref (W "rPr"))) as [x|] eqn:Hx; [|done].
    simpl. rewrite app_nil_r. exact (Hrpr ref x eq_refl Hx). }
  rewrite walk_eq. cbn [children]. rewrite bind_cons, bind_empty, app_nil_r.
  rewrite walk_eq. cbn [children]. rewrite bind_app, bind_cons, bind_empty, app_nil_r.
  unfold El.select in *.
  rewrite filter_cons_False by (by intros ?%W_inj).
  rewrite filter_cons_False by (by intros ?%W_inj).
  rewrite filter_app, Hnone, app_nil_l.
  unfold new_t, wtag. rewrite walk_eq. cbn [children]. rewrite bind_empty.
  rewrite filter_cons_True by done. rewrite filter_nil.
  cbn [omap list_omap]. unfold truthy_text. cbn [text].
  destruct new_text as [|c s]; [done|]. cbn [list_omap].
  unfold PyStr.join. simpl. reflexivity.
Qed.

Lemma make_paragraph_text_witness :
  get_para_text (make_paragraph "{FOR m IN modules}" None) = "{FOR m IN modules}".
Proof.
  apply (make_paragraph_text "{FOR m IN modules}" None). intros ref rpr H. discriminate H.
Defined.

Lemma any_split_None (runs : list Element) :
  any_split runs = None ↔
  ∃ k r, runs !! k = Some r
         ∧ run_txt r = None
         ∧ ∀ j rj, j < k → runs !! j = Some rj →
                   ∃ txt, run_txt rj = Some txt ∧ ¬ split_text txt.
Proof.
  induction runs as [|r0 runs IH]; cbn [any_split].
  { split; [done|]. by intros (k & r & ? & _). }
  destruct (run_txt r0) as [txt|] eqn:Htxt.
  - destruct (PyStr.contains "{" txt && negb (PyStr.contains "}" txt))%bool eqn:Hsplit.
    + split; [done|]. intros (k & r & Hk & Hr & Hbefore).
      destruct k as [|k]; [simpl in Hk; congruence|].
      destruct (Hbefore 0 r0 ltac:(lia) eq_refl) as (txt' & Htxt' & Hno).
      assert (txt' = txt) as -> by congruence. exfalso. apply Hno.
      apply andb_true_iff in Hsplit as [Hopen Hclose]. split.
      * by apply contains_spec.
      * rewrite <- contains_spec. by destruct (PyStr.contains "}" txt).
    + assert (¬ split_text txt) as Hno.
      { intros [Hopen Hclose]. apply contains_spec in Hopen.
        rewrite <- contains_spec in Hclose.
        destruct (PyStr.contains "}" txt); [done|]. by rewrite Hopen in Hsplit. }
      rewrite IH. split.
      * intros (k & r & Hk & Hr & Hbefore). exists (S k), r.
        split; [done|]. split; [done|]. intros [|j] rj Hj Hrj.
        { injection Hrj as <-. by exists txt. }
        apply (Hbefore j rj); [lia|done].
      * intros (k & r & Hk & Hr & Hbefore).
        destruct k as [|k]; [simpl in Hk; congruence|].
        exists k, r. split; [done|]. split; [done|]. intros j rj Hj Hrj.
        apply (Hbefore (S j) rj); [lia|done].
  - split; [|done]. intros _. exists 0, r0. split; [done|]. split; [done|].
    intros j rj Hj. lia.
Qed.

Lemma run_txt_None (r : Element) :
  run_txt r = None ↔ ∃ t, El.find r (W "t") = Some t ∧ text t = None.
Proof.
  unfold run_txt. destruct (El.find r (W "t")) as [t|].
  - split; [by exists t|]. by intros (t' & [= <-] & ?).
  - split; [done|]. by intros (t' & ? & _).
Qed.

(** X26.  The last check of the tagging script, the count of the
    paragraphs that still have a split run, raises a TypeError exactly
    when some paragraph with at least two runs and an opening brace in its
    text has a run whose first text element has no text, and no earlier
    run of that paragraph that holds an opening and no closing brace. *)
Theorem remaining_splits_raises (body : Element) :
  remaining_splits body = None ↔
  ∃ para k r t,
    para ∈ El.iter body (W "p")
    ∧ 2 ≤ length (El.findall para (W "r"))
    ∧ occurs_in "{" (get_para_text para)
    ∧ El.findall para (W "r") !! k = Some r
    ∧ El.find r (W "t") = Some t ∧ text t = None
    ∧ ∀ j rj, j < k → El.findall para (W "r") !! j = Some rj →
              ∃ txt, run_txt rj = Some txt ∧ ¬ split_text txt.
Proof.
  assert (∀ para, para_remaining para = None ↔
                  2 ≤ length (El.findall para (W "r"))
                  ∧ occurs_in "{" (get_para_text para)
                  ∧ any_split (El.findall para (W "r")) = None) as Hpara.
  { intros para. unfold para_remaining.
    destruct (Nat.ltb_spec (length (El.findall para (W "r"))) 2) as [Hlt|Hge].
    { split; [done|]. intros [? _]. lia. }
    rewrite <- contains_spec.
    destruct (PyStr.contains "{" (get_para_text para)); simpl.
    - split; [done|]. by intros (_ & _ & ?).
    - split; [done|]. by intros (_ & ? & _). }
  unfold remaining_splits, wtag. split.
  - intros Hnone.
    assert (¬ Forall (λ para, is_Some (para_remaining para)) (El.iter body (W "p")))
      as Hex.
    { intros Hall. apply mapM_is_Some in Hall as [flags Hflags].
      by rewrite Hflags in Hnone. }
    apply not_Forall_Exists in Hex; [|apply _].
    apply Exists_exists in Hex as (para & Hin & Hp).
    assert (para_remaining para = None) as Hp'.
    { simpl in Hp. destruct (para_remaining para) as [b|]; [|done].
      exfalso. apply Hp. by exists b. }
    apply Hpara in Hp' as (Hlen & Hopen & Hany).
    apply any_split_None in Hany as (k & r & Hk & Hr & Hbefore).
    apply run_txt_None in Hr as (t & Ht & Htext).
    by exists para, k, r, t.
  - intros (para & k & r & t & Hin & Hlen & Hopen & Hk & Ht & Htext & Hbefore).
    assert (para_remaining para = None) as Hp.
    { apply Hpara. split; [done|]. split; [done|]. apply any_split_None.
      exists k, r. split; [done|]. split; [|done]. apply run_txt_None. by exists t. }
    destruct (mapM para_remaining (El.iter body (W "p"))) as [flags|] eqn:Hflags;
      [|done].
    assert (is_Some (mapM para_remaining (El.iter body (W "p")))) as Hsome
      by (by eexists).
    apply mapM_is_Some in Hsome. rewrite Forall_forall in Hsome.
    destruct (Hsome para Hin) as [b Hb]. congruence.
Qed.

Lemma remaining_splits_raises_witness : remaining_splits blank_then_field = None.
Proof.
  apply (proj2 (remaining_splits_raises blank_then_field)).
  exists (Fixture.el "p"
            [Fixture.el "r" [Elem (W "t") [] None []];
             Fixture.el "r" [Elem (W "t") [] (Some "{title}") []]]),
    0, (Fixture.el "r" [Elem (W "t") [] None []]), (Elem (W "t") [] None []).
  split; [vm_compute; left|]. split; [vm_compute; lia|].
  split; [by exists EmptyString, "title}"|].
  split; [reflexivity|]. split; [reflexivity|]. split; [reflexivity|].
  intros j rj Hj. lia.
Defined.

(** * The tagging script: merging split runs *)

Lemma select_alter_run (k : nat) (f : Element → Element) (l : list Element) :
  (∀ x, tag (f x) = tag x) →
  El.select (W "r") (alter_run k f l) = alter f k (El.select (W "r") l).
Proof.
  intros Hf. unfold El.select. revert k.
  induction l as [|e l IH]; intros k; [done|]. cbn [alter_run].
  case_decide as He.
  - rewrite (filter_cons_True _ e) by done. destruct k as [|k].
    + by rewrite filter_cons_True by (by rewrite Hf).
    + rewrite filter_cons_True by done. simpl. by rewrite IH.
  - by rewrite !filter_cons_False, IH.
Qed.

Lemma others_alter_run (k : nat) (f : Element → Element) (l : list Element) :
  (∀ x, tag (f x) = tag x) →
  filter (λ c, tag c ≠ W "r") (alter_run k f l) = filter (λ c, tag c ≠ W "r") l.
Proof.
  intros Hf. revert k. induction l as [|e l IH]; intros k; [done|].
  cbn [alter_run]. case_decide as He.
  - rewrite (filter_cons_False _ e) by (by intros ?). destruct k as [|k].
    + by rewrite filter_cons_False by (rewrite Hf; by intros ?).
    + by rewrite filter_cons_False, IH by (by intros ?).
  - by rewrite !filter_cons_True, IH.
Qed.

Lemma select_delete_run (k : nat) (l : list Element) :
  El.select (W "r") (delete_run k l) = delete k (El.select (W "r") l).
Proof.
  unfold El.select. revert k. induction l as [|e l IH]; intros k; [done|].
  cbn [delete_run]. case_decide as He.
  - rewrite (filter_cons_True _ e) by done. destruct k as [|k]; [done|].
    rewrite filter_cons_True by done. simpl. by rewrite IH.
  - by rewrite !filter_cons_False, IH.
Qed.

Lemma others_delete_run (k : nat) (l : list Element) :
  filter (λ c, tag c ≠ W "r") (delete_run k l) = filter (λ c, tag c ≠ W "r") l.
Proof.
  revert k. induction l as [|e l IH]; intros k; [done|].
  cbn [delete_run]. case_decide as He.
  - rewrite (filter_cons_False _ e) by (by intros ?). destruct k as [|k]; [done|].
    by rewrite filter_cons_False, IH by (by intros ?).
  - by rewrite !filter_cons_True, IH.
Qed.

Lemma set_first_t_tag (merged : string) (r : Element) :
  tag (set_first_t merged r) = tag r.
Proof. done. Qed.

Lemma merge_step_runs (merged : string) (i : nat) (cs : list Element) :
  El.select (W "r")
    (delete_run (i + 1) (delete_run (i + 2) (alter_run i (set_first_t merged) cs)))
  = delete (i + 1) (delete (i + 2) (alter (set_first_t merged) i (El.select (W "r") cs))).
Proof.
  by rewrite !select_delete_run, select_alter_run by apply set_first_t_tag.
Qed.

Lemma merge_step_others (merged : string) (i : nat) (cs : list Element) :
  filter (λ c, tag c ≠ W "r")
    (delete_run (i + 1) (delete_run (i + 2) (alter_run i (set_first_t merged) cs)))
  = filter (λ c, tag c ≠ W "r") cs.
Proof.
  by rewrite !others_delete_run, others_alter_run by apply set_first_t_tag.
Qed.

Lemma merge_loop_runs (fuel : nat) (cs : list Element) (i count : nat) :
  2 * length (El.select (W "r") cs) - i < fuel →
  ∃ cs' n,
    merge_loop fuel cs i count = Some (cs', count + n)
    ∧ length (El.select (W "r") cs') + 2 * n = length (El.select (W "r") cs)
    ∧ filter (λ c, tag c ≠ W "r") cs' = filter (λ c, tag c ≠ W "r") cs.
Proof.
  revert cs i count. induction fuel as [|fuel IH]; intros cs i count Hfuel; [lia|].
  cbn [merge_loop].
  destruct (El.select (W "r") cs !! i) as [r|] eqn:Hi.
  2: { exists cs, 0. by rewrite Nat.add_0_r. }
  pose proof (lookup_lt_Some _ _ _ Hi) as Hlt.
  assert (∃ cs' n,
            merge_loop fuel cs (S i) count = Some (cs', count + n)
            ∧ length (El.select (W "r") cs') + 2 * n = length (El.select (W "r") cs)
            ∧ filter (λ c, tag c ≠ W "r") cs' = filter (λ c, tag c ≠ W "r") cs)
    as Hnext.
  { apply IH. lia. }
  destruct (El.select (W "r") cs !! (i + 1)) as [r1|] eqn:H1; [|exact Hnext].
  destruct (El.select (W "r") cs !! (i + 2)) as [r2|] eqn:H2; [|exact Hnext].
  case_decide as Hcond; [|exact Hnext].
  pose proof (lookup_lt_Some _ _ _ H2) as Hlt2.
  set (merged := "{" +:+ strip_or_empty (run_txt r1) +:+ "}").
  assert (length (El.select (W "r")
                    (delete_run (i + 1)
                       (delete_run (i + 2) (alter_run i (set_first_t merged) cs))))
          + 2 = length (El.select (W "r") cs)) as Hlen.
  { rewrite merge_step_runs, !length_delete, length_alter.
    - lia.
    - apply lookup_lt_is_Some. rewrite length_alter. lia.
    - apply lookup_lt_is_Some. rewrite length_delete, length_alter; [lia|].
      apply lookup_lt_is_Some. rewrite length_alter. lia. }
  destruct (IH (delete_run (i + 1)
                  (delete_run (i + 2) (alter_run i (set_first_t merged) cs)))
              i (S count)) as (cs' & n & Hrun & Hruns & Hothers); [lia|].
  exists cs', (S n). split; [|split].
  - rewrite Hrun. f_equal. f_equal. lia.
  - lia.
  - by rewrite Hothers, merge_step_others.
Qed.

(** X27.  Merging the split runs of a paragraph always ends.  It leaves
    the tag, the attributes and the children other than runs of the
    paragraph as they are, and every merge it counts takes two runs away:
    the runs left and twice the count make up the runs there were. *)
Theorem merge_para_runs (para : Element) :
  ∃ para' n,
    merge_para para = Some (para', n)
    ∧ length (El.findall para' (W "r")) + 2 * n = length (El.findall para (W "r"))
    ∧ filter (λ c, tag c ≠ W "r") (children para')
      = filter (λ c, tag c ≠ W "r") (children para)
    ∧ tag para' = tag para ∧ attrib para' = attrib para.
Proof.
  unfold merge_para. destruct (length (El.findall para (W "r")) <? 2).
  { exists para, 0. split; [done|]. split; [lia|done]. }
  destruct (merge_loop_runs (2 * length (El.findall para (W "r")) + 1)
              (children para) 0 0) as (cs' & n & Hrun & Hruns & Hothers).
  { unfold El.findall. lia. }
  rewrite Hrun. exists (with_children para cs'), n. by split_and!.
Qed.

Lemma merge_loop_no_brace (fuel : nat) (cs : list Element) (i count : nat) :
  2 * length (El.select (W "r") cs) - i < fuel →
  (∀ k r, i ≤ k → El.select (W "r") cs !! k = Some r →
          strip_or_empty (run_txt r) ≠ "{") →
  merge_loop fuel cs i count = Some (cs, count).
Proof.
  revert i. induction fuel as [|fuel IH]; intros i Hfuel Hno; [lia|].
  cbn [merge_loop].
  destruct (El.select (W "r") cs !! i) as [r|] eqn:Hi; [|done].
  pose proof (lookup_lt_Some _ _ _ Hi) as Hlt.
  assert (merge_loop fuel cs (S i) count = Some (cs, count)) as Hnext.
  { apply IH; [lia|]. intros k x Hk. apply Hno. lia. }
  destruct (El.select (W "r") cs !! (i + 1)) as [r1|]; [|exact Hnext].
  destruct (El.select (W "r") cs !! (i + 2)) as [r2|]; [|exact Hnext].
  rewrite decide_False; [exact Hnext|]. intros [Hbrace _].
  by apply (Hno i r).
Qed.

Lemma with_children_same (e : Element) : with_children e (children e) = e.
Proof. by destruct e. Qed.

(** X28.  A paragraph none of whose runs has a text that is, once
    trimmed, a lone opening brace is left as it is, and no merge is
    counted. *)
Theorem merge_para_untouched (para : Element) :
  Forall (λ r, strip_or_empty (run_txt r) ≠ "{") (El.findall para (W "r")) →
  merge_para para = Some (para, 0).
Proof.
  intros Hno. unfold merge_para.
  destruct (length (El.findall para (W "r")) <? 2); [done|].
  rewrite merge_loop_no_brace.
  - by rewrite with_children_same.
  - unfold El.findall. lia.
  - intros k r _ Hk. rewrite Forall_lookup in Hno. by apply (Hno k).
Qed.

Lemma merge_para_untouched_witness :
  merge_para (Fixture.el "p"
                [Fixture.el "r" [Elem (W "t") [] (Some "{title") []];
                 Fixture.el "r" [Elem (W "t") [] (Some "}") []]])
  = Some (Fixture.el "p"
            [Fixture.el "r" [Elem (W "t") [] (Some "{title") []];
             Fixture.el "r" [Elem (W "t") [] (Some "}") []]], 0).
Proof.
  apply (merge_para_untouched
           (Fixture.el "p"
              [Fixture.el "r" [Elem (W "t") [] (Some "{title") []];
               Fixture.el "r" [Elem (W "t") [] (Some "}") []]])).
  assert (El.findall
            (Fixture.el "p"
               [Fixture.el "r" [Elem (W "t") [] (Some "{title") []];
                Fixture.el "r" [Elem (W "t") [] (Some "}") []]]) (W "r")
          = [Fixture.el "r" [Elem (W "t") [] (Some "{title") []];
             Fixture.el "r" [Elem (W "t") [] (Some "}") []]]) as -> by (by vm_compute).
  repeat constructor; vm_compute; discriminate.
Defined.

Lemma rstrip_snoc (s : string) (c : ascii) :
  PyStr.isspace c = false →
  PyStr.rstrip (s +:+ String c EmptyString) = s +:+ String c EmptyString.
Proof.
  intros Hc. induction s as [|a s IH].
  - rewrite append_Empty. cbn [PyStr.rstrip]. by rewrite Hc.
  - rewrite append_String. cbn [PyStr.rstrip]. rewrite IH.
    destruct s; by rewrite ?append_Empty, ?append_String.
Qed.

Lemma strip_braced (mid : string) :
  PyStr.strip ("{" +:+ mid +:+ "}") = "{" +:+ mid +:+ "}".
Proof.
  unfold PyStr.strip. rewrite append_String, append_Empty.
  cbn [PyStr.lstrip]. change (PyStr.isspace "{") with false. cbv iota.
  change (String "{" (mid +:+ "}")) with (String "{" EmptyString +:+ (mid +:+ "}")).
  rewrite <- append_assoc. by apply rstrip_snoc.
Qed.

Lemma run_txt_set_first_t (merged : string) (r : Element) :
  strip_or_empty (run_txt r) = "{" → run_txt (set_first_t merged r) = Some merged.
Proof.
  unfold run_txt, set_first_t, El.find, El.findall. cbn [children with_children].
  rewrite select_map_first by done.
  destruct (head (El.select (W "t") (children r))) as [t0|]; [done|].
  simpl. unfold PyStr.strip. simpl. discriminate.
Qed.

(** X29.  Three runs at the head of a paragraph whose texts are, once
    trimmed, an opening brace, a non-empty text without a space and a
    closing brace become one run that carries the brace, the text and the
    brace as one text and keeps the other children of the first run; with
    no lone opening brace among the later runs, that is the one merge
    counted and the later runs stay. *)
Theorem merge_para_field (para r0 r1 r2 : Element) (rest : list Element) :
  El.findall para (W "r") = r0 :: r1 :: r2 :: rest →
  strip_or_empty (run_txt r0) = "{" →
  strip_or_empty (run_txt r1) ≠ EmptyString →
  ¬ occurs_in " " (strip_or_empty (run_txt r1)) →
  strip_or_empty (run_txt r2) = "}" →
  Forall (λ r, strip_or_empty (run_txt r) ≠ "{") rest →
  ∃ para' r',
    merge_para para = Some (para', 1)
    ∧ El.findall para' (W "r") = r' :: rest
    ∧ run_txt r' = Some ("{" +:+ strip_or_empty (run_txt r1) +:+ "}")
    ∧ filter (λ c, tag c ≠ W "t") (children r')
      = filter (λ c, tag c ≠ W "t") (children r0).
Proof.
  intros Hruns H0 Hmid Hspace H2 Hrest. unfold merge_para. rewrite Hruns.
  unfold El.findall in Hruns.
  set (merged := "{" +:+ strip_or_empty (run_txt r1) +:+ "}").
  set (cs' := delete_run 1 (delete_run 2 (alter_run 0 (set_first_t merged)
                                            (children para)))).
  assert (El.select (W "r") cs' = set_first_t merged r0 :: rest) as Hcs'.
  { unfold cs'. rewrite (merge_step_runs merged 0), Hruns. done. }
  exists (with_children para cs'), (set_first_t merged r0).
  split; [|split; [exact Hcs'|split]].
  - change (length (r0 :: r1 :: r2 :: rest) <? 2) with false. cbv iota.
    replace (2 * length (r0 :: r1 :: r2 :: rest) + 1)
      with (S (2 * length (r0 :: r1 :: r2 :: rest))) by lia.
    cbn [merge_loop]. rewrite Hruns. cbn [lookup list_lookup Nat.add].
    rewrite decide_True.
    2: { split; [done|]. split; [done|]. split; [done|].
         destruct (PyStr.contains " " (strip_or_empty (run_txt r1))) eqn:Hc; [|done].
         by apply contains_spec in Hc. }
    fold merged. fold cs'. rewrite merge_loop_no_brace; [done| |].
    + rewrite Hcs'. simpl. lia.
    + rewrite Hcs'. intros [|k] r _ Hk.
      * injection Hk as <-. rewrite (run_txt_set_first_t merged r0 H0).
        unfold strip_or_empty at 1, merged. rewrite strip_braced.
        rewrite append_String. intros [= H]. by destruct (strip_or_empty (run_txt r1)).
      * rewrite Forall_lookup in Hrest. by apply (Hrest k).
  - by apply run_txt_set_first_t.
  - unfold set_first_t. cbn [children with_children].
    clear. induction (children r0) as [|e l IH]; [done|]. cbn [map_first].
    case_decide as He.
    + by rewrite !filter_cons_False by (by intros ?).
    + by rewrite !filter_cons_True, IH.
Qed.

Lemma merge_para_field_witness :
  ∃ para' r',
    merge_para (Fixture.el "p"
                  [Fixture.el "r" [Elem (W "t") [] (Some "{") []];
                   Fixture.el "r" [Elem (W "t") [] (Some "title ") []];
                   Fixture.el "r" [Elem (W "t") [] (Some "}") []]])
    = Some (para', 1)
    ∧ El.findall para' (W "r") = [r']
    ∧ run_txt r' = Some "{title}"
    ∧ filter (λ c, tag c ≠ W "t") (children r') = [].
Proof.
  apply (merge_para_field
           (Fixture.el "p"
              [Fixture.el "r" [Elem (W "t") [] (Some "{") []];
               Fixture.el "r" [Elem (W "t") [] (Some "title ") []];
               Fixture.el "r" [Elem (W "t") [] (Some "}") []]])
           (Fixture.el "r" [Elem (W "t") [] (Some "{") []])
           (Fixture.el "r" [Elem (W "t") [] (Some "title ") []])
           (Fixture.el "r" [Elem (W "t") [] (Some "}") []]) []).
  - by vm_compute.
  - by vm_compute.
  - vm_compute. discriminate.
  - intros Hocc. apply contains_spec in Hocc. vm_compute in Hocc. discriminate Hocc.
  - by vm_compute.
  - constructor.
Defined.
